(** * TTML2PGS: timeline slicer, compositor geometry, timecodes and the
    PGS bitstream encoder (quantizer and run-length compressor)

    A shallow embedding of [core/bdn_composer.py] and
    [core/pgs_encoder.py].  Python integers are [Z]; image dimensions and
    list positions are [nat]; byte strings are lists of [Z] in [0, 255];
    Python floats are modelled as exact rationals ([Qc]), so the rounding
    error and the overflow of binary floating point are outside the
    model.  Python exceptions are the [Raise] outcomes of the [result]
    type.  Functions of PIL that the code calls ([getbbox], [crop],
    [getcolors], pixel access) are modelled from their documentation. *)

From Stdlib Require Import ZArith QArith Qcanon Qround Lqa Lia.
From Stdlib Require Import Ascii String.
From stdpp Require Import base tactics option list sorting numbers countable gmap.

Local Open Scope Z_scope.

(* ================================================================== *)
(** * Definitions *)
(* ================================================================== *)

(** ** Python outcomes *)

Module Py.

(** The exceptions the embedded code can raise.  [FuelExhausted] is not
    a Python exception: it marks a loop of the model that ran out of
    fuel, and is proved unreachable where it matters. *)
Inductive exn : Set :=
| IndexError
| ValueError
| StructError
| ZeroDivisionError
| FuelExhausted.

Inductive result (A : Type) : Type :=
| Ok (a : A)
| Raise (e : exn).
Arguments Ok {A} a.
Arguments Raise {A} e.

Definition bind {A B} (m : result A) (k : A -> result B) : result B :=
  match m with
  | Ok a => k a
  | Raise e => Raise e
  end.

(** [struct.pack('>B', v)]: one unsigned byte, or [struct.error]. *)
Definition pack_B (v : Z) : result Z :=
  if (0 <=? v) && (v <=? 255) then Ok v else Raise StructError.

(** [bytearray.append(v)]: the byte, or [ValueError]. *)
Definition byte_of_int (v : Z) : result Z :=
  if (0 <=? v) && (v <=? 255) then Ok v else Raise ValueError.

End Py.
Export Py.

Global Instance result_ret : MRet Py.result := fun A a => Py.Ok a.
Global Instance result_bind : MBind Py.result := fun A B k m => Py.bind m k.
Global Instance result_fmap : FMap Py.result :=
  fun A B f m => Py.bind m (fun a => Py.Ok (f a)).

(** ** Run-length compression ([PgsEncoder._rle_compress]) *)

Module Rle.

(** The inner [while i + run < width and line[i + run] == val and
    run < 16383: run += 1].  [budget] is [16383 - run], so the third
    conjunct of the loop condition is [budget <> 0]; the conjuncts are
    evaluated left to right, and [line[i + run]] raises [IndexError]
    on a line shorter than [width]. *)
Fixpoint scan_run (line : list Z) (width i : nat) (val : Z)
         (run budget : nat) : result nat :=
  if (i + run <? width)%nat then
    match line !! (i + run)%nat with
    | None => Raise IndexError
    | Some v =>
        if v =? val then
          match budget with
          | O => Ok run
          | S budget' => scan_run line width i val (S run) budget'
          end
        else Ok run
    end
  else Ok run.

(** The bytes appended for one run of [run] pixels of value [val]. *)
Definition emit_run (val : Z) (run : nat) : result (list Z) :=
  let r := Z.of_nat run in
  if val =? 0 then
    if r <=? 63 then
      b0 ← pack_B 0x00 ; b1 ← pack_B r ; Ok [b0; b1]
    else
      b0 ← pack_B 0x00 ; b1 ← pack_B (Z.lor 0x40 (Z.shiftr r 8)) ;
      Ok [b0; b1; Z.land r 0xFF]
  else
    if r =? 1 then
      b ← byte_of_int val ; Ok [b]
    else if r <=? 63 then
      b0 ← pack_B 0x00 ; b1 ← pack_B (Z.lor 0x80 r) ;
      b2 ← byte_of_int val ; Ok [b0; b1; b2]
    else
      b0 ← pack_B 0x00 ; b1 ← pack_B (Z.lor 0xC0 (Z.shiftr r 8)) ;
      b3 ← byte_of_int val ; Ok [b0; b1; Z.land r 0xFF; b3].

(** The outer [while i < width] over one scanline; every iteration
    advances [i] by at least one pixel, so [width] units of fuel are
    enough. *)
Fixpoint rle_line (fuel : nat) (line : list Z) (width i : nat)
  : result (list Z) :=
  if (i <? width)%nat then
    match fuel with
    | O => Raise FuelExhausted
    | S fuel' =>
        match line !! i with
        | None => Raise IndexError
        | Some val =>
            run ← scan_run line width i val 1 (Z.to_nat 16382) ;
            bytes ← emit_run val run ;
            rest ← rle_line fuel' line width (i + run) ;
            Ok (bytes ++ rest)
        end
    end
  else Ok [].

(** [pixels[start:end]] with [start = row * width], [end = start + width]:
    slicing never raises, it returns what is there. *)
Definition scanline (pixels : list Z) (width row : nat) : list Z :=
  take width (drop (row * width) pixels).

(** [for row in range(height)]: the bytes of the rows from [row] on,
    each followed by the end-of-line marker [b'\x00\x00']. *)
Fixpoint rle_rows (pixels : list Z) (width row count : nat)
  : result (list Z) :=
  match count with
  | O => Ok []
  | S count' =>
      body ← rle_line width (scanline pixels width row) width 0 ;
      rest ← rle_rows pixels width (S row) count' ;
      Ok (body ++ [0x00; 0x00] ++ rest)
  end.

Definition _rle_compress (pixels : list Z) (width height : nat)
  : result (list Z) :=
  rle_rows pixels width 0 height.

(** Modelled from the spec: the repository has no run-length decoder.
    This is the reader of the stream the spec describes, with the bit
    layout of the target bitstream format: a non-zero
    byte is one pixel of that index; a zero byte starts an escape whose
    second byte carries two flag bits (0x40: long run length, 0x80: a
    colour byte follows, else the run is transparent, index 0) over six
    bits of run length, extended by one more byte in the long form; the
    escape [00 00] ends the scanline.  The result is the list of
    scanlines, a scanline being closed only by its end-of-line marker;
    a stream that stops inside an escape, carries a zero-length run or
    ends with an unterminated scanline is rejected. *)
Fixpoint rle_decode_from (bs : list Z) (cur : list Z)
  : option (list (list Z)) :=
  match bs with
  | [] => match cur with [] => Some [] | _ => None end
  | b :: t =>
      if negb (b =? 0) then rle_decode_from t (cur ++ [b])
      else
        match t with
        | [] => None
        | f :: t1 =>
            if f =? 0 then
              rows ← rle_decode_from t1 [] ; Some (cur :: rows)
            else
              let n := Z.land f 0x3F in
              match Z.testbit f 6, Z.testbit f 7 with
              | false, false =>
                  rle_decode_from t1 (cur ++ replicate (Z.to_nat n) 0)
              | true, false =>
                  match t1 with
                  | l :: t2 =>
                      let n' := Z.lor (Z.shiftl n 8) l in
                      if n' =? 0 then None
                      else rle_decode_from t2 (cur ++ replicate (Z.to_nat n') 0)
                  | [] => None
                  end
              | false, true =>
                  match t1 with
                  | c :: t2 =>
                      if n =? 0 then None
                      else rle_decode_from t2 (cur ++ replicate (Z.to_nat n) c)
                  | [] => None
                  end
              | true, true =>
                  match t1 with
                  | l :: c :: t3 =>
                      let n' := Z.lor (Z.shiftl n 8) l in
                      if n' =? 0 then None
                      else rle_decode_from t3 (cur ++ replicate (Z.to_nat n') c)
                  | _ => None
                  end
              end
        end
  end.

Definition rle_decode (bs : list Z) : option (list (list Z)) :=
  rle_decode_from bs [].

(** Bit-field facts about the second byte of an escape, as boolean
    checks that are verified by enumeration over the run lengths. *)
Fixpoint forall_range (P : Z → bool) (lo : Z) (n : nat) : bool :=
  match n with
  | O => true
  | S n' => P lo && forall_range P (lo + 1) n'
  end.

Definition short_transparent_ok (r : Z) : bool :=
  negb (r =? 0) && negb (Z.testbit r 6) && negb (Z.testbit r 7)
  && (Z.land r 0x3F =? r).

Definition long_ok (flag r : Z) : bool :=
  let f := Z.lor flag (Z.shiftr r 8) in
  (0 <=? f) && (f <=? 255) && negb (f =? 0)
  && Bool.eqb (Z.testbit f 6) true
  && Bool.eqb (Z.testbit f 7) (Z.testbit flag 7)
  && (Z.lor (Z.shiftl (Z.land f 0x3F) 8) (Z.land r 0xFF) =? r)
  && (f =? flag + r / 256) && (Z.land r 0xFF =? r mod 256).

Definition short_colour_ok (r : Z) : bool :=
  let f := Z.lor 0x80 r in
  (0 <=? f) && (f <=? 255) && negb (f =? 0)
  && negb (Z.testbit f 6) && Z.testbit f 7 && (Z.land f 0x3F =? r)
  && (f =? 0x80 + r).

(** The layout of one run in the stream, in the words of the format:
    a single pixel of a non-zero index is the index byte itself; every
    other run is an escape that starts with a zero byte, then a byte
    holding the flags (0x80: a colour byte follows, 0x40: long form)
    over the run length (short form, at most 63) or over its high six
    bits (long form, 64 to 16383, low eight bits in the next byte),
    then the colour byte unless the run is transparent. *)
Inductive run_bytes : Z → Z → list Z → Prop :=
| run_literal val :
    val ≠ 0 → run_bytes val 1 [val]
| run_short_transparent run :
    1 ≤ run ≤ 63 → run_bytes 0 run [0; run]
| run_long_transparent run :
    64 ≤ run ≤ 16383 → run_bytes 0 run [0; 0x40 + run / 256; run mod 256]
| run_short_colour val run :
    val ≠ 0 → 2 ≤ run ≤ 63 → run_bytes val run [0; 0x80 + run; val]
| run_long_colour val run :
    val ≠ 0 → 64 ≤ run ≤ 16383 →
    run_bytes val run [0; 0xC0 + run / 256; run mod 256; val].

(** A scanline as a sequence of runs, and the bytes of those runs. *)
Inductive line_bytes : list Z → list Z → Prop :=
| line_done : line_bytes [] []
| line_run val run bytes px rest :
    run_bytes val (Z.of_nat run) bytes →
    line_bytes px rest →
    line_bytes (replicate run val ++ px) (bytes ++ rest).

(** The scanlines of a bitmap, top to bottom. *)
Definition scanlines (pixels : list Z) (width height : nat) : list (list Z) :=
  (fun row => scanline pixels width row) <$> seq 0 height.

End Rle.


(** ** The timeline slicer ([BdnComposer.compose], steps 1 and 2) *)

Module Slicer.
Local Open Scope Qc_scope.

(** One entry of [cues_metadata]: a dict with the keys ['id'],
    ['filename'], ['start_ms'] and ['end_ms']. *)
Record cue : Type := Cue {
  id : Qc;
  filename : string;
  start_ms : Qc;
  end_ms : Qc;
}.

Global Instance cue_eq_dec : EqDecision cue.
Proof. solve_decision. Defined.

(** A time slice: the interval and the cues drawn in it, bottom first. *)
Record TimeSlice : Type := Slice {
  t_start : Qc;
  t_end : Qc;
  active_cues : list cue;
}.

Global Instance TimeSlice_eq_dec : EqDecision TimeSlice.
Proof. solve_decision. Defined.

(** [points = set()], then [points.add(s); points.add(e)] for every cue,
    with the project's timing offset applied. *)
Definition boundary_points (timing_offset_ms : Qc) (cues_metadata : list cue)
  : gset Qc :=
  foldl (λ points c,
           let s := start_ms c + timing_offset_ms in
           let e := end_ms c + timing_offset_ms in
           {[ e ]} ∪ ({[ s ]} ∪ points))
        ∅ cues_metadata.

(** [sorted(list(points))]. *)
Definition sorted_points (timing_offset_ms : Qc) (cues_metadata : list cue)
  : list Qc :=
  merge_sort Qcle (elements (boundary_points timing_offset_ms cues_metadata)).

(** [c_start <= mid_point < c_end] on offset-applied times. *)
Definition is_active (timing_offset_ms mid_point : Qc) (c : cue) : Prop :=
  start_ms c + timing_offset_ms ≤ mid_point
  ∧ mid_point < end_ms c + timing_offset_ms.

Global Instance is_active_dec off m c : Decision (is_active off m c).
Proof. unfold is_active. apply _. Defined.

(** [active_cues.sort(key=lambda x: x['id'])]: a stable sort, ascending. *)
Fixpoint insert_by_id (c : cue) (l : list cue) : list cue :=
  match l with
  | [] => [c]
  | c' :: l' =>
      if decide (id c ≤ id c') then c :: c' :: l' else c' :: insert_by_id c l'
  end.

Definition sort_by_id (l : list cue) : list cue := foldr insert_by_id [] l.

(** The body of [for i in range(len(sorted_points) - 1)] up to the sort
    of the active cues; [None] is a [continue].  Both list accesses are
    in range for the [i] of the loop. *)
Definition slice_at (timing_offset_ms : Qc) (cues_metadata : list cue)
           (sorted_points : list Qc) (i : nat) : option TimeSlice :=
  match sorted_points !! i, sorted_points !! (i + 1)%nat with
  | Some t_start, Some t_end =>
      let duration := t_end - t_start in
      if decide (duration ≤ 0) then None
      else
        let mid_point := (t_start + t_end) / 2 in
        let active_cues :=
          filter (is_active timing_offset_ms mid_point) cues_metadata in
        match active_cues with
        | [] => None
        | _ => Some (Slice t_start t_end (sort_by_id active_cues))
        end
  | _, _ => None
  end.

(** The slices of [compose], in the order they are produced (no cancel
    event; a slice whose composite turns out empty is dropped later, in
    step 3). *)
Definition compose_slices (timing_offset_ms : Qc) (cues_metadata : list cue)
  : list TimeSlice :=
  let pts := sorted_points timing_offset_ms cues_metadata in
  omap (slice_at timing_offset_ms cues_metadata pts)
       (seq 0 (length pts - 1)).

(** The instants of a slice and of a cue (half-open intervals). *)
Definition in_slice (s : TimeSlice) (t : Qc) : Prop :=
  t_start s ≤ t ∧ t < t_end s.

Definition in_cue (timing_offset_ms : Qc) (c : cue) (t : Qc) : Prop :=
  start_ms c + timing_offset_ms ≤ t ∧ t < end_ms c + timing_offset_ms.

Definition mid (s : TimeSlice) : Qc := (t_start s + t_end s) / 2.

(** The cues A = [0, 1000) and B = [500, 1500), with their start times
    as ids. *)
Definition cueA : cue := Cue 0 "A" 0 (Qc_of_Z 1000).
Definition cueB : cue := Cue (Qc_of_Z 500) "B" (Qc_of_Z 500) (Qc_of_Z 1500).

End Slicer.

(** ** Images (the part of PIL the code relies on) *)

Module Img.

(** An RGBA pixel [(r, g, b, a)]. *)
Definition rgba : Type := Z * Z * Z * Z.

Definition alpha (p : rgba) : Z := let '(_, _, _, a) := p in a.

Definition transparent : rgba := (0, 0, 0, 0).

(** An RGBA image: its size and its pixels, row by row. *)
Record image : Type := Image {
  im_width : nat;
  im_height : nat;
  im_data : list rgba;
}.

Definition well_formed (im : image) : Prop :=
  length (im_data im) = (im_width im * im_height im)%nat.

(** Pixel access [pixels[x, y]]: [IndexError] outside the image. *)
Definition get_pixel (im : image) (x y : nat) : result rgba :=
  if (x <? im_width im)%nat && (y <? im_height im)%nat then
    match im_data im !! (y * im_width im + x)%nat with
    | Some p => Ok p
    | None => Raise IndexError
    end
  else Raise IndexError.

(** Pixel assignment [pixels[x, y] = v]. *)
Definition set_pixel (im : image) (x y : nat) (v : rgba) : result image :=
  if (x <? im_width im)%nat && (y <? im_height im)%nat then
    Ok (Image (im_width im) (im_height im)
              (<[(y * im_width im + x)%nat := v]> (im_data im)))
  else Raise IndexError.

(** The pixel at position [k] of the pixel list has non-zero alpha. *)
Definition visible (im : image) (k : nat) : Prop :=
  match im_data im !! k with
  | Some p => alpha p ≠ 0
  | None => False
  end.

Global Instance visible_dec im k : Decision (visible im k).
Proof. unfold visible. destruct (im_data im !! k); apply _. Defined.

(** The positions, in the pixel list, of the pixels with non-zero alpha. *)
Definition visible_positions (im : image) : list nat :=
  filter (visible im) (seq 0 (length (im_data im))).

(** [Image.getbbox()] of an RGBA image: the box
    [(left, upper, right, lower)] around the pixels whose alpha is not
    zero, [right] and [lower] exclusive; [None] when there is none. *)
Definition getbbox (im : image) : option (Z * Z * Z * Z) :=
  match visible_positions im with
  | [] => None
  | k :: ks =>
      let xs := (λ k, k mod im_width im)%nat <$> (k :: ks) in
      let ys := (λ k, k / im_width im)%nat <$> (k :: ks) in
      Some (Z.of_nat (foldr Nat.min (k mod im_width im)%nat xs),
            Z.of_nat (foldr Nat.min (k / im_width im)%nat ys),
            Z.of_nat (max_list xs) + 1,
            Z.of_nat (max_list ys) + 1)
  end.

(** [Image.crop((left, upper, right, lower))]: the pixels of the box,
    transparent where the box leaves the image. *)
Definition crop (im : image) (box : Z * Z * Z * Z) : image :=
  let '(lft, upper, rgt, lower) := box in
  let w := Z.to_nat (rgt - lft) in
  let h := Z.to_nat (lower - upper) in
  Image w h
    (y ← seq 0 h;
     x ← seq 0 w;
     let cx := lft + Z.of_nat x in
     let cy := upper + Z.of_nat y in
     if (0 <=? cx) && (cx <? Z.of_nat (im_width im))
        && (0 <=? cy) && (cy <? Z.of_nat (im_height im))
     then [default transparent
             (im_data im !! (Z.to_nat cy * im_width im + Z.to_nat cx)%nat)]
     else [transparent]).

End Img.

(** ** The compositor's crop ([BdnComposer._create_composite_image]) *)

Module Compositor.
Import Img.

(** [if pixels[x, y][3] == 0: pixels[x, y] = guard]. *)
Definition guard_corner (guard : rgba) (x y : nat) (im : image)
  : result image :=
  p ← get_pixel im x y;
  if alpha p =? 0 then set_pixel im x y guard else Ok im.

(** The anti-crop guard on the four corners of the cropped image, with
    the guard value of the code. *)
Definition guard_corners (cropped : image) : result image :=
  let w_c := im_width cropped in
  let h_c := im_height cropped in
  let guard : rgba := (0, 0, 0, 0) in
  im1 ← guard_corner guard 0 0 cropped;
  im2 ← guard_corner guard (w_c - 1) 0 im1;
  im3 ← guard_corner guard 0 (h_c - 1) im2;
  guard_corner guard (w_c - 1) (h_c - 1) im3.

(** The box alignment of [_create_composite_image]: left and upper down
    to even, right and lower up to even, then the clamp into the
    canvas.  The result is [(left, upper, right, lower)]. *)
Definition align_box (canvas_w canvas_h : Z) (bbox : Z * Z * Z * Z)
  : Z * Z * Z * Z :=
  let '(lft, upper, rgt, lower) := bbox in
  let lft := if negb (lft mod 2 =? 0) then lft - 1 else lft in
  let upper := if negb (upper mod 2 =? 0) then upper - 1 else upper in
  let rgt := if negb (rgt mod 2 =? 0) then rgt + 1 else rgt in
  let lower := if negb (lower mod 2 =? 0) then lower + 1 else lower in
  let lft := Z.max 0 lft in
  let upper := Z.max 0 upper in
  let rgt := Z.min canvas_w rgt in
  let lower := Z.min canvas_h lower in
  (lft, upper, rgt, lower).

(** [_create_composite_image], from the canvas on which the layers have
    been composited: the returned [(x, y, w, h)] and the image that is
    saved, or [(0, 0, 0, 0)] and no image for an empty canvas. *)
Definition _create_composite_image (canvas : image)
  : result ((Z * Z * Z * Z) * option image) :=
  let canvas_w := Z.of_nat (im_width canvas) in
  let canvas_h := Z.of_nat (im_height canvas) in
  match getbbox canvas with
  | Some bbox =>
      let '(lft, upper, rgt, lower) := align_box canvas_w canvas_h bbox in
      let w := rgt - lft in
      let h := lower - upper in
      let cropped := crop canvas (lft, upper, rgt, lower) in
      saved ← guard_corners cropped;
      Ok ((lft, upper, w, h), Some saved)
  | None => Ok ((0, 0, 0, 0), None)
  end.

(** Even width and height, and a box inside the canvas, for the
    composite of a canvas. *)
Definition box_even_within_canvas (canvas : image) : Prop :=
  ∃ x y w h saved,
    _create_composite_image canvas = Ok ((x, y, w, h), Some saved)
    ∧ Z.even w = true ∧ Z.even h = true
    ∧ 0 ≤ x ∧ 0 ≤ y
    ∧ x + w ≤ Z.of_nat (im_width canvas)
    ∧ y + h ≤ Z.of_nat (im_height canvas).

Definition opaque_black : rgba := (0, 0, 0, 255).

(** A 3x2 canvas with one opaque pixel in its last column. *)
Definition odd_canvas : image :=
  Image 3 2 [transparent; transparent; opaque_black;
             transparent; transparent; transparent].

(** A 4x2 canvas with one opaque pixel at (1, 0). *)
Definition one_pixel_canvas : image :=
  Image 4 2 [transparent; opaque_black; transparent; transparent;
             transparent; transparent; transparent; transparent].

End Compositor.

(** ** Python numbers and strings used by the timecode functions *)

Module PyNum.
Local Open Scope Qc_scope.

(** [round(x)] of a float: to the nearest integer, ties to the even one. *)
Definition py_round (x : Qc) : Z :=
  let f := Qfloor x in
  match Qccompare (2 * (x - Qc_of_Z f)) 1 with
  | Lt => f
  | Gt => (f + 1)%Z
  | Eq => if Z.even f then f else (f + 1)%Z
  end.

(** [a / b] on two [int]s: true division, [ZeroDivisionError] for [b = 0]. *)
Definition true_div (a b : Z) : result Qc :=
  if (b =? 0)%Z then Raise ZeroDivisionError
  else Ok (Qc_of_Z a / Qc_of_Z b).

(** [a // b] and [a % b] on [int]s: floor division, the remainder has the
    sign of the divisor; [ZeroDivisionError] for [b = 0]. *)
Definition floor_div (a b : Z) : result Z :=
  if (b =? 0)%Z then Raise ZeroDivisionError else Ok (a / b)%Z.

Definition py_mod (a b : Z) : result Z :=
  if (b =? 0)%Z then Raise ZeroDivisionError else Ok (a mod b)%Z.

End PyNum.

Module PyStr.
Local Open Scope Z_scope.

Definition code (c : ascii) : Z := Z.of_nat (nat_of_ascii c).

Definition digit_char (d : Z) : ascii := ascii_of_nat (Z.to_nat (48 + d)).

Definition is_digit (d : Z) : Prop := 0 ≤ d ≤ 9.

(** The decimal digits of a non-negative integer, most significant
    first; [fuel] bounds the number of digits. *)
Fixpoint dec_digit_vals (fuel : nat) (n : Z) : list Z :=
  match fuel with
  | O => []
  | S fuel' =>
      if n <? 10 then [n]
      else dec_digit_vals fuel' (n / 10) ++ [n mod 10]
  end.

Definition dec_digits (n : Z) : list ascii :=
  digit_char <$> dec_digit_vals (S (Z.to_nat (Z.log2 n))) n.

(** The format specification [02d]: the decimal digits, zero-padded to
    width 2; a negative number is a minus sign and its digits (which is
    already 2 wide). *)
Definition fmt_02d (n : Z) : list ascii :=
  if n <? 0 then "-"%char :: dec_digits (- n)
  else if n <? 10 then "0"%char :: dec_digits n
  else dec_digits n.

(** The characters [02d] can print: a minus sign or a digit. *)
Definition is_tc_char (c : ascii) : Prop :=
  c = "-"%char ∨ ∃ d, is_digit d ∧ c = digit_char d.

(** The white space [int()] skips around a literal, within ASCII: tab,
    line feed, vertical tab, form feed, carriage return and space. *)
Definition is_space (c : ascii) : bool :=
  let n := code c in
  ((9 <=? n) && (n <=? 13)) || (n =? 32).

Fixpoint lstrip (l : list ascii) : list ascii :=
  match l with
  | c :: l' => if is_space c then lstrip l' else l
  | [] => []
  end.

Definition strip (l : list ascii) : list ascii :=
  reverse (lstrip (reverse (lstrip l))).

Definition digit_val (c : ascii) : option Z :=
  let n := code c in
  if (48 <=? n) && (n <=? 57) then Some (n - 48) else None.

(** The digits of an [int()] literal in base 10: at least one digit,
    single underscores allowed between digits only. *)
Fixpoint digits_value (acc : Z) (after_digit : bool) (l : list ascii)
  : option Z :=
  match l with
  | [] => if after_digit then Some acc else None
  | c :: l' =>
      match digit_val c with
      | Some d => digits_value (acc * 10 + d) true l'
      | None =>
          if Ascii.eqb c "_" && after_digit then digits_value acc false l'
          else None
      end
  end.

(** [int(s)] on a string: surrounding white space is dropped, then an
    optional sign, then the digits; [ValueError] otherwise.  Only ASCII
    is modelled (Python also accepts other Unicode digits and spaces);
    the limit on the number of digits (4300 by default) is not
    modelled. *)
Definition py_int (s : list ascii) : result Z :=
  let body := strip s in
  let parsed :=
    match body with
    | c :: r =>
        if Ascii.eqb c "+" then digits_value 0 false r
        else if Ascii.eqb c "-" then Z.opp <$> digits_value 0 false r
        else digits_value 0 false body
    | [] => None
    end in
  match parsed with
  | Some v => Ok v
  | None => Raise ValueError
  end.

(** [s.split(sep)] for a one-character separator. *)
Fixpoint split_on (sep : ascii) (l : list ascii) : list (list ascii) :=
  match l with
  | [] => [[]]
  | c :: l' =>
      if Ascii.eqb c sep then [] :: split_on sep l'
      else match split_on sep l' with
           | h :: t => (c :: h) :: t
           | [] => [[c]]
           end
  end.

End PyStr.

(** ** Timecodes ([BdnComposer._ms_to_tc], [PgsEncoder._tc_to_pts]) *)

Module Timecode.
Import PyNum PyStr.
Local Open Scope Z_scope.

(** [int(round(total_seconds * (fps_num / fps_den)))] with
    [total_seconds = ms / 1000.0]. *)
Definition total_frames (ms : Qc) (fps_num fps_den : Z) : result Z :=
  let total_seconds := (ms / Qc_of_Z 1000)%Qc in
  rate ← true_div fps_num fps_den;
  Ok (py_round (total_seconds * rate)%Qc).

(** [int(round(fps_num / fps_den))]: the nominal timecode base. *)
Definition fps_base (fps_num fps_den : Z) : result Z :=
  rate ← true_div fps_num fps_den;
  Ok (py_round rate).

(** The f-string [{h:02d}:{m:02d}:{s:02d}:{f:02d}]. *)
Definition tc_string (h m s f : Z) : string :=
  string_of_list_ascii
    (fmt_02d h ++ ":"%char :: fmt_02d m ++ ":"%char :: fmt_02d s
       ++ ":"%char :: fmt_02d f).

Definition _ms_to_tc (ms : Qc) (fps_num fps_den : Z) : result string :=
  total_frames ← total_frames ms fps_num fps_den;
  fps_base ← fps_base fps_num fps_den;
  let frames_per_sec := fps_base in
  let frames_per_min := fps_base * 60 in
  let frames_per_hr := fps_base * 3600 in
  h ← floor_div total_frames frames_per_hr;
  rem ← py_mod total_frames frames_per_hr;
  m ← floor_div rem frames_per_min;
  rem ← py_mod rem frames_per_min;
  s ← floor_div rem frames_per_sec;
  f ← py_mod rem frames_per_sec;
  Ok (tc_string h m s f).

(** The [try] block of [_tc_to_pts]: [hh, mm, ss, ff = map(int,
    tc.split(':'))]; [None] when it raises [ValueError] (a part that is
    not an integer, or not exactly four parts). *)
Definition parse_tc (tc : string) : option (Z * Z * Z * Z) :=
  match py_int <$> split_on ":" (list_ascii_of_string tc) with
  | [Ok hh; Ok mm; Ok ss; Ok ff] => Some (hh, mm, ss, ff)
  | _ => None
  end.

Definition _tc_to_pts (tc : string) (fps_num fps_den : Z) : result Z :=
  match parse_tc tc with
  | None => Ok 0
  | Some (hh, mm, ss, ff) =>
      base_fps ← fps_base fps_num fps_den;
      let total_frames :=
        (hh * 3600 * base_fps) + (mm * 60 * base_fps) + (ss * base_fps) + ff in
      floor_div (total_frames * 90000 * fps_den) fps_num
  end.

(** The frame rates of the encoder's table, as [(fps_num, fps_den)]:
    23.976, 24, 25, 29.97, 30, 50, 59.94 and 60. *)
Definition fps_table : list (Z * Z) :=
  [(24000, 1001); (24, 1); (25, 1); (30000, 1001); (30, 1); (50, 1);
   (60000, 1001); (60, 1)].

(** One frame in milliseconds, and a 90 kHz time stamp in milliseconds. *)
Definition frame_ms (fps_num fps_den : Z) : Qc :=
  (Qc_of_Z 1000 * Qc_of_Z fps_den / Qc_of_Z fps_num)%Qc.

Definition pts_ms (pts : Z) : Qc := (Qc_of_Z pts / Qc_of_Z 90)%Qc.

End Timecode.

(** ** Quantization ([PgsEncoder._quantize_image]) *)

Module Quantize.
Import Img PyNum.
Local Open Scope Z_scope.

(** [int(x)] of a float: truncation towards zero. *)
Definition py_trunc (x : Qc) : Z :=
  if decide (0 ≤ x)%Qc then Qfloor x else Qceiling x.

(** Counting the colours of an image in the order of their first
    occurrence. *)
Fixpoint add_color (c : rgba) (l : list (nat * rgba)) : list (nat * rgba) :=
  match l with
  | [] => [(1%nat, c)]
  | (n, c') :: l' =>
      if decide (c = c') then (S n, c') :: l' else (n, c') :: add_color c l'
  end.

Definition count_colors (pixels : list rgba) : list (nat * rgba) :=
  foldl (λ acc c, add_color c acc) [] pixels.

(** [lambda p: p & 0xF0] on every band. *)
Definition posterize (p : rgba) : rgba :=
  let '(r, g, b, a) := p in
  (Z.land r 0xF0, Z.land g 0xF0, Z.land b 0xF0, Z.land a 0xF0).

(** [colors.sort(key=lambda x: x[0], reverse=True)]: stable, by
    descending count. *)
Fixpoint insert_by_count (x : nat * rgba) (l : list (nat * rgba))
  : list (nat * rgba) :=
  match l with
  | [] => [x]
  | y :: l' =>
      if decide (y.1 ≤ x.1)%nat then x :: y :: l' else y :: insert_by_count x l'
  end.

Definition sort_by_count (l : list (nat * rgba)) : list (nat * rgba) :=
  foldr insert_by_count [] l.

(** Python truth of the result of [getcolors]: [None] and the empty
    list are false. *)
Definition truthy {A} (colors : option (list A)) : bool :=
  match colors with
  | Some (_ :: _) => true
  | _ => false
  end.

(** [list.remove(x)]: the list without the first occurrence of [x]. *)
Fixpoint remove_first (x : rgba) (l : list rgba) : list rgba :=
  match l with
  | [] => []
  | y :: l' => if decide (x = y) then l' else y :: remove_first x l'
  end.

(** [{c: i for i, c in enumerate(palette_rgba)}]: a later entry of the
    same colour replaces an earlier one. *)
Definition color_map (palette_rgba : list rgba) : gmap rgba nat :=
  foldl (λ m ic, <[ic.2 := ic.1]> m) ∅ (imap (λ i c, (i, c)) palette_rgba).

(** The BT.601 conversion of one palette entry, to [(y, cr, cb, a)]. *)
Definition rgba_to_yuv (p : rgba) : Z * Z * Z * Z :=
  let '(r, g, b, a) := p in
  let q (n : Z) : Qc := Q2Qc (n # 1000) in
  let y := (Qc_of_Z 16 + q 257 * Qc_of_Z r + q 504 * Qc_of_Z g
            + q 98 * Qc_of_Z b)%Qc in
  let cb := (Qc_of_Z 128 - q 148 * Qc_of_Z r - q 291 * Qc_of_Z g
             + q 439 * Qc_of_Z b)%Qc in
  let cr := (Qc_of_Z 128 + q 439 * Qc_of_Z r - q 368 * Qc_of_Z g
             - q 71 * Qc_of_Z b)%Qc in
  let y := Z.max 16 (Z.min 235 (py_trunc y)) in
  let cb := Z.max 16 (Z.min 240 (py_trunc cb)) in
  let cr := Z.max 16 (Z.min 240 (py_trunc cr)) in
  (y, cr, cb, a).

Section WithColorOrder.

(** [Image.getcolors] lists the colours of an image in an order that
    PIL does not specify: the order is a parameter, applied to the
    colours in order of first occurrence. *)
Variable color_order : list (nat * rgba) → list (nat * rgba).

(** [img.getcolors(maxcolors)]: the [(count, colour)] pairs of the image,
    or [None] when there are more than [maxcolors] colours. *)
Definition getcolors (maxcolors : Z) (pixels : list rgba)
  : option (list (nat * rgba)) :=
  let colors := color_order (count_colors pixels) in
  if Z.of_nat (length colors) <=? maxcolors then Some colors else None.

(** The three strategies: the image that is indexed (posterized once
    strategy 2 is entered) and the colours that are kept. *)
Definition select_colors (pixels : list rgba)
  : list rgba * list (nat * rgba) :=
  let colors := getcolors 256 pixels in
  let '(img, colors) :=
    if negb (truthy colors) then
      let img := posterize <$> pixels in (img, getcolors 256 img)
    else (pixels, colors) in
  let colors :=
    if negb (truthy colors) then
      let colors := getcolors 16777216 img in
      if truthy colors then take 255 (sort_by_count (default [] colors))
      else []
    else default [] colors in
  (img, colors).

(** [palette_rgba]: transparent first, then the kept colours without
    transparent, at most 256 entries. *)
Definition palette_of (colors : list (nat * rgba)) : list rgba :=
  let raw_colors := snd <$> colors in
  let raw_colors :=
    if decide (transparent ∈ raw_colors) then remove_first transparent raw_colors
    else raw_colors in
  take 256 (transparent :: raw_colors).

Definition palette_rgba (pixels : list rgba) : list rgba :=
  palette_of (select_colors pixels).2.

(** [indexed_pixels = [color_map.get(p, 0) for p in pixels]]. *)
Definition indexed_pixels (pixels : list rgba) : list nat :=
  let '(img, colors) := select_colors pixels in
  let color_map := color_map (palette_of colors) in
  (λ p, default 0%nat (color_map !! p)) <$> img.

(** [_quantize_image] on the pixels of the image: [(palette_yuv,
    indexed_pixels)]. *)
Definition _quantize_image (pixels : list rgba)
  : list (Z * Z * Z * Z) * list nat :=
  (rgba_to_yuv <$> palette_rgba pixels, indexed_pixels pixels).

End WithColorOrder.

(** The colours in order of first occurrence, as one possible order. *)
Definition first_occurrence_order (l : list (nat * rgba)) : list (nat * rgba) := l.

(** Four pixels of three colours. *)
Definition four_pixels : list rgba :=
  [transparent; (255, 255, 255, 255); (255, 0, 0, 128); transparent].

(** 256 opaque pixels of 256 different colours. *)
Definition ramp_256 : list rgba := (λ i, (Z.of_nat i, 0, 0, 255)) <$> seq 0 256.

(** The distinct colours of an image other than the transparent one. *)
Definition visible_colors (pixels : list rgba) : gset rgba :=
  list_to_set pixels ∖ {[ transparent ]}.

End Quantize.

(** ** [struct.pack] with big-endian formats *)

Module Struct.
Local Open Scope Z_scope.

(** The format characters the encoder uses: [B] (one byte), [H] (two
    bytes) and [I] (four bytes), all unsigned. *)
Inductive field : Set := B | H | I.

(** The bytes of a two-byte and of a four-byte number, most significant
    first. *)
Definition be16 (v : Z) : list Z := [v / 256; v mod 256].

Definition be32 (v : Z) : list Z :=
  [v / 16777216; (v / 65536) mod 256; (v / 256) mod 256; v mod 256].

(** One field of a [>] (big-endian, unaligned) format: the bytes of the
    value, or [struct.error] when the value does not fit. *)
Definition pack_field (f : field) (v : Z) : result (list Z) :=
  match f with
  | B => b ← pack_B v; Ok [b]
  | H => if (0 <=? v) && (v <=? 0xFFFF) then Ok (be16 v) else Raise StructError
  | I =>
      if (0 <=? v) && (v <=? 0xFFFFFFFF) then Ok (be32 v)
      else Raise StructError
  end.

(** [struct.pack('>...', v1, v2, ...)]: the fields one after the other;
    [struct.error] also when the number of values is not the number of
    format characters. *)
Fixpoint pack (fmt : list field) (vs : list Z) : result (list Z) :=
  match fmt, vs with
  | [], [] => Ok []
  | f :: fmt', v :: vs' =>
      b ← pack_field f v; r ← pack fmt' vs'; Ok (b ++ r)
  | _, _ => Raise StructError
  end.

(** The number a player reads from a big-endian field. *)
Definition from_bytes_big (bs : list Z) : Z :=
  foldl (λ acc b, acc * 256 + b) 0 bs.

(** A byte string holds bytes. *)
Definition is_bytes (bs : list Z) : Prop := Forall (λ b, 0 ≤ b ≤ 255) bs.

(** Four bytes: an 8-bit RGBA pixel, or the [(y, cr, cb, a)] of a
    palette entry. *)
Definition four_bytes (p : Z * Z * Z * Z) : Prop :=
  let '(a, b, c, d) := p in
  0 ≤ a ≤ 255 ∧ 0 ≤ b ≤ 255 ∧ 0 ≤ c ≤ 255 ∧ 0 ≤ d ≤ 255.

End Struct.

(** ** The segments of the stream ([PgsEncoder._create_*]) *)

Module Segments.
Import Struct.
Local Open Scope Z_scope.

(** [_create_packet]: the 13-byte header [b'PG'], PTS, DTS, segment type
    and payload length, then the payload.  [pts] and [dts] are [int]s at
    every call, so [int(pts)] is [pts]. *)
Definition _create_packet (pts dts segment_type : Z) (payload : list Z)
  : result (list Z) :=
  let header := [80; 71] in
  p ← pack [I] [pts];
  let header := header ++ p in
  d ← pack [I] [dts];
  let header := header ++ d in
  t ← pack [B] [segment_type];
  let header := header ++ t in
  l ← pack [H] [Z.of_nat (length payload)];
  let header := header ++ l in
  Ok (header ++ payload).

(** The frame rate code of [_create_pcs]. *)
Definition frame_rate_code (fps : Qc) : Z :=
  if decide (Qc_of_Z 23 < fps ∧ fps < Qc_of_Z 24)%Qc then 0x01
  else if decide (fps = Qc_of_Z 24) then 0x02
  else if decide (fps = Qc_of_Z 25) then 0x03
  else if decide (Qc_of_Z 29 < fps ∧ fps < Qc_of_Z 30)%Qc then 0x04
  else if decide (fps = Qc_of_Z 30) then 0x05
  else if decide (fps = Qc_of_Z 50) then 0x06
  else if decide (Qc_of_Z 59 < fps ∧ fps < Qc_of_Z 60)%Qc then 0x07
  else 0x00.

Definition _create_pcs (w h : Z) (fps : Qc)
           (pts state comp_num pal_id obj_id win_id img_x img_y img_w img_h : Z)
           (palette_update : bool) : result (list Z) :=
  let code := frame_rate_code fps in
  d1 ← pack [H; H; B] [w; h; code];
  d2 ← pack [H; B] [comp_num; state];
  d3 ← pack [B; B; B] [if palette_update then 0x80 else 0x00; pal_id; 1];
  d4 ← pack [H; B; B] [obj_id; win_id; 0];
  d5 ← pack [H; H] [img_x; img_y];
  _create_packet pts pts 0x16 (d1 ++ d2 ++ d3 ++ d4 ++ d5).

Definition _create_pcs_clear (w h : Z) (fps : Qc) (pts comp_num state : Z)
  : result (list Z) :=
  let code := 0x01 in
  d1 ← pack [H; H; B] [w; h; code];
  d2 ← pack [H; B] [comp_num; state];
  d3 ← pack [B; B; B] [0x00; 0; 0];
  _create_packet pts pts 0x16 (d1 ++ d2 ++ d3).

Definition _create_wds (pts win_id x y w h : Z) : result (list Z) :=
  d1 ← pack [B] [1];
  d2 ← pack [B; H; H; H; H] [win_id; x; y; w; h];
  _create_packet pts pts 0x17 (d1 ++ d2).

(** [for i, (y, cr, cb, a) in enumerate(palette)], from index [i] on. *)
Fixpoint pds_entries (i : Z) (palette : list (Z * Z * Z * Z))
  : result (list Z) :=
  match palette with
  | [] => Ok []
  | (y, cr, cb, a) :: rest =>
      e ← pack [B; B; B; B; B] [i; y; cr; cb; a];
      r ← pds_entries (i + 1) rest;
      Ok (e ++ r)
  end.

Definition _create_pds (pts pal_id : Z) (palette : list (Z * Z * Z * Z))
  : result (list Z) :=
  d ← pack [B; B] [pal_id; 0];
  es ← pds_entries 0 palette;
  _create_packet pts pts 0x14 (d ++ es).

(** The single-segment object definition (no caller in the encoder). *)
Definition _create_ods (pts obj_id w h : Z) (rle_data : list Z)
  : result (list Z) :=
  let full_len := Z.of_nat (length rle_data) + 4 in
  d1 ← pack [H; B; B] [obj_id; 0; 0xC0];
  d2 ← pack [B] [Z.land (Z.shiftr full_len 16) 0xFF];
  d3 ← pack [H] [Z.land full_len 0xFFFF];
  d4 ← pack [H; H] [w; h];
  _create_packet pts pts 0x15 (d1 ++ d2 ++ d3 ++ d4 ++ rle_data).

(** [max_chunk = 60000], and [chunk_len = min(max_chunk, total_size -
    offset)]. *)
Definition max_chunk : nat := Z.to_nat 60000.

Definition chunk_len (total_size offset : nat) : nat :=
  Nat.min max_chunk (total_size - offset).

(** The body of the [while offset < total_size] loop of
    [_create_ods_packets]: the packet appended for the fragment that
    starts at [offset]. *)
Definition ods_fragment (pts obj_id w h : Z) (rle_data : list Z)
           (offset : nat) : result (list Z) :=
  let total_size := length rle_data in
  let chunk_len := chunk_len total_size offset in
  let chunk := take chunk_len (drop offset rle_data) in
  let seq_flag := 0x00 in
  let is_first := (offset =? 0)%nat in
  let seq_flag := if is_first then Z.lor seq_flag 0x80 else seq_flag in
  let seq_flag :=
    if (total_size <=? offset + chunk_len)%nat then Z.lor seq_flag 0x40
    else seq_flag in
  data ← pack [H; B; B] [obj_id; 0; seq_flag];
  data ←
    (if is_first then
       let full_obj_len := Z.of_nat total_size + 4 in
       d1 ← pack [B] [Z.land (Z.shiftr full_obj_len 16) 0xFF];
       d2 ← pack [H] [Z.land full_obj_len 0xFFFF];
       d3 ← pack [H; H] [w; h];
       Ok (data ++ d1 ++ d2 ++ d3)
     else Ok data);
  let data := data ++ chunk in
  _create_packet pts pts 0x15 data.

(** The loop itself: the packets from [offset] on.  Every iteration
    advances [offset] by at least one byte, so [total_size] units of
    fuel are enough. *)
Fixpoint ods_loop (fuel : nat) (pts obj_id w h : Z) (rle_data : list Z)
         (offset : nat) : result (list (list Z)) :=
  let total_size := length rle_data in
  if (offset <? total_size)%nat then
    match fuel with
    | O => Raise FuelExhausted
    | S fuel' =>
        pkt ← ods_fragment pts obj_id w h rle_data offset;
        rest ← ods_loop fuel' pts obj_id w h rle_data
                        (offset + chunk_len total_size offset);
        Ok (pkt :: rest)
    end
  else Ok [].

Definition _create_ods_packets (pts obj_id w h : Z) (rle_data : list Z)
  : result (list (list Z)) :=
  ods_loop (length rle_data) pts obj_id w h rle_data 0.

Definition _create_end (pts : Z) : result (list Z) :=
  _create_packet pts pts 0x80 [].

(** A field of a segment: [n] bytes from position [pos], as a number. *)
Definition field_at (pos n : nat) (pkt : list Z) : Z :=
  from_bytes_big (take n (drop pos pkt)).

End Segments.

(** ** The export loop ([PgsEncoder.export]) *)

Module Encoder.
Import Img PyNum Timecode Quantize Rle Struct Segments.
Local Open Scope Z_scope.

(** [abs(x)] of a float. *)
Definition py_abs (x : Qc) : Qc := if decide (0 ≤ x)%Qc then x else (- x)%Qc.

(** The decimal literal [n / 1000]. *)
Definition milli (n : Z) : Qc := Q2Qc (n # 1000).

(** The frame rate of [export]: [(fps_num, fps_den)] for the [fps] of
    the BDN file. *)
Definition select_rate (fps : Qc) : Z * Z :=
  if bool_decide (fps = 0%Qc) || bool_decide (fps ≤ 0)%Qc then (24000, 1001)
  else if decide (py_abs (fps - milli 23976) < milli 10)%Qc then (24000, 1001)
  else if decide (py_abs (fps - milli 29970) < milli 10)%Qc then (30000, 1001)
  else if decide (py_abs (fps - milli 59940) < milli 10)%Qc then (60000, 1001)
  else if decide (py_abs (fps - milli 24000) < milli 1)%Qc then (24, 1)
  else if decide (py_abs (fps - milli 25000) < milli 1)%Qc then (25, 1)
  else if decide (py_abs (fps - milli 30000) < milli 1)%Qc then (30, 1)
  else if decide (py_abs (fps - milli 50000) < milli 1)%Qc then (50, 1)
  else if decide (py_abs (fps - milli 60000) < milli 1)%Qc then (60, 1)
  else (py_trunc (fps * Qc_of_Z 1000), 1000).

(** [Image.new("RGBA", (w, h), color)]. *)
Definition new_image (w h : nat) (color : rgba) : image :=
  Image w h (replicate (w * h) color).

(** [dst.paste(src, (0, 0))]: without a mask, the pixels of [src]
    replace those of [dst] where the two images overlap. *)
Definition paste (dst src : image) : image :=
  Image (im_width dst) (im_height dst)
    (imap (λ k p,
             let x := (k mod im_width dst)%nat in
             let y := (k / im_width dst)%nat in
             if (x <? im_width src)%nat && (y <? im_height src)%nat
             then default p (im_data src !! (y * im_width src + x)%nat)
             else p)
          (im_data dst)).

(** The padding of [export] to even dimensions. *)
Definition pad_even (img : image) : image :=
  if negb (im_width img mod 2 =? 0)%nat || negb (im_height img mod 2 =? 0)%nat
  then
    let new_w := (im_width img + im_width img mod 2)%nat in
    let new_h := (im_height img + im_height img mod 2)%nat in
    let new_img := new_image new_w new_h transparent in
    paste new_img img
  else img.

(** An event of the BDN file, as [_parse_bdn] returns it, and the video
    format. *)
Record event : Type := Event {
  ev_in_tc : string;
  ev_out_tc : string;
  ev_x : Z;
  ev_y : Z;
  ev_filename : string;
}.

Record video_format : Type := VideoFormat {
  vf_fps : Qc;
  vf_w : Z;
  vf_h : Z;
}.

Section WithColorOrder.

Variable color_order : list (nat * rgba) → list (nat * rgba).

(** The files next to the BDN file: [images] maps the name of every
    file that exists to its picture, converted to RGBA. *)
Variable images : gmap string image.

Variable video_format : video_format.

(** The body of [for idx, ev in enumerate(events)]: the bytes written
    for the event and the new [self.sequence_index].  An event whose
    image is missing writes nothing ([continue]). *)
Definition export_event (fps_num fps_den : Z) (sequence_index : Z)
           (ev : event) : result (list Z * Z) :=
  let fps := vf_fps video_format in
  start_pts ← _tc_to_pts (ev_in_tc ev) fps_num fps_den;
  end_pts ← _tc_to_pts (ev_out_tc ev) fps_num fps_den;
  match images !! ev_filename ev with
  | None => Ok ([], sequence_index)
  | Some img =>
      let img := pad_even img in
      let width := Z.of_nat (im_width img) in
      let height := Z.of_nat (im_height img) in
      let obj_id := 0 in
      let win_id := 0 in
      let pal_id := 0 in
      let '(palette_yuv, indexed_bitmap) :=
        _quantize_image color_order (im_data img) in
      rle_data ← _rle_compress (Z.of_nat <$> indexed_bitmap)
                               (im_width img) (im_height img);
      let sequence_index := sequence_index + 1 in
      pcs ← _create_pcs (vf_w video_format) (vf_h video_format) fps start_pts
                        0x80 sequence_index pal_id obj_id win_id
                        (ev_x ev) (ev_y ev) width height false;
      wds ← _create_wds start_pts win_id (ev_x ev) (ev_y ev) width height;
      pds ← _create_pds start_pts pal_id palette_yuv;
      ods_packets ← _create_ods_packets start_pts obj_id width height rle_data;
      end_show ← _create_end start_pts;
      let sequence_index := sequence_index + 1 in
      pcs_clear ← _create_pcs_clear (vf_w video_format) (vf_h video_format)
                                    fps end_pts sequence_index 0x80;
      wds_clear ← _create_wds end_pts win_id (ev_x ev) (ev_y ev) width height;
      end_clear ← _create_end end_pts;
      Ok (pcs ++ wds ++ pds ++ concat ods_packets ++ end_show
            ++ pcs_clear ++ wds_clear ++ end_clear,
          sequence_index)
  end.

(** The loop over the events, from a value of [self.sequence_index]. *)
Fixpoint export_events (fps_num fps_den : Z) (sequence_index : Z)
         (events : list event) : result (list Z * Z) :=
  match events with
  | [] => Ok ([], sequence_index)
  | ev :: events' =>
      '(bytes, sequence_index) ←
        export_event fps_num fps_den sequence_index ev;
      '(bytes', sequence_index) ←
        export_events fps_num fps_den sequence_index events';
      Ok (bytes ++ bytes', sequence_index)
  end.

(** [export], from the events and the video format of [_parse_bdn]: the
    bytes of the [.sup] file and the final [self.sequence_index]. *)
Definition export (events : list event) : result (list Z * Z) :=
  let '(fps_num, fps_den) := select_rate (vf_fps video_format) in
  export_events fps_num fps_den 0 events.

(** The events whose image file exists. *)
Definition shown (events : list event) : list event :=
  filter (λ ev, is_Some (images !! ev_filename ev)) events.

(** An event that can be written: its timecodes convert to time stamps
    of 32 bits, its position fits 16 bits, and its image, when the file
    exists, is a well-formed 8-bit RGBA image of at most 65534 pixels
    in either direction. *)
Definition writable (fps_num fps_den : Z) (ev : event) : Prop :=
  (∃ start_pts end_pts,
     _tc_to_pts (ev_in_tc ev) fps_num fps_den = Ok start_pts
     ∧ _tc_to_pts (ev_out_tc ev) fps_num fps_den = Ok end_pts
     ∧ 0 ≤ start_pts < 2 ^ 32 ∧ 0 ≤ end_pts < 2 ^ 32)
  ∧ 0 ≤ ev_x ev ≤ 65535 ∧ 0 ≤ ev_y ev ≤ 65535
  ∧ ∀ img, images !! ev_filename ev = Some img →
      well_formed img ∧ Forall four_bytes (im_data img)
      ∧ Z.of_nat (im_width img) ≤ 65534
      ∧ Z.of_nat (im_height img) ≤ 65534.

End WithColorOrder.

(** A directory with one 2x2 picture, and a BDN file of two events at
    23.976 frames per second: one for that picture and one whose file
    is missing. *)
Definition sample_images : gmap string image :=
  {[ "slice_00001.png"%string :=
       Image 2 2 [(255, 255, 255, 255); (255, 255, 255, 255);
                  transparent; (0, 0, 0, 128)] ]}.

Definition sample_format : video_format := VideoFormat (milli 23976) 1920 1080.

Definition sample_events : list event :=
  [ Event "00:00:01:00" "00:00:02:12" 100 900 "slice_00001.png";
    Event "00:00:03:00" "00:00:04:00" 100 900 "slice_00002.png" ].

End Encoder.

(** ** Frame rate conforming and the events of the BDN file
       ([BdnComposer.__init__], steps 3 to 5 of [BdnComposer.compose]) *)

Module Composer.
Import Img Compositor PyNum PyStr Timecode Slicer.
Local Open Scope Z_scope.

(** Python truth of an optional [int] argument: [None] and [0] are
    false. *)
Definition truthy_int (n : option Z) : bool :=
  match n with
  | Some v => negb (v =? 0)
  | None => false
  end.

(** The frame rates an instance holds. *)
Record rates : Type := Rates {
  src_fps_num : Z;
  src_fps_den : Z;
  src_fps_float : Qc;
  tgt_fps_num : Z;
  tgt_fps_den : Z;
  tgt_fps_float : Qc;
}.

(** The frame rates of [__init__], from the rate of the project and the
    two optional arguments. *)
Definition init (fps_num fps_den : Z) (target_fps_num target_fps_den : option Z)
  : result rates :=
  let src_fps_num := fps_num in
  let src_fps_den := fps_den in
  src_fps_float ← true_div fps_num fps_den;
  let '(tgt_fps_num, tgt_fps_den) :=
    if truthy_int target_fps_num && truthy_int target_fps_den
    then (default 0 target_fps_num, default 0 target_fps_den)
    else (src_fps_num, src_fps_den) in
  tgt_fps_float ← true_div tgt_fps_num tgt_fps_den;
  Ok (Rates src_fps_num src_fps_den src_fps_float
            tgt_fps_num tgt_fps_den tgt_fps_float).

(** The second half of [_ms_to_tc] (steps 2 and 3 after the base has
    been rounded): the timecode of a frame count in a timecode base. *)
Definition tc_of_frames (fps_base total_frames : Z) : result string :=
  let frames_per_sec := fps_base in
  let frames_per_min := fps_base * 60 in
  let frames_per_hr := fps_base * 3600 in
  h ← floor_div total_frames frames_per_hr;
  rem ← py_mod total_frames frames_per_hr;
  m ← floor_div rem frames_per_min;
  rem ← py_mod rem frames_per_min;
  s ← floor_div rem frames_per_sec;
  f ← py_mod rem frames_per_sec;
  Ok (tc_string h m s f).

(** [a / b] on two floats: [ZeroDivisionError] for [b = 0.0]. *)
Definition float_div (a b : Qc) : result Qc :=
  if decide (b = 0%Qc) then Raise ZeroDivisionError else Ok (a / b)%Qc.

(** The format specification [0{width}d]: the decimal digits,
    zero-padded to [width] characters, the minus sign of a negative
    number included in the width. *)
Definition fmt_0d (width : nat) (n : Z) : list ascii :=
  if n <? 0 then
    "-"%char :: replicate (width - 1 - length (dec_digits (- n))) "0"%char
      ++ dec_digits (- n)
  else replicate (width - length (dec_digits n)) "0"%char ++ dec_digits n.

(** [f"slice_{seq_num:05d}.png"]. *)
Definition slice_filename (seq_num : Z) : string :=
  string_of_list_ascii
    (list_ascii_of_string "slice_" ++ fmt_0d 5 seq_num
       ++ list_ascii_of_string ".png").

(** An entry of [bdn_events]. *)
Record bdn_event : Type := BdnEvent {
  bdn_InTC : string;
  bdn_OutTC : string;
  bdn_Width : Z;
  bdn_Height : Z;
  bdn_X : Z;
  bdn_Y : Z;
  bdn_Filename : string;
}.

Section Compose.

(** The canvas of [_create_composite_image] once the layers of the
    cues whose files exist have been composited on it (the rendering
    and the alpha compositing are outside the model). *)
Variable canvas_of : list cue → image.

Variable r : rates.

(** Step 4 of [compose]: the timecodes of a slice. *)
Definition event_timecodes (t_start t_end : Qc) : result (string * string) :=
  rate_ratio ← float_div (src_fps_float r) (tgt_fps_float r);
  let final_start_ms := (t_start * rate_ratio)%Qc in
  let final_end_ms := (t_end * rate_ratio)%Qc in
  in_tc ← _ms_to_tc final_start_ms (tgt_fps_num r) (tgt_fps_den r);
  out_tc ← _ms_to_tc final_end_ms (tgt_fps_num r) (tgt_fps_den r);
  Ok (in_tc, out_tc).

(** Steps 3 and 4 for the slice numbered [seq_num]: the event that is
    appended, or [None] when the composite is empty ([continue]). *)
Definition compose_event (seq_num : Z) (s : TimeSlice)
  : result (option bdn_event) :=
  let slice_filename := slice_filename seq_num in
  '((x, y, w, h), _) ← _create_composite_image (canvas_of (active_cues s));
  if (w =? 0) || (h =? 0) then Ok None
  else
    '(in_tc, out_tc) ← event_timecodes (t_start s) (t_end s);
    Ok (Some (BdnEvent in_tc out_tc w h x y slice_filename)).

(** The loop over the slices that have active cues, from a value of
    [seq_num]. *)
Fixpoint compose_events (seq_num : Z) (slices : list TimeSlice)
  : result (list bdn_event) :=
  match slices with
  | [] => Ok []
  | s :: slices' =>
      let seq_num := seq_num + 1 in
      ev ← compose_event seq_num s;
      evs ← compose_events seq_num slices';
      Ok (match ev with Some e => e :: evs | None => evs end)
  end.

(** [compose] without a cancel event: the events handed to
    [_write_bdn_xml]. *)
Definition compose (timing_offset_ms : Qc) (cues_metadata : list cue)
  : result (list bdn_event) :=
  compose_events 0 (compose_slices timing_offset_ms cues_metadata).

End Compose.

(** A project at 23.976 frames per second conformed to 24. *)
Definition sample_rates : rates :=
  Rates 24000 1001 (Qc_of_Z 24000 / Qc_of_Z 1001)%Qc
        24 1 (Qc_of_Z 24 / Qc_of_Z 1)%Qc.

(** A canvas of 4x2 pixels that shows one opaque pixel whatever the
    cues are. *)
Definition sample_canvas_of (cues : list cue) : image := one_pixel_canvas.

End Composer.

(** ** The manifest of the batcher ([ImageBatcher.run]) *)

Module Batcher.
Import PyStr Slicer Composer.

(** The entry that [run] appends to [manifest_cues] for the cue at
    position [i] of [process_cues], a cue being given by its
    [start_ms] and [end_ms]: the id of the entry is the start time. *)
Definition manifest_entry (i : nat) (cue_start_ms cue_end_ms : Qc) : cue :=
  let seq_num := (Z.of_nat i + 1)%Z in
  let filename :=
    string_of_list_ascii
      (list_ascii_of_string "cue" ++ fmt_0d 5 seq_num
         ++ list_ascii_of_string ".png") in
  Cue cue_start_ms filename cue_start_ms cue_end_ms.

Definition manifest_cues (process_cues : list (Qc * Qc)) : list cue :=
  imap (λ i c, manifest_entry i c.1 c.2) process_cues.

End Batcher.

(** ** The [Format] element of the BDN file
       ([BdnComposer._write_bdn_xml], [PgsEncoder._parse_bdn]) *)

Module Bdn.
Import PyStr.
Local Open Scope Z_scope.

(** [str(n)] of an [int]. *)
Definition py_str (n : Z) : list ascii :=
  if n <? 0 then "-"%char :: dec_digits (- n) else dec_digits n.

(** [needle in s] on strings. *)
Fixpoint starts_with (needle s : list ascii) : bool :=
  match needle, s with
  | [], _ => true
  | a :: needle', b :: s' => Ascii.eqb a b && starts_with needle' s'
  | _ :: _, [] => false
  end.

Fixpoint contains (needle s : list ascii) : bool :=
  starts_with needle s
  || match s with
     | [] => false
     | _ :: s' => contains needle s'
     end.

(** The attributes of the [Format] element that [_write_bdn_xml]
    creates, for the target resolution and the frame rate string. *)
Definition format_attributes (std_w std_h : Z) (fps_str : string)
  : gmap string string :=
  let res_str :=
    string_of_list_ascii (py_str std_w ++ "x"%char :: py_str std_h) in
  {[ "Resolution"%string := res_str;
     "FrameRate"%string := fps_str;
     "DropFrame"%string := "False"%string ]}.

(** The width and height that [_parse_bdn] derives from the attributes
    of the [Format] element. *)
Definition video_size (fmt : gmap string string) : Z * Z :=
  let vid_fmt :=
    list_ascii_of_string (default "1080p"%string (fmt !! "VideoFormat"%string)) in
  if contains (list_ascii_of_string "720") vid_fmt then (1280, 720)
  else if contains (list_ascii_of_string "480") vid_fmt then (720, 480)
  else if contains (list_ascii_of_string "576") vid_fmt then (720, 576)
  else (1920, 1080).

(** The text of the [X] (or [Y]) attribute of a [Graphic] element, for
    the coordinate of an event: [str(max(0, v + offset))] with the
    offset 0 of the code. *)
Definition coordinate_text (v : Z) : list ascii :=
  let offset := 0 in
  let final := v + offset in
  let final := Z.max 0 final in
  py_str final.

End Bdn.
(* ================================================================== *)
(** * Theorems *)
(* ================================================================== *)


(** ** Run-length compression *)

Module RleTheory.
Import Rle.

Lemma bind_Ok {A B} (m : result A) (k : A → result B) a :
  m = Ok a → (m ≫= k) = k a.
Proof. by intros ->. Qed.

(** Checking a boolean property on an integer interval by enumeration. *)
Lemma forall_range_spec (P : Z → bool) (n : nat) :
  ∀ lo, forall_range P lo n = true →
  ∀ z, lo ≤ z < lo + Z.of_nat n → P z = true.
Proof.
  induction n as [|n IH]; intros lo Hall z Hz; [lia|].
  simpl in Hall. apply andb_prop in Hall as [Hlo Hrest].
  destruct (decide (z = lo)) as [->|Hne]; [done|].
  apply (IH (lo + 1)); [done|lia].
Qed.

Lemma Z_range_check (P : Z → bool) (lo hi : Z) :
  forall_range P lo (Z.to_nat (hi + 1 - lo)) = true →
  ∀ z, lo ≤ z ≤ hi → P z = true.
Proof.
  intros Hall z Hz. eapply forall_range_spec; [exact Hall|lia].
Qed.

Ltac split_checks H :=
  repeat match type of H with
    | (_ && _) = true => let H' := fresh H in apply andb_prop in H as [H H']
    end;
  repeat match goal with
    | H' : negb _ = true |- _ => apply negb_true_iff in H'
    | H' : (_ =? _) = true |- _ => apply Z.eqb_eq in H'
    | H' : (_ =? _) = false |- _ => apply Z.eqb_neq in H'
    | H' : (_ <=? _) = true |- _ => apply Z.leb_le in H'
    | H' : Bool.eqb _ _ = true |- _ => apply Bool.eqb_prop in H'
    end.

Lemma short_transparent_bits r :
  1 ≤ r ≤ 63 →
  Z.testbit r 6 = false ∧ Z.testbit r 7 = false ∧ Z.land r 0x3F = r.
Proof.
  intros Hr.
  assert (Hb : short_transparent_ok r = true)
    by (revert r Hr; apply Z_range_check; by vm_compute).
  unfold short_transparent_ok in Hb. split_checks Hb. done.
Qed.

Lemma short_colour_bits r :
  1 ≤ r ≤ 63 →
  let f := Z.lor 0x80 r in
  0 ≤ f ≤ 255 ∧ f ≠ 0 ∧ Z.testbit f 6 = false ∧ Z.testbit f 7 = true
  ∧ Z.land f 0x3F = r ∧ f = 0x80 + r.
Proof.
  intros Hr.
  assert (Hb : short_colour_ok r = true)
    by (revert r Hr; apply Z_range_check; by vm_compute).
  unfold short_colour_ok in Hb. cbv zeta in *. split_checks Hb. done.
Qed.

Lemma long_bits flag r :
  flag = 0x40 ∨ flag = 0xC0 →
  64 ≤ r ≤ 16383 →
  let f := Z.lor flag (Z.shiftr r 8) in
  0 ≤ f ≤ 255 ∧ f ≠ 0 ∧ Z.testbit f 6 = true
  ∧ Z.testbit f 7 = Z.testbit flag 7
  ∧ Z.lor (Z.shiftl (Z.land f 0x3F) 8) (Z.land r 0xFF) = r
  ∧ f = flag + r / 256 ∧ Z.land r 0xFF = r mod 256.
Proof.
  intros Hflag Hr.
  assert (Hb : long_ok flag r = true).
  { destruct Hflag as [-> | ->]; revert r Hr; apply Z_range_check;
      by vm_compute. }
  unfold long_ok in Hb. cbv zeta in *. split_checks Hb. done.
Qed.

(** *** The run scanner *)

Lemma scan_run_unfold line width i val run budget :
  scan_run line width i val run budget =
  if (i + run <? width)%nat then
    match line !! (i + run)%nat with
    | None => Raise IndexError
    | Some v =>
        if v =? val then
          match budget with
          | O => Ok run
          | S budget' => scan_run line width i val (S run) budget'
          end
        else Ok run
    end
  else Ok run.
Proof. by destruct budget. Qed.

Lemma scan_run_ok budget : ∀ line width i val run,
  (width ≤ length line)%nat →
  (i + run ≤ width)%nat →
  (∀ k, (k < run)%nat → line !! (i + k)%nat = Some val) →
  ∃ r, scan_run line width i val run budget = Ok r
       ∧ (run ≤ r ≤ run + budget)%nat ∧ (i + r ≤ width)%nat
       ∧ ∀ k, (k < r)%nat → line !! (i + k)%nat = Some val.
Proof.
  induction budget as [|budget IH]; intros line width i val run Hlen Hin Hrun;
    rewrite scan_run_unfold.
  - destruct (Nat.ltb_spec (i + run) width) as [Hlt|Hge].
    + destruct (lookup_lt_is_Some_2 line (i + run)) as [v ->]; [lia|].
      exists run. destruct (v =? val); repeat split; auto with lia.
    + exists run. repeat split; auto with lia.
  - destruct (Nat.ltb_spec (i + run) width) as [Hlt|Hge].
    + destruct (lookup_lt_is_Some_2 line (i + run)) as [v Hv]; [lia|].
      rewrite Hv. destruct (Z.eqb_spec v val) as [->|Hne].
      * destruct (IH line width i val (S run)) as (r & Hr & Hb & Hw & Hall);
          [done|lia| |].
        { intros k Hk. destruct (decide (k = run)) as [->|]; [done|].
          apply Hrun. lia. }
        exists r. repeat split; auto with lia.
      * exists run. repeat split; auto with lia.
    + exists run. repeat split; auto with lia.
Qed.

(** The scanner never goes back, so the outer loop advances and its
    fuel never runs out, whatever the input. *)
Lemma scan_run_ge budget : ∀ line width i val run r,
  scan_run line width i val run budget = Ok r → (run ≤ r)%nat.
Proof.
  induction budget as [|budget IH]; intros line width i val run r;
    rewrite scan_run_unfold;
    destruct (i + run <? width)%nat; [|by intros [= <-]| |by intros [= <-]];
    (destruct (line !! (i + run)%nat) as [v|]; [|done]);
    (destruct (v =? val); [|by intros [= <-]]).
  - by intros [= <-].
  - intros Hr%IH. lia.
Qed.

Lemma scan_run_raise budget : ∀ line width i val run e,
  scan_run line width i val run budget = Raise e → e = IndexError.
Proof.
  induction budget as [|budget IH]; intros line width i val run e;
    rewrite scan_run_unfold;
    destruct (i + run <? width)%nat; try done;
    (destruct (line !! (i + run)%nat) as [v|]; [|by intros [= <-]]);
    (destruct (v =? val); [|done]); [done|apply IH].
Qed.

(** *** One run: what is emitted decodes to the run *)

Lemma decode_literal b rest cur :
  b ≠ 0 → rle_decode_from (b :: rest) cur = rle_decode_from rest (cur ++ [b]).
Proof. intros Hb. simpl. by destruct (Z.eqb_spec b 0). Qed.

Lemma decode_eol t cur :
  rle_decode_from (0 :: 0 :: t) cur
  = rows ← rle_decode_from t []; Some (cur :: rows).
Proof. done. Qed.

Lemma decode_escape f t cur :
  f ≠ 0 →
  rle_decode_from (0 :: f :: t) cur =
  let n := Z.land f 0x3F in
  match Z.testbit f 6, Z.testbit f 7 with
  | false, false => rle_decode_from t (cur ++ replicate (Z.to_nat n) 0)
  | true, false =>
      match t with
      | l :: t2 =>
          let n' := Z.lor (Z.shiftl n 8) l in
          if n' =? 0 then None
          else rle_decode_from t2 (cur ++ replicate (Z.to_nat n') 0)
      | [] => None
      end
  | false, true =>
      match t with
      | c :: t2 =>
          if n =? 0 then None
          else rle_decode_from t2 (cur ++ replicate (Z.to_nat n) c)
      | [] => None
      end
  | true, true =>
      match t with
      | l :: c :: t3 =>
          let n' := Z.lor (Z.shiftl n 8) l in
          if n' =? 0 then None
          else rle_decode_from t3 (cur ++ replicate (Z.to_nat n') c)
      | _ => None
      end
  end.
Proof.
  intros Hf. cbn [rle_decode_from]. change (0 =? 0) with true. cbn [negb].
  by rewrite (proj2 (Z.eqb_neq f 0) Hf).
Qed.

Lemma pack_B_byte v : 0 ≤ v ≤ 255 → pack_B v = Ok v.
Proof.
  intros. unfold pack_B.
  by rewrite (proj2 (Z.leb_le 0 v)), (proj2 (Z.leb_le v 255)) by lia.
Qed.

Lemma byte_of_int_byte v : 0 ≤ v ≤ 255 → byte_of_int v = Ok v.
Proof.
  intros. unfold byte_of_int.
  by rewrite (proj2 (Z.leb_le 0 v)), (proj2 (Z.leb_le v 255)) by lia.
Qed.

Lemma emit_run_decode val run :
  0 ≤ val ≤ 255 → 1 ≤ Z.of_nat run ≤ 16383 →
  ∃ bytes, emit_run val run = Ok bytes
    ∧ run_bytes val (Z.of_nat run) bytes
    ∧ ∀ rest cur, rle_decode_from (bytes ++ rest) cur
                  = rle_decode_from rest (cur ++ replicate run val).
Proof.
  intros Hval Hr. unfold emit_run.
  assert (Hnat : Z.to_nat (Z.of_nat run) = run) by lia.
  generalize dependent (Z.of_nat run). intros r Hr Hnat. cbv zeta.
  destruct (Z.eqb_spec val 0) as [->|Hnz].
  - destruct (Z.leb_spec r 63) as [Hs|Hl].
    + destruct (short_transparent_bits r) as (H6 & H7 & Hn); [lia|].
      exists [0; r]. split_and!.
      { by rewrite !pack_B_byte by lia. }
      { constructor; lia. }
      intros rest cur. cbn [app]. rewrite decode_escape by lia. cbv zeta.
      by rewrite H6, H7, Hn, Hnat.
    + destruct (long_bits 0x40 r)
        as (Hf & Hf0 & H6 & H7 & Hn & Hhi & Hlo); [by left|lia|].
      exists [0; Z.lor 0x40 (Z.shiftr r 8); Z.land r 0xFF]. split_and!.
      { by rewrite !pack_B_byte by lia. }
      { rewrite Hhi, Hlo. constructor; lia. }
      intros rest cur. cbn [app]. rewrite decode_escape by lia. cbv zeta.
      rewrite H6, H7, Hn. change (Z.testbit 64 7) with false. cbv iota.
      rewrite (proj2 (Z.eqb_neq r 0)) by lia. by rewrite Hnat.
  - destruct (Z.eqb_spec r 1) as [->|Hn1].
    + exists [val]. rewrite byte_of_int_byte by done. split_and!; [done|by constructor|].
      intros rest cur. cbn [app]. rewrite decode_literal by done.
      by replace run with 1%nat by lia.
    + destruct (Z.leb_spec r 63) as [Hs|Hl].
      * destruct (short_colour_bits r) as (Hf & Hf0 & H6 & H7 & Hn & Hsum); [lia|].
        exists [0; Z.lor 0x80 r; val]. split_and!.
        { by rewrite !pack_B_byte, byte_of_int_byte by lia. }
        { rewrite Hsum. constructor; lia. }
        intros rest cur. cbn [app]. rewrite decode_escape by lia. cbv zeta.
        rewrite H6, H7, Hn. cbv iota.
        rewrite (proj2 (Z.eqb_neq r 0)) by lia. by rewrite Hnat.
      * destruct (long_bits 0xC0 r)
          as (Hf & Hf0 & H6 & H7 & Hn & Hhi & Hlo); [by right|lia|].
        exists [0; Z.lor 0xC0 (Z.shiftr r 8); Z.land r 0xFF; val]. split_and!.
        { by rewrite !pack_B_byte, byte_of_int_byte by lia. }
        { rewrite Hhi, Hlo. constructor; lia. }
        intros rest cur. cbn [app]. rewrite decode_escape by lia. cbv zeta.
        rewrite H6, H7, Hn. change (Z.testbit 192 7) with true. cbv iota.
        rewrite (proj2 (Z.eqb_neq r 0)) by lia. by rewrite Hnat.
Qed.

(** *** One scanline *)

Lemma drop_run (line : list Z) i r val :
  (i + r ≤ length line)%nat →
  (∀ k, (k < r)%nat → line !! (i + k)%nat = Some val) →
  drop i line = replicate r val ++ drop (i + r) line.
Proof.
  intros Hlen Hall. rewrite <-(take_drop r (drop i line)) at 1.
  rewrite drop_drop. f_equal. apply list_eq. intros k.
  destruct (decide (k < r)%nat) as [Hk|Hk].
  - rewrite lookup_take_lt, lookup_drop, Hall by done.
    symmetry. by apply lookup_replicate_2.
  - rewrite lookup_take_ge by lia. symmetry.
    apply lookup_ge_None_2. rewrite length_replicate. lia.
Qed.

Lemma rle_line_unfold fuel line width i :
  rle_line fuel line width i =
  if (i <? width)%nat then
    match fuel with
    | O => Raise FuelExhausted
    | S fuel' =>
        match line !! i with
        | None => Raise IndexError
        | Some val =>
            run ← scan_run line width i val 1 (Z.to_nat 16382) ;
            bytes ← emit_run val run ;
            rest ← rle_line fuel' line width (i + run) ;
            Ok (bytes ++ rest)
        end
    end
  else Ok [].
Proof. by destruct fuel. Qed.

Lemma rle_line_fuel fuel : ∀ line width i,
  (width - i ≤ fuel)%nat → rle_line fuel line width i ≠ Raise FuelExhausted.
Proof.
  induction fuel as [|fuel IH]; intros line width i Hfuel;
    rewrite rle_line_unfold; destruct (Nat.ltb_spec i width); try done; try lia.
  destruct (line !! i) as [val|]; [|done].
  destruct (scan_run line width i val 1 (Z.to_nat 16382)) as [run|e] eqn:Hrun.
  2:{ apply scan_run_raise in Hrun as ->. done. }
  apply scan_run_ge in Hrun. cbn.
  destruct (emit_run val run) as [bytes|e] eqn:Hemit; cbn.
  2:{ unfold emit_run, pack_B, byte_of_int in Hemit.
      repeat case_match; simplify_eq/=; done. }
  specialize (IH line width (i + run)%nat ltac:(lia)).
  by destruct (rle_line fuel line width (i + run)).
Qed.

Lemma rle_line_decode fuel : ∀ line width i,
  length line = width →
  Forall (λ v, 0 ≤ v ≤ 255) line →
  (i ≤ width)%nat → (width - i ≤ fuel)%nat →
  ∃ bytes, rle_line fuel line width i = Ok bytes
    ∧ line_bytes (drop i line) bytes
    ∧ ∀ rest cur, rle_decode_from (bytes ++ rest) cur
                  = rle_decode_from rest (cur ++ drop i line).
Proof.
  induction fuel as [|fuel IH]; intros line width i Hlen Hbytes Hi Hfuel;
    rewrite rle_line_unfold.
  - destruct (Nat.ltb_spec i width); [lia|].
    exists []. rewrite drop_ge by lia. split_and!; [done|constructor|].
    intros. by rewrite app_nil_r.
  - destruct (Nat.ltb_spec i width) as [Hlt|Hge].
    2:{ exists []. rewrite drop_ge by lia. split_and!; [done|constructor|].
        intros. by rewrite app_nil_r. }
    destruct (lookup_lt_is_Some_2 line i) as [val Hval]; [lia|].
    rewrite Hval.
    destruct (scan_run_ok (Z.to_nat 16382) line width i val 1)
      as (r & Hr & Hbound & Hw & Hall); [lia|lia| |].
    { intros k Hk. by replace k with 0%nat by lia; rewrite Nat.add_0_r. }
    assert (Hrange : 0 ≤ val ≤ 255).
    { by eapply (proj1 (Forall_lookup _ _) Hbytes). }
    destruct (emit_run_decode val r) as (bytes & Hemit & Hform & Hdec);
      [done|lia|].
    destruct (IH line width (i + r)%nat) as (rest & Hrest & Hline & Hdec');
      [done|done|lia|lia|].
    exists (bytes ++ rest).
    rewrite (bind_Ok _ _ _ Hr), (bind_Ok _ _ _ Hemit), (bind_Ok _ _ _ Hrest).
    rewrite (drop_run line i r val) by (done || lia).
    split_and!; [done|by constructor|].
    intros tl cur. by rewrite <-!app_assoc, Hdec, Hdec', !app_assoc.
Qed.

(** *** The whole bitmap *)

Lemma scanline_length pixels width row :
  (S row * width ≤ length pixels)%nat →
  length (scanline pixels width row) = width.
Proof.
  intros Hlen. unfold scanline. rewrite length_take, length_drop. lia.
Qed.

Lemma concat_scanlines pixels width count : ∀ row,
  concat (scanline pixels width <$> seq row count)
  = take (count * width) (drop (row * width) pixels).
Proof.
  induction count as [|count IH]; intros row; [done|].
  cbn [seq fmap list_fmap concat]. rewrite IH. unfold scanline.
  replace (S row * width)%nat with (row * width + width)%nat by lia.
  by rewrite <-drop_drop, take_take_drop.
Qed.

Lemma rle_rows_decode count : ∀ pixels width row,
  ((row + count) * width ≤ length pixels)%nat →
  Forall (λ v, 0 ≤ v ≤ 255) pixels →
  ∃ bodies,
    rle_rows pixels width row count
    = Ok (concat ((λ body, body ++ [0; 0]) <$> bodies))
    ∧ Forall2 (λ line body,
                 rle_line width line width 0 = Ok body ∧ line_bytes line body)
              (scanline pixels width <$> seq row count) bodies
    ∧ rle_decode_from (concat ((λ body, body ++ [0; 0]) <$> bodies)) []
      = Some (scanline pixels width <$> seq row count).
Proof.
  induction count as [|count IH]; intros pixels width row Hlen Hbytes.
  { exists []. split_and!; [done|constructor|done]. }
  destruct (rle_line_decode width (scanline pixels width row) width 0)
    as (body & Hbody & Hline & Hdec); [|by apply Forall_take, Forall_drop|lia|lia|].
  { apply scanline_length. lia. }
  destruct (IH pixels width (S row)) as (bodies & Hrest & Hall & Hdec');
    [lia|done|].
  exists (body :: bodies). cbn [rle_rows seq].
  rewrite (bind_Ok _ _ _ Hbody), (bind_Ok _ _ _ Hrest).
  rewrite !fmap_cons, concat_cons, <-!app_assoc. split_and!.
  - done.
  - constructor; [|done]. by rewrite drop_0 in Hline.
  - rewrite Hdec, drop_0, app_nil_l. cbn [app]. by rewrite decode_eol, Hdec'.
Qed.

(** C1: for every indexed bitmap of [width * height] palette indices,
    each in [0, 255], with [width, height >= 1], the run-length
    compressor returns a stream whose decoding is exactly the bitmap's
    scanlines, top to bottom, [height] of them of [width] pixels each;
    the stream is the concatenation, scanline by scanline, of the runs
    of that scanline followed by the end-of-line marker [00 00]; a
    single pixel of non-zero index is a literal byte, every other run
    a zero-byte escape in its short (at most 63) or long (64 to 16383)
    form. *)
Theorem rle_roundtrip (pixels : list Z) (width height : nat) :
  (1 ≤ width)%nat → (1 ≤ height)%nat →
  length pixels = (width * height)%nat →
  Forall (λ v, 0 ≤ v ≤ 255) pixels →
  ∃ bodies,
    _rle_compress pixels width height
    = Ok (concat ((λ body, body ++ [0; 0]) <$> bodies))
    ∧ rle_decode (concat ((λ body, body ++ [0; 0]) <$> bodies))
      = Some (scanlines pixels width height)
    ∧ concat (scanlines pixels width height) = pixels
    ∧ length (scanlines pixels width height) = height
    ∧ Forall (λ line, length line = width) (scanlines pixels width height)
    ∧ Forall2 line_bytes (scanlines pixels width height) bodies.
Proof.
  intros Hw Hh Hlen Hbytes.
  destruct (rle_rows_decode height pixels width 0) as (bodies & Hc & Hall & Hdec);
    [lia|done|].
  exists bodies. unfold _rle_compress, rle_decode, scanlines. split_and!.
  - done.
  - done.
  - rewrite concat_scanlines, drop_0. apply take_ge. lia.
  - by rewrite length_fmap, length_seq.
  - apply Forall_fmap, Forall_forall. intros row Hrow%elem_of_seq. simpl.
    apply scanline_length. nia.
  - eapply Forall2_impl; [exact Hall|]. by intros ?? [_ ?].
Qed.

Lemma rle_roundtrip_witness :
  ∃ bodies,
    _rle_compress [0; 0; 0; 5; 5; 7; 0; 0; 0; 0; 0; 9] 6 2
    = Ok (concat ((λ body, body ++ [0; 0]) <$> bodies))
    ∧ rle_decode (concat ((λ body, body ++ [0; 0]) <$> bodies))
      = Some (scanlines [0; 0; 0; 5; 5; 7; 0; 0; 0; 0; 0; 9] 6 2)
    ∧ concat (scanlines [0; 0; 0; 5; 5; 7; 0; 0; 0; 0; 0; 9] 6 2)
      = [0; 0; 0; 5; 5; 7; 0; 0; 0; 0; 0; 9]
    ∧ length (scanlines [0; 0; 0; 5; 5; 7; 0; 0; 0; 0; 0; 9] 6 2) = 2%nat
    ∧ Forall (λ line, length line = 6%nat)
             (scanlines [0; 0; 0; 5; 5; 7; 0; 0; 0; 0; 0; 9] 6 2)
    ∧ Forall2 line_bytes (scanlines [0; 0; 0; 5; 5; 7; 0; 0; 0; 0; 0; 9] 6 2)
              bodies.
Proof.
  apply (rle_roundtrip [0; 0; 0; 5; 5; 7; 0; 0; 0; 0; 0; 9] 6 2).
  - lia.
  - lia.
  - reflexivity.
  - repeat constructor; lia.
Defined.

Example rle_compress_sample :
  _rle_compress [0; 0; 0; 5; 5; 7; 0; 0; 0; 0; 0; 9] 6 2
  = Ok [0; 3; 0; 130; 5; 7; 0; 0; 0; 5; 9; 0; 0].
Proof. by vm_compute. Qed.

Example rle_compress_short_list :
  _rle_compress [0; 0; 0; 5; 5; 7; 0; 0; 0; 0; 0] 6 2 = Raise IndexError.
Proof. by vm_compute. Qed.

End RleTheory.

(** ** The timeline slicer *)

Module SlicerTheory.
Import Slicer.
Local Open Scope Qc_scope.

(** Order facts about [Qc] are moved to [Q], where [lra] decides them. *)
Ltac qc_lra :=
  unfold Qcle, Qclt, Qcdiv, Qcminus, Qcopp, Qcinv, Qcmult, Qcplus in *;
  cbn [this Q2Qc] in *;
  repeat (rewrite ?Qred_correct in *; cbn [this Q2Qc] in * );
  change (/ (1 + 1))%Q with (1 # 2)%Q in *;
  lra.

Lemma midpoint_between (a b : Qc) : a < b → a < (a + b) / 2 ∧ (a + b) / 2 < b.
Proof. intros Hab. split; qc_lra. Qed.

Lemma duration_positive (a b : Qc) : ¬ (b - a ≤ 0) ↔ a < b.
Proof. split; intros H; [apply Qclt_nge; intros ?; apply H|apply Qclt_nge]; qc_lra. Qed.

(** *** Boundary points *)

Lemma elem_of_boundary_points_acc off cues : ∀ (acc : gset Qc) x,
  x ∈ foldl (λ points c,
               let s := start_ms c + off in
               let e := end_ms c + off in
               {[ e ]} ∪ ({[ s ]} ∪ points)) acc cues
  ↔ x ∈ acc ∨ ∃ c, c ∈ cues ∧ (x = start_ms c + off ∨ x = end_ms c + off).
Proof.
  induction cues as [|c cues IH]; intros acc x; cbn [foldl].
  - split; [by left|]. intros [?|(c & Hc & _)]; [done|]. by apply elem_of_nil in Hc.
  - rewrite IH. cbv zeta. rewrite !elem_of_union, !elem_of_singleton. split.
    + intros [[->|[->|?]]|(c' & Hc' & Hx)].
      * right. exists c. split; [left|]; auto.
      * right. exists c. split; [left|]; auto.
      * by left.
      * right. exists c'. split; [by right|done].
    + intros [?|(c' & Hc' & Hx)]; [by left; right; right|].
      apply elem_of_cons in Hc' as [->|Hc'].
      * left. destruct Hx as [->| ->]; auto.
      * right. by exists c'.
Qed.

Lemma elem_of_boundary_points off cues x :
  x ∈ boundary_points off cues
  ↔ ∃ c, c ∈ cues ∧ (x = start_ms c + off ∨ x = end_ms c + off).
Proof.
  unfold boundary_points. rewrite elem_of_boundary_points_acc.
  split; [intros [H|H]; [by apply not_elem_of_empty in H|done]|by right].
Qed.

Lemma elem_of_sorted_points off cues x :
  x ∈ sorted_points off cues
  ↔ ∃ c, c ∈ cues ∧ (x = start_ms c + off ∨ x = end_ms c + off).
Proof.
  unfold sorted_points.
  by rewrite merge_sort_Permutation, elem_of_elements, elem_of_boundary_points.
Qed.

Lemma StronglySorted_strict (l : list Qc) :
  StronglySorted Qcle l → NoDup l → StronglySorted Qclt l.
Proof.
  induction 1 as [|x l Hl IH Hx]; intros Hnd; [constructor|].
  apply NoDup_cons in Hnd as [Hnotin Hnd].
  constructor; [by apply IH|].
  rewrite Forall_forall in Hx |- *. intros y Hy.
  destruct (Qcle_lt_or_eq _ _ (Hx y Hy)) as [?| ->]; done.
Qed.

Lemma sorted_points_strict off cues :
  StronglySorted Qclt (sorted_points off cues).
Proof.
  apply StronglySorted_strict.
  - apply StronglySorted_merge_sort; apply _.
  - unfold sorted_points. rewrite merge_sort_Permutation. apply NoDup_elements.
Qed.

Lemma StronglySorted_lookup {A} (R : relation A) (l : list A) :
  StronglySorted R l →
  ∀ i j x y, (i < j)%nat → l !! i = Some x → l !! j = Some y → R x y.
Proof.
  induction 1 as [|z l Hl IH Hz]; intros i j x y Hij Hi Hj; [done|].
  destruct j as [|j]; [lia|]. cbn in Hj. destruct i as [|i].
  - cbn in Hi. injection Hi as ->.
    rewrite Forall_forall in Hz. apply Hz. by eapply list_elem_of_lookup_2.
  - cbn in Hi. apply (IH i j); [lia|done..].
Qed.

(** Two neighbours of a strictly sorted list have no element between
    them. *)
Lemma neighbours_gap (l : list Qc) i a b x :
  StronglySorted Qclt l →
  l !! i = Some a → l !! (i + 1)%nat = Some b → x ∈ l →
  a < b ∧ (x ≤ a ∨ b ≤ x).
Proof.
  intros Hl Ha Hb [k Hk]%list_elem_of_lookup. split.
  - apply (StronglySorted_lookup _ _ Hl i (i + 1)); [lia|done..].
  - destruct (decide (k ≤ i)%nat) as [Hle|Hgt].
    + left. destruct (decide (k = i)) as [->|Hne].
      * rewrite Ha in Hk. by injection Hk as ->.
      * apply Qclt_le_weak.
        apply (StronglySorted_lookup _ _ Hl k i); [lia|done..].
    + right. destruct (decide (k = i + 1)%nat) as [->|Hne].
      * rewrite Hb in Hk. by injection Hk as ->.
      * apply Qclt_le_weak.
        apply (StronglySorted_lookup _ _ Hl (i + 1) k); [lia|done..].
Qed.

(** An instant between two elements of a sorted list lies between two
    neighbours. *)
Lemma neighbours_around (l : list Qc) x y t :
  StronglySorted Qclt l → x ∈ l → y ∈ l → x ≤ t → t < y →
  ∃ i a b, l !! i = Some a ∧ l !! (i + 1)%nat = Some b ∧ a ≤ t ∧ t < b.
Proof.
  intros Hl. revert x.
  induction Hl as [|h l Hl IH Hh]; intros x Hx Hy Hxt Hty;
    [by apply elem_of_nil in Hx|].
  rewrite Forall_forall in Hh.
  assert (Hht : h ≤ t).
  { apply elem_of_cons in Hx as [->|Hx]; [done|].
    apply Qclt_le_weak, Qclt_le_trans with x; auto. }
  assert (Hyl : y ∈ l).
  { apply elem_of_cons in Hy as [->|Hy]; [|done].
    exfalso. apply (Qclt_not_le _ _ Hty Hht). }
  destruct l as [|h2 l']; [by apply elem_of_nil in Hyl|].
  destruct (decide (h2 ≤ t)) as [Hle|Hgt].
  - destruct (IH h2) as (i & a & b & Ha & Hb & Hat & Htb); [left|done..|].
    exists (S i), a, b. auto.
  - exists 0%nat, h, h2. split_and!; [done|done|done|by apply Qclt_nge].
Qed.

(** *** Sorting the active cues *)

Lemma insert_by_id_Permutation c l : insert_by_id c l ≡ₚ c :: l.
Proof.
  induction l as [|c' l IH]; [done|]. cbn [insert_by_id].
  case_decide; [done|]. by rewrite IH, Permutation_swap.
Qed.

Lemma sort_by_id_Permutation l : sort_by_id l ≡ₚ l.
Proof.
  induction l as [|c l IH]; [done|]. cbn [sort_by_id foldr].
  rewrite insert_by_id_Permutation. by f_equiv.
Qed.

Lemma insert_by_id_Sorted c l :
  Sorted (λ a b, id a ≤ id b) l → Sorted (λ a b, id a ≤ id b) (insert_by_id c l).
Proof.
  induction 1 as [|c' l Hl IH Hhd]; cbn [insert_by_id]; [by repeat constructor|].
  case_decide as Hle.
  - by repeat constructor.
  - constructor; [done|].
    assert (id c' ≤ id c) by (by apply Qclt_le_weak, Qclt_nge).
    destruct Hhd as [|c'' l' Hc'']; cbn [insert_by_id];
      [by constructor|]. case_decide; by constructor.
Qed.

Lemma sort_by_id_Sorted l : Sorted (λ a b, id a ≤ id b) (sort_by_id l).
Proof.
  induction l as [|c l IH]; [constructor|]. by apply insert_by_id_Sorted.
Qed.

(** *** One iteration of the loop *)

Lemma slice_at_Some off cues pts i s :
  slice_at off cues pts i = Some s →
  ∃ a b, pts !! i = Some a ∧ pts !! (i + 1)%nat = Some b ∧ a < b
         ∧ t_start s = a ∧ t_end s = b
         ∧ filter (is_active off ((a + b) / 2)) cues ≠ []
         ∧ active_cues s = sort_by_id (filter (is_active off ((a + b) / 2)) cues).
Proof.
  unfold slice_at. intros Hs.
  destruct (pts !! i) as [a|]; [|done].
  destruct (pts !! (i + 1)%nat) as [b|]; [|done].
  cbv zeta in Hs. case_decide as Hdur; [done|].
  apply duration_positive in Hdur.
  destruct (filter (is_active off ((a + b) / 2)) cues)
    as [|c act] eqn:Hact; [done|].
  injection Hs as <-. exists a, b. by rewrite Hact.
Qed.

Lemma slice_at_active off cues pts i a b c :
  pts !! i = Some a → pts !! (i + 1)%nat = Some b → a < b →
  c ∈ cues → is_active off ((a + b) / 2) c →
  ∃ s, slice_at off cues pts i = Some s ∧ t_start s = a ∧ t_end s = b.
Proof.
  intros Ha Hb Hab Hc Hact. unfold slice_at. rewrite Ha, Hb. cbv zeta.
  case_decide as Hdur; [by apply duration_positive in Hab|].
  destruct (filter (is_active off ((a + b) / 2)) cues)
    as [|c' act] eqn:Hfilter.
  - exfalso. by eapply filter_nil_not_elem_of.
  - by eexists.
Qed.

Lemma elem_of_compose_slices off cues s :
  s ∈ compose_slices off cues
  ↔ ∃ i, slice_at off cues (sorted_points off cues) i = Some s.
Proof.
  unfold compose_slices. cbv zeta. rewrite list_elem_of_omap. split.
  - intros (i & _ & Hs). by exists i.
  - intros (i & Hs). exists i. split; [|done].
    apply slice_at_Some in Hs as (a & b & _ & Hb & _).
    apply lookup_lt_Some in Hb. apply elem_of_seq. lia.
Qed.

(** *** Slices against cues *)

Lemma cue_times_in_points off cues c :
  c ∈ cues →
  start_ms c + off ∈ sorted_points off cues
  ∧ end_ms c + off ∈ sorted_points off cues.
Proof.
  intros Hc. split; apply elem_of_sorted_points; exists c; auto.
Qed.

(** A cue that is active at the midpoint of two neighbouring boundary
    points spans the whole interval between them. *)
Lemma active_cue_spans off cues i a b c :
  sorted_points off cues !! i = Some a →
  sorted_points off cues !! (i + 1)%nat = Some b →
  c ∈ cues → is_active off ((a + b) / 2) c →
  start_ms c + off ≤ a ∧ b ≤ end_ms c + off.
Proof.
  intros Ha Hb Hc [Hs He].
  destruct (cue_times_in_points off cues c Hc) as [Hsp Hep].
  pose proof (sorted_points_strict off cues) as Hsorted.
  destruct (neighbours_gap _ i a b _ Hsorted Ha Hb Hsp) as [Hab [?|Hbs]];
    destruct (neighbours_gap _ i a b _ Hsorted Ha Hb Hep) as [_ [Hea|?]];
    destruct (midpoint_between a b Hab) as [Ham Hmb]; split; try done.
  all: exfalso.
  - apply (Qclt_not_le _ _ He). apply Qclt_le_weak, Qcle_lt_trans with a; done.
  - apply (Qclt_not_le _ _ Hmb). by apply Qcle_trans with (start_ms c + off).
  - apply (Qclt_not_le _ _ Hmb). by apply Qcle_trans with (start_ms c + off).
  - apply (Qclt_not_le _ _ Hmb). by apply Qcle_trans with (start_ms c + off).
Qed.

Lemma slice_inside_cue off cues s :
  s ∈ compose_slices off cues →
  t_start s < t_end s
  ∧ ∃ c, c ∈ cues ∧ ∀ t, in_slice s t → in_cue off c t.
Proof.
  intros [i Hs]%elem_of_compose_slices.
  apply slice_at_Some in Hs as (a & b & Ha & Hb & Hab & <- & <- & Hne & _).
  split; [done|].
  destruct (filter (is_active off ((t_start s + t_end s) / 2)) cues)
    as [|c act] eqn:Hact; [done|].
  assert (Hc : c ∈ filter (is_active off ((t_start s + t_end s) / 2)) cues)
    by (rewrite Hact; left).
  apply list_elem_of_filter in Hc as [Hactive Hc].
  destruct (active_cue_spans off cues i _ _ c Ha Hb Hc Hactive) as [Hlo Hhi].
  exists c. split; [done|]. intros t [Ht1 Ht2]. split.
  - by apply Qcle_trans with (t_start s).
  - by apply Qclt_le_trans with (t_end s).
Qed.

Lemma cue_inside_slices off cues c t :
  c ∈ cues → in_cue off c t →
  ∃ s, s ∈ compose_slices off cues ∧ in_slice s t.
Proof.
  intros Hc [Hlo Hhi].
  destruct (cue_times_in_points off cues c Hc) as [Hsp Hep].
  pose proof (sorted_points_strict off cues) as Hsorted.
  destruct (neighbours_around _ _ _ t Hsorted Hsp Hep Hlo Hhi)
    as (i & a & b & Ha & Hb & Hat & Htb).
  destruct (neighbours_gap _ i a b _ Hsorted Ha Hb Hsp) as [Hab Hs].
  destruct (neighbours_gap _ i a b _ Hsorted Ha Hb Hep) as [_ He].
  destruct (midpoint_between a b Hab) as [Ham Hmb].
  assert (Hactive : is_active off ((a + b) / 2) c).
  { split.
    - destruct Hs as [Hs|Hs].
      + apply Qclt_le_weak, Qcle_lt_trans with a; done.
      + exfalso. apply (Qclt_not_le _ _ Htb). by apply Qcle_trans with (start_ms c + off).
    - destruct He as [He|He].
      + exfalso. apply (Qclt_not_le _ _ Hhi). by apply Qcle_trans with a.
      + by apply Qclt_le_trans with b. }
  destruct (slice_at_active off cues _ i a b c Ha Hb Hab Hc Hactive)
    as (s & Hslice & Hstart & Hend).
  exists s. split.
  - apply elem_of_compose_slices. by exists i.
  - unfold in_slice. by rewrite Hstart, Hend.
Qed.

(** *** The slices are in time order *)

Lemma StronglySorted_omap {A B} (R : relation A) (R' : relation B)
      (f : A → option B) (l : list A) :
  (∀ x y a b, R x y → f x = Some a → f y = Some b → R' a b) →
  StronglySorted R l → StronglySorted R' (omap f l).
Proof.
  intros Hf. induction 1 as [|x l Hl IH Hx]; [constructor|].
  cbn [omap list_omap]. destruct (f x) as [a|] eqn:Hfx; [|done].
  constructor; [done|]. apply Forall_forall.
  intros b (y & Hy & Hfy)%list_elem_of_omap.
  eapply Hf; [|done..]. by eapply (proj1 (Forall_forall _ _) Hx).
Qed.

Lemma StronglySorted_seq j n : StronglySorted lt (seq j n).
Proof.
  revert j. induction n as [|n IH]; intros j; cbn [seq]; constructor; [done|].
  apply Forall_forall. intros k Hk%elem_of_seq. lia.
Qed.

Lemma compose_slices_ordered off cues :
  StronglySorted (λ s1 s2, t_end s1 ≤ t_start s2) (compose_slices off cues).
Proof.
  unfold compose_slices. cbv zeta.
  eapply StronglySorted_omap; [|apply StronglySorted_seq].
  intros k1 k2 s1 s2 Hk Hs1 Hs2.
  apply slice_at_Some in Hs1 as (a1 & b1 & _ & Hb1 & _ & _ & -> & _).
  apply slice_at_Some in Hs2 as (a2 & b2 & Ha2 & _ & _ & -> & _).
  destruct (decide (k1 + 1 = k2)%nat) as [<-|Hne].
  - rewrite Hb1 in Ha2. injection Ha2 as ->. apply Qcle_refl.
  - apply Qclt_le_weak.
    apply (StronglySorted_lookup _ _ (sorted_points_strict off cues)
             (k1 + 1) k2); [lia|done..].
Qed.

(** C2: for every cue set in which each cue ends after it starts, an
    instant lies in some produced slice exactly when it lies in some
    (offset-applied) cue interval, and no instant lies in two different
    produced slices. *)
Theorem slices_cover_cues_disjointly (timing_offset_ms : Qc) (cues : list cue) :
  Forall (λ c, start_ms c < end_ms c) cues →
  (∀ t, (∃ s, s ∈ compose_slices timing_offset_ms cues ∧ in_slice s t)
        ↔ (∃ c, c ∈ cues ∧ in_cue timing_offset_ms c t))
  ∧ (∀ i j s1 s2,
       i ≠ j →
       compose_slices timing_offset_ms cues !! i = Some s1 →
       compose_slices timing_offset_ms cues !! j = Some s2 →
       ∀ t, ¬ (in_slice s1 t ∧ in_slice s2 t)).
Proof.
  intros _. split.
  - intros t. split.
    + intros (s & Hs & Ht).
      destruct (slice_inside_cue _ _ s Hs) as [_ (c & Hc & Hin)]. eauto.
    + intros (c & Hc & Ht). by eapply cue_inside_slices.
  - assert (Hlt : ∀ i j s1 s2, (i < j)%nat →
       compose_slices timing_offset_ms cues !! i = Some s1 →
       compose_slices timing_offset_ms cues !! j = Some s2 →
       ∀ t, ¬ (in_slice s1 t ∧ in_slice s2 t)).
    { intros i j s1 s2 Hij H1 H2 t [[_ Ht1] [Ht2 _]].
      pose proof (StronglySorted_lookup _ _
                    (compose_slices_ordered timing_offset_ms cues)
                    i j s1 s2 Hij H1 H2) as Hord.
      apply (Qclt_not_le _ _ Ht1). by apply Qcle_trans with (t_start s2). }
    intros i j s1 s2 Hij H1 H2 t [Ht1 Ht2].
    destruct (decide (i < j)%nat).
    + by apply (Hlt i j s1 s2 ltac:(done) H1 H2 t).
    + by apply (Hlt j i s2 s1 ltac:(lia) H2 H1 t).
Qed.

Lemma slices_cover_cues_disjointly_witness :
  Forall (λ c, start_ms c < end_ms c) [cueA; cueB]
  ∧ (∀ t, (∃ s, s ∈ compose_slices 0 [cueA; cueB] ∧ in_slice s t)
          ↔ (∃ c, c ∈ [cueA; cueB] ∧ in_cue 0 c t))
  ∧ (∀ i j s1 s2,
       i ≠ j →
       compose_slices 0 [cueA; cueB] !! i = Some s1 →
       compose_slices 0 [cueA; cueB] !! j = Some s2 →
       ∀ t, ¬ (in_slice s1 t ∧ in_slice s2 t)).
Proof.
  assert (H : Forall (λ c, start_ms c < end_ms c) [cueA; cueB])
    by (repeat constructor).
  split; [exact H|]. exact (slices_cover_cues_disjointly 0 [cueA; cueB] H).
Defined.

(** C3: the active cues of every produced slice are exactly the cues
    [c] with [c.start_ms <= mid(slice) < c.end_ms] on offset-applied
    times (as a set, and with the same multiplicities), in ascending
    order of id; and the cues A = [0, 1000) and B = [500, 1500) give the
    slices [0, 500) with A, [500, 1000) with A and B, [1000, 1500) with
    B. *)
Theorem slice_active_cues_exact (timing_offset_ms : Qc) (cues : list cue) :
  Forall (λ s,
            (∀ c, c ∈ active_cues s
                  ↔ c ∈ cues ∧ is_active timing_offset_ms (mid s) c)
            ∧ active_cues s ≡ₚ filter (is_active timing_offset_ms (mid s)) cues
            ∧ Sorted (λ a b, id a ≤ id b) (active_cues s))
         (compose_slices timing_offset_ms cues)
  ∧ compose_slices 0 [cueA; cueB]
    = [ Slice 0 (Qc_of_Z 500) [cueA];
        Slice (Qc_of_Z 500) (Qc_of_Z 1000) [cueA; cueB];
        Slice (Qc_of_Z 1000) (Qc_of_Z 1500) [cueB] ].
Proof.
  split.
  - apply Forall_forall. intros s [i Hs]%elem_of_compose_slices.
    apply slice_at_Some in Hs as (a & b & _ & _ & _ & <- & <- & _ & Hact).
    fold (mid s) in Hact. rewrite Hact. split_and!.
    + intros c. rewrite sort_by_id_Permutation, list_elem_of_filter. tauto.
    + apply sort_by_id_Permutation.
    + apply sort_by_id_Sorted.
  - refine (bool_decide_eq_true_1 _ _). by vm_compute.
Qed.

End SlicerTheory.

(** ** The compositor's crop *)

Module CompositorTheory.
Import Img Compositor.

(** *** The bounding box *)

Lemma foldr_min_le (x : nat) (l : list nat) : (foldr Nat.min x l ≤ x)%nat.
Proof. induction l as [|y l IH]; cbn [foldr]; lia. Qed.

Lemma max_list_lt (n : nat) (l : list nat) :
  l ≠ [] → Forall (λ x, x < n)%nat l → (max_list l < n)%nat.
Proof.
  intros Hne Hall. rewrite Forall_forall in Hall.
  by apply Hall, max_list_elem_of.
Qed.

Lemma elem_of_visible_positions im k :
  k ∈ visible_positions im ↔ ∃ p, im_data im !! k = Some p ∧ alpha p ≠ 0.
Proof.
  unfold visible_positions, visible. rewrite list_elem_of_filter, elem_of_seq.
  split.
  - intros [Hvis _]. destruct (im_data im !! k) as [p|]; [eauto|done].
  - intros (p & Hp & Ha). rewrite Hp. split; [done|].
    apply lookup_lt_Some in Hp. lia.
Qed.

Lemma getbbox_bounds im bbox :
  well_formed im → getbbox im = Some bbox →
  let '(lft, upper, rgt, lower) := bbox in
  0 ≤ lft < rgt ∧ rgt ≤ Z.of_nat (im_width im)
  ∧ 0 ≤ upper < lower ∧ lower ≤ Z.of_nat (im_height im).
Proof.
  unfold well_formed, getbbox. intros Hwf Hbox.
  destruct (visible_positions im) as [|k ks] eqn:Hvis; [done|].
  cbv zeta in Hbox.
  set (w := im_width im) in *. set (h := im_height im) in *.
  set (xs := (λ k, k mod w)%nat <$> (k :: ks)) in *.
  set (ys := (λ k, k / w)%nat <$> (k :: ks)) in *.
  apply (inj Some) in Hbox. subst bbox.
  assert (Hin : Forall (λ k', k' < w * h)%nat (k :: ks)).
  { apply Forall_forall. intros k' Hk'. rewrite <-Hvis in Hk'.
    apply elem_of_visible_positions in Hk' as (p & Hp%lookup_lt_Some & _).
    lia. }
  assert (Hw : (0 < w)%nat).
  { apply Forall_inv in Hin. destruct w; [lia|lia]. }
  assert (Hxs : Forall (λ x, x < w)%nat xs).
  { apply Forall_fmap, Forall_forall. intros k' _. cbn.
    apply Nat.mod_upper_bound. lia. }
  assert (Hys : Forall (λ y, y < h)%nat ys).
  { apply Forall_fmap. eapply Forall_impl; [exact Hin|]. intros k' Hk'.
    cbn in *. apply Nat.Div0.div_lt_upper_bound. lia. }
  pose proof (max_list_lt w xs ltac:(done) Hxs) as Hmx.
  pose proof (max_list_lt h ys ltac:(done) Hys) as Hmy.
  pose proof (foldr_min_le (k mod w) xs) as Hlx.
  pose proof (foldr_min_le (k / w) ys) as Hly.
  assert (k mod w ≤ max_list xs)%nat by (apply max_list_elem_of_le; left).
  assert (k / w ≤ max_list ys)%nat by (apply max_list_elem_of_le; left).
  lia.
Qed.

Lemma getbbox_visible im :
  (∃ k p, im_data im !! k = Some p ∧ alpha p ≠ 0) → is_Some (getbbox im).
Proof.
  intros (k & Hk%elem_of_visible_positions). unfold getbbox.
  destruct (visible_positions im); [by apply elem_of_nil in Hk|done].
Qed.

(** *** Alignment and clamp *)

Lemma align_low v :
  0 ≤ v →
  let v' := Z.max 0 (if negb (v mod 2 =? 0) then v - 1 else v) in
  0 ≤ v' ≤ v ∧ v' mod 2 = 0.
Proof.
  intros Hv. destruct (Z.eqb_spec (v mod 2) 0); cbn [negb]; cbv zeta;
    split; Z.div_mod_to_equations; lia.
Qed.

Lemma align_high v bound :
  v ≤ bound →
  let v' := Z.min bound (if negb (v mod 2 =? 0) then v + 1 else v) in
  v ≤ v' ≤ bound ∧ (bound mod 2 = 0 → v' mod 2 = 0).
Proof.
  intros Hv. destruct (Z.eqb_spec (v mod 2) 0); cbn [negb]; cbv zeta;
    split; intros; Z.div_mod_to_equations; lia.
Qed.

Lemma align_box_spec canvas_w canvas_h lft upper rgt lower :
  0 ≤ lft < rgt → rgt ≤ canvas_w → 0 ≤ upper < lower → lower ≤ canvas_h →
  ∃ l' u' r' b',
    align_box canvas_w canvas_h (lft, upper, rgt, lower) = (l', u', r', b')
    ∧ 0 ≤ l' ≤ lft ∧ rgt ≤ r' ≤ canvas_w
    ∧ 0 ≤ u' ≤ upper ∧ lower ≤ b' ≤ canvas_h
    ∧ l' mod 2 = 0 ∧ u' mod 2 = 0
    ∧ (canvas_w mod 2 = 0 → r' mod 2 = 0)
    ∧ (canvas_h mod 2 = 0 → b' mod 2 = 0).
Proof.
  intros Hx Hr Hy Hb. unfold align_box. do 4 eexists. split; [reflexivity|].
  destruct (align_low lft) as [? ?]; [lia|].
  destruct (align_low upper) as [? ?]; [lia|].
  destruct (align_high rgt canvas_w) as [? ?]; [lia|].
  destruct (align_high lower canvas_h) as [? ?]; [lia|].
  tauto.
Qed.

(** An 8x8 block at (101,101)-(108,108) on a 1920x1080 canvas: the box
    (100,100)-(110,110), 10 by 10. *)
Example align_box_block :
  align_box 1920 1080 (101, 101, 109, 109) = (100, 100, 110, 110).
Proof. reflexivity. Qed.

(** *** Crop and guard *)

Lemma length_bind_const {A B} (f : A → list B) (n : nat) (l : list A) :
  (∀ x, length (f x) = n) → length (l ≫= f) = (length l * n)%nat.
Proof.
  intros Hf. induction l as [|x l IH]; [done|].
  rewrite bind_cons, length_app, Hf, IH. cbn. lia.
Qed.

Lemma crop_well_formed im box : well_formed (crop im box).
Proof.
  destruct box as [[[lft upper] rgt] lower]. unfold well_formed, crop.
  cbn [im_data im_width im_height].
  rewrite (length_bind_const _ (Z.to_nat (rgt - lft))).
  - rewrite length_seq. lia.
  - intros y. rewrite (length_bind_const _ 1%nat).
    + rewrite length_seq. lia.
    + intros x. by destruct (_ && _).
Qed.

Lemma crop_size im lft upper rgt lower :
  im_width (crop im (lft, upper, rgt, lower)) = Z.to_nat (rgt - lft)
  ∧ im_height (crop im (lft, upper, rgt, lower)) = Z.to_nat (lower - upper).
Proof. done. Qed.

Lemma get_pixel_ok im x y :
  well_formed im → (x < im_width im)%nat → (y < im_height im)%nat →
  ∃ p, get_pixel im x y = Ok p
       ∧ im_data im !! (y * im_width im + x)%nat = Some p.
Proof.
  unfold well_formed, get_pixel. intros Hwf Hx Hy.
  rewrite (proj2 (Nat.ltb_lt _ _) Hx), (proj2 (Nat.ltb_lt _ _) Hy). cbn [andb].
  destruct (lookup_lt_is_Some_2 (im_data im) (y * im_width im + x)) as [p Hp];
    [nia|]. rewrite Hp. eauto.
Qed.

(** With the guard the code uses, a corner keeps its size and the alpha
    of every pixel. *)
Lemma guard_corner_ok im x y :
  well_formed im → (x < im_width im)%nat → (y < im_height im)%nat →
  ∃ im', guard_corner (0, 0, 0, 0) x y im = Ok im'
         ∧ well_formed im'
         ∧ im_width im' = im_width im ∧ im_height im' = im_height im
         ∧ alpha <$> im_data im' = alpha <$> im_data im.
Proof.
  intros Hwf Hx Hy. unfold guard_corner.
  destruct (get_pixel_ok im x y Hwf Hx Hy) as (p & -> & Hp). cbn.
  destruct (Z.eqb_spec (alpha p) 0) as [Ha|Ha]; [|by exists im].
  unfold set_pixel.
  rewrite (proj2 (Nat.ltb_lt _ _) Hx), (proj2 (Nat.ltb_lt _ _) Hy). cbn [andb].
  eexists. split; [reflexivity|]. unfold well_formed in *.
  cbn [im_data im_width im_height]. rewrite length_insert. split_and!; try done.
  rewrite list_fmap_insert. apply list_insert_id.
  by rewrite list_lookup_fmap, Hp, <-Ha.
Qed.

Lemma guard_corners_ok cropped :
  well_formed cropped →
  (0 < im_width cropped)%nat → (0 < im_height cropped)%nat →
  ∃ saved, guard_corners cropped = Ok saved
           ∧ well_formed saved
           ∧ im_width saved = im_width cropped
           ∧ im_height saved = im_height cropped
           ∧ alpha <$> im_data saved = alpha <$> im_data cropped.
Proof.
  intros Hwf Hw Hh. unfold guard_corners. cbv zeta.
  destruct (guard_corner_ok cropped 0 0) as (im1 & -> & Hwf1 & Hw1 & Hh1 & Ha1);
    [done|lia|lia|]. cbn.
  destruct (guard_corner_ok im1 (im_width cropped - 1) 0)
    as (im2 & -> & Hwf2 & Hw2 & Hh2 & Ha2); [done|lia|lia|]. cbn.
  destruct (guard_corner_ok im2 0 (im_height cropped - 1))
    as (im3 & -> & Hwf3 & Hw3 & Hh3 & Ha3); [done|lia|lia|]. cbn.
  destruct (guard_corner_ok im3 (im_width cropped - 1) (im_height cropped - 1))
    as (im4 & -> & Hwf4 & Hw4 & Hh4 & Ha4); [done|lia|lia|].
  exists im4. split_and!; [done|done|congruence..].
Qed.

(** *** The composite *)

Lemma even_mod z : z mod 2 = 0 ↔ Z.even z = true.
Proof.
  rewrite Z.even_spec. split.
  - intros Hz. exists (z / 2). Z.div_mod_to_equations. lia.
  - intros [k ->]. Z.div_mod_to_equations. lia.
Qed.




(** C7, the behaviour of the code: on the 4x2 canvas with one opaque
    pixel at (1, 0) the cropped 2x2 bitmap has a fully transparent
    top-left corner, and that corner is still fully transparent
    (alpha 0) in the saved bitmap: the guard value the code writes is
    [(0, 0, 0, 0)]. *)
Theorem anti_crop_guard_is_transparent :
  ∃ saved,
    _create_composite_image one_pixel_canvas = Ok ((0, 0, 2, 2), Some saved)
    ∧ alpha <$> get_pixel (crop one_pixel_canvas (0, 0, 2, 2)) 0 0 = Ok 0
    ∧ alpha <$> get_pixel saved 0 0 = Ok 0
    ∧ alpha <$> get_pixel saved 1 0 = Ok 255.
Proof. eexists. split_and!; by vm_compute. Qed.

End CompositorTheory.

(** ** Python strings *)

Module PyStrTheory.
Import PyStr.

Lemma digit_char_facts d :
  0 ≤ d ≤ 9 →
  digit_val (digit_char d) = Some d
  ∧ is_space (digit_char d) = false
  ∧ Ascii.eqb (digit_char d) ":" = false
  ∧ Ascii.eqb (digit_char d) "+" = false
  ∧ Ascii.eqb (digit_char d) "-" = false.
Proof.
  intros Hd.
  assert (Hcases : d = 0 ∨ d = 1 ∨ d = 2 ∨ d = 3 ∨ d = 4 ∨ d = 5 ∨ d = 6
                   ∨ d = 7 ∨ d = 8 ∨ d = 9) by lia.
  repeat destruct Hcases as [->|Hcases]; try subst d; by vm_compute.
Qed.

Lemma digits_value_digits ds : ∀ acc b rest,
  Forall is_digit ds → ds ≠ [] →
  digits_value acc b ((digit_char <$> ds) ++ rest)
  = digits_value (fold_left (λ a d, a * 10 + d) ds acc) true rest.
Proof.
  induction ds as [|d ds IH]; intros acc b rest Hds Hne; [done|].
  apply Forall_cons in Hds as [Hd Hds].
  destruct (digit_char_facts d Hd) as (Hval & _).
  rewrite fmap_cons. cbn [app digits_value fold_left]. rewrite Hval.
  destruct ds as [|d' ds']; [done|]. by apply IH.
Qed.

Lemma dec_digit_vals_spec fuel : ∀ n,
  0 ≤ n < 2 ^ Z.of_nat (S fuel) →
  Forall is_digit (dec_digit_vals (S fuel) n)
  ∧ dec_digit_vals (S fuel) n ≠ []
  ∧ fold_left (λ a d, a * 10 + d) (dec_digit_vals (S fuel) n) 0 = n.
Proof.
  induction fuel as [|fuel IH]; intros n Hn.
  - cbn [dec_digit_vals]. change (2 ^ Z.of_nat 1) with 2 in Hn.
    destruct (Z.ltb_spec n 10); [|lia].
    split_and!; [apply Forall_singleton; unfold is_digit; lia|done|cbn; lia].
  - rewrite Nat2Z.inj_succ, Z.pow_succ_r in Hn by lia.
    change (dec_digit_vals (S (S fuel)) n)
      with (if n <? 10 then [n]
            else dec_digit_vals (S fuel) (n / 10) ++ [n mod 10]).
    destruct (Z.ltb_spec n 10).
    + split_and!; [apply Forall_singleton; unfold is_digit; lia|done|cbn; lia].
    + destruct (IH (n / 10)) as (Hdig & Hne & Hval).
      { split; [apply Z.div_pos; lia|].
        apply Z.div_lt_upper_bound; lia. }
      split_and!.
      * apply Forall_app. split; [done|]. apply Forall_singleton.
        unfold is_digit. Z.div_mod_to_equations. lia.
      * intros Hnil. by apply app_eq_nil in Hnil as [? _].
      * rewrite fold_left_app, Hval. cbn [fold_left].
        Z.div_mod_to_equations. lia.
Qed.

(** The decimal digits of [n], as [dec_digits] prints them. *)
Lemma dec_digits_spec n :
  0 ≤ n →
  ∃ ds, dec_digits n = digit_char <$> ds ∧ Forall is_digit ds ∧ ds ≠ []
        ∧ fold_left (λ a d, a * 10 + d) ds 0 = n.
Proof.
  intros Hn. exists (dec_digit_vals (S (Z.to_nat (Z.log2 n))) n).
  split; [done|]. apply dec_digit_vals_spec.
  split; [done|]. rewrite Nat2Z.inj_succ, Z2Nat.id by apply Z.log2_nonneg.
  destruct (decide (n = 0)) as [->|]; [done|]. apply Z.log2_spec. lia.
Qed.

(** *** [int()] reads back what [02d] prints *)

Lemma tc_char_facts c :
  is_tc_char c → is_space c = false ∧ Ascii.eqb c ":" = false.
Proof.
  intros [->|(d & Hd & ->)]; [done|].
  by destruct (digit_char_facts d Hd) as (_ & ? & ? & _).
Qed.

Lemma dec_digits_chars n : 0 ≤ n → Forall is_tc_char (dec_digits n).
Proof.
  intros Hn. destruct (dec_digits_spec n Hn) as (ds & -> & Hds & _).
  apply Forall_fmap. eapply Forall_impl; [exact Hds|].
  intros d Hd. right. by exists d.
Qed.

Lemma fmt_02d_chars n : Forall is_tc_char (fmt_02d n).
Proof.
  unfold fmt_02d. destruct (Z.ltb_spec n 0); [|destruct (Z.ltb_spec n 10)].
  - apply Forall_cons. split; [by left|]. apply dec_digits_chars. lia.
  - apply Forall_cons. split; [right; exists 0; by split|].
    by apply dec_digits_chars.
  - apply dec_digits_chars. lia.
Qed.

Lemma lstrip_head c l : is_space c = false → lstrip (c :: l) = c :: l.
Proof. intros Hc. cbn [lstrip]. by rewrite Hc. Qed.

Lemma strip_no_space l : Forall (λ c, is_space c = false) l → strip l = l.
Proof.
  intros Hl. unfold strip.
  assert (Hlstrip : ∀ k, Forall (λ c, is_space c = false) k → lstrip k = k).
  { intros [|c k] Hk; [done|]. apply lstrip_head. by apply Forall_inv in Hk. }
  rewrite (Hlstrip l Hl), Hlstrip by (by apply Forall_reverse).
  apply reverse_involutive.
Qed.

Lemma py_int_digits ds :
  Forall is_digit ds → ds ≠ [] →
  py_int (digit_char <$> ds) = Ok (fold_left (λ a d, a * 10 + d) ds 0).
Proof.
  intros Hds Hne. unfold py_int. rewrite strip_no_space.
  2:{ apply Forall_fmap. eapply Forall_impl; [exact Hds|]. intros d Hd.
      by destruct (digit_char_facts d Hd) as (_ & ? & _). }
  destruct ds as [|d ds]; [done|]. rewrite fmap_cons.
  destruct (digit_char_facts d) as (_ & _ & _ & -> & ->);
    [by apply Forall_inv in Hds|].
  rewrite <-fmap_cons, <-(app_nil_r (digit_char <$> d :: ds)).
  by rewrite digits_value_digits.
Qed.

Lemma py_int_fmt_02d n : py_int (fmt_02d n) = Ok n.
Proof.
  unfold fmt_02d. destruct (Z.ltb_spec n 0); [|destruct (Z.ltb_spec n 10)].
  - destruct (dec_digits_spec (- n)) as (ds & Hds & Hdig & Hne & Hval); [lia|].
    pose proof (dec_digits_chars (- n) ltac:(lia)) as Hchars.
    unfold py_int. rewrite strip_no_space.
    2:{ apply Forall_cons. split; [done|].
        eapply Forall_impl; [exact Hchars|]. intros c Hc.
        by destruct (tc_char_facts c Hc). }
    change (Ascii.eqb "-" "+") with false. change (Ascii.eqb "-" "-") with true.
    cbv iota. rewrite Hds, <-(app_nil_r (digit_char <$> ds)).
    rewrite digits_value_digits by done. cbn. rewrite Hval. f_equal. lia.
  - destruct (dec_digits_spec n) as (ds & -> & Hdig & Hne & Hval); [lia|].
    change ("0"%char :: (digit_char <$> ds)) with (digit_char <$> (0 :: ds)).
    rewrite py_int_digits; [|apply Forall_cons; split; [by split|done]|done].
    cbn [fold_left]. change (0 * 10 + 0) with 0. by rewrite Hval.
  - destruct (dec_digits_spec n) as (ds & -> & Hdig & Hne & Hval); [lia|].
    by rewrite py_int_digits, Hval.
Qed.

(** *** [split] *)

Lemma split_on_no_sep sep l :
  Forall (λ c, Ascii.eqb c sep = false) l → split_on sep l = [l].
Proof.
  induction 1 as [|c l Hc Hl IH]; [done|]. cbn [split_on].
  by rewrite Hc, IH.
Qed.

Lemma split_on_app sep l rest :
  Forall (λ c, Ascii.eqb c sep = false) l →
  split_on sep (l ++ sep :: rest) = l :: split_on sep rest.
Proof.
  induction 1 as [|c l Hc Hl IH]; cbn [app split_on].
  - by rewrite Ascii.eqb_refl.
  - by rewrite Hc, IH.
Qed.

Lemma fmt_02d_no_colon n : Forall (λ c, Ascii.eqb c ":" = false) (fmt_02d n).
Proof.
  eapply Forall_impl; [apply fmt_02d_chars|]. intros c Hc.
  by destruct (tc_char_facts c Hc).
Qed.

End PyStrTheory.

(** ** Timecodes *)

Module TimecodeTheory.
Import PyNum PyStr Timecode PyStrTheory.

(** *** Rounding *)

Lemma py_round_spec (x : Qc) :
  (inject_Z (py_round x) - (1 # 2) <= x <= inject_Z (py_round x) + (1 # 2))%Q.
Proof.
  unfold py_round. cbv zeta.
  pose proof (Qfloor_le x) as Hlo. pose proof (Qlt_floor x) as Hhi.
  rewrite inject_Z_plus in *.
  set (f := Qfloor x) in *.
  assert (Hdiff : (this (2 * (x - Qc_of_Z f))%Qc == 2 * (x - inject_Z f))%Q).
  { unfold Qcmult, Qcminus, Qcopp, Qcplus. cbn [this Q2Qc Qc_of_Z].
    rewrite !Qred_correct. ring. }
  unfold Qccompare.
  destruct (Qcompare_spec (this (2 * (x - Qc_of_Z f))%Qc) (this 1%Qc))
    as [Hc|Hc|Hc]; rewrite Hdiff in Hc; cbn [this Q2Qc] in Hc;
    change (Qred 1) with 1%Q in Hc.
  all: rewrite ?inject_Z_plus; change (inject_Z 1) with 1%Q in *.
  - destruct (Z.even f); rewrite ?inject_Z_plus; change (inject_Z 1) with 1%Q;
      lra.
  - lra.
  - lra.
Qed.

(** *** Printing and reading a timecode *)

Lemma parse_tc_string h m s f : parse_tc (tc_string h m s f) = Some (h, m, s, f).
Proof.
  unfold parse_tc, tc_string. rewrite list_ascii_of_string_of_list_ascii.
  rewrite !split_on_app, split_on_no_sep by apply fmt_02d_no_colon.
  rewrite !fmap_cons. by rewrite !py_int_fmt_02d.
Qed.

Lemma true_div_ok a b : b ≠ 0 → true_div a b = Ok (Qc_of_Z a / Qc_of_Z b)%Qc.
Proof. intros Hb. unfold true_div. by rewrite (proj2 (Z.eqb_neq b 0) Hb). Qed.

Lemma floor_div_ok a b : b ≠ 0 → floor_div a b = Ok (a / b).
Proof. intros Hb. unfold floor_div. by rewrite (proj2 (Z.eqb_neq b 0) Hb). Qed.

Lemma py_mod_ok a b : b ≠ 0 → py_mod a b = Ok (a mod b).
Proof. intros Hb. unfold py_mod. by rewrite (proj2 (Z.eqb_neq b 0) Hb). Qed.

Lemma total_frames_ok ms fps_num fps_den :
  fps_den ≠ 0 →
  total_frames ms fps_num fps_den
  = Ok (py_round (ms / Qc_of_Z 1000 * (Qc_of_Z fps_num / Qc_of_Z fps_den))%Qc).
Proof. intros Hd. unfold total_frames. by rewrite true_div_ok. Qed.

Lemma fps_base_ok fps_num fps_den :
  fps_den ≠ 0 →
  fps_base fps_num fps_den = Ok (py_round (Qc_of_Z fps_num / Qc_of_Z fps_den)%Qc).
Proof. intros Hd. unfold fps_base. by rewrite true_div_ok. Qed.

(** The H/M/S/F digits of a frame count at a positive base. *)
Lemma frame_digits tf base :
  0 < base →
  let h := tf / (base * 3600) in
  let rem := tf mod (base * 3600) in
  let m := rem / (base * 60) in
  let rem' := rem mod (base * 60) in
  let s := rem' / base in
  let f := rem' mod base in
  tf = h * 3600 * base + m * 60 * base + s * base + f
  ∧ 0 ≤ m < 60 ∧ 0 ≤ s < 60 ∧ 0 ≤ f < base.
Proof.
  intros Hbase. cbv zeta.
  pose proof (Z.div_mod tf (base * 3600) ltac:(lia)) as H1.
  pose proof (Z.mod_pos_bound tf (base * 3600) ltac:(lia)) as B1.
  set (rem := tf mod (base * 3600)) in *.
  pose proof (Z.div_mod rem (base * 60) ltac:(lia)) as H2.
  pose proof (Z.mod_pos_bound rem (base * 60) ltac:(lia)) as B2.
  set (rem' := rem mod (base * 60)) in *.
  pose proof (Z.div_mod rem' base ltac:(lia)) as H3.
  pose proof (Z.mod_pos_bound rem' base ltac:(lia)) as B3.
  assert (0 ≤ rem / (base * 60) < 60).
  { split; [apply Z.div_pos; lia|apply Z.div_lt_upper_bound; lia]. }
  assert (0 ≤ rem' / base < 60).
  { split; [apply Z.div_pos; lia|apply Z.div_lt_upper_bound; lia]. }
  split_and!; lia.
Qed.

Lemma ms_to_tc_ok ms fps_num fps_den tf base :
  total_frames ms fps_num fps_den = Ok tf →
  fps_base fps_num fps_den = Ok base →
  base ≠ 0 →
  _ms_to_tc ms fps_num fps_den
  = Ok (tc_string (tf / (base * 3600))
                  (tf mod (base * 3600) / (base * 60))
                  ((tf mod (base * 3600)) mod (base * 60) / base)
                  (((tf mod (base * 3600)) mod (base * 60)) mod base)).
Proof.
  intros Htf Hbase Hnz. unfold _ms_to_tc. rewrite Htf, Hbase. cbn.
  repeat (first [rewrite floor_div_ok by lia | rewrite py_mod_ok by lia]; cbn).
  done.
Qed.

Lemma tc_to_pts_ok h m s f fps_num fps_den base :
  fps_base fps_num fps_den = Ok base → fps_num ≠ 0 →
  _tc_to_pts (tc_string h m s f) fps_num fps_den
  = Ok ((h * 3600 * base + m * 60 * base + s * base + f) * 90000 * fps_den
        / fps_num).
Proof.
  intros Hbase Hnum. unfold _tc_to_pts. rewrite parse_tc_string, Hbase. cbn.
  by rewrite floor_div_ok.
Qed.



(** *** The round trip *)

(** Integer constants and their inverses, as fractions [lra] reads. *)
Ltac q_consts :=
  repeat match goal with
    | |- context [Qinv (inject_Z (Zpos ?p))] =>
        let v := eval vm_compute in (Qinv (inject_Z (Zpos p))) in
        change (Qinv (inject_Z (Zpos p))) with v
    | H : context [Qinv (inject_Z (Zpos ?p))] |- _ =>
        let v := eval vm_compute in (Qinv (inject_Z (Zpos p))) in
        change (Qinv (inject_Z (Zpos p))) with v in H
    | |- context [inject_Z (Zpos ?p)] =>
        change (inject_Z (Zpos p)) with (Zpos p # 1)%Q
    | H : context [inject_Z (Zpos ?p)] |- _ =>
        change (inject_Z (Zpos p)) with (Zpos p # 1)%Q in H
    end.

Ltac qc_to_q :=
  unfold Qcle, Qclt, Qcdiv, Qcminus, Qcopp, Qcinv, Qcmult, Qcplus in *;
  cbn [this Q2Qc Qc_of_Z] in *;
  repeat (rewrite ?Qred_correct in *; cbn [this Q2Qc Qc_of_Z] in * ).

(** The frame count is within half a frame of the time, and the time
    stamp within one tick below the frame count. *)
Lemma roundtrip_facts (ms : Qc) (fps_num fps_den : Z) :
  0 < fps_num →
  let tf := py_round (ms / Qc_of_Z 1000 * (Qc_of_Z fps_num / Qc_of_Z fps_den))%Qc in
  let pts := tf * 90000 * fps_den / fps_num in
  (inject_Z tf - (1 # 2)
     <= ms * / inject_Z 1000 * (inject_Z fps_num * / inject_Z fps_den)
     <= inject_Z tf + (1 # 2))%Q
  ∧ (inject_Z fps_num * inject_Z pts
       <= inject_Z tf * inject_Z 90000 * inject_Z fps_den)%Q
  ∧ (inject_Z tf * inject_Z 90000 * inject_Z fps_den
       < inject_Z fps_num * inject_Z pts + inject_Z fps_num)%Q.
Proof.
  intros Hnum tf pts.
  pose proof (py_round_spec
                (ms / Qc_of_Z 1000 * (Qc_of_Z fps_num / Qc_of_Z fps_den))%Qc)
    as Hround.
  fold tf in Hround. qc_to_q. split; [exact Hround|].
  pose proof (Z.mul_div_le (tf * 90000 * fps_den) fps_num Hnum) as Hlo.
  pose proof (Z.mul_succ_div_gt (tf * 90000 * fps_den) fps_num Hnum) as Hhi.
  fold pts in Hlo, Hhi.
  rewrite Zle_Qle in Hlo. rewrite Zlt_Qlt in Hhi.
  replace (fps_num * Z.succ pts) with (fps_num * pts + fps_num) in Hhi by lia.
  rewrite !inject_Z_mult in Hlo. rewrite inject_Z_plus, !inject_Z_mult in Hhi.
  by split.
Qed.

Lemma roundtrip_bound (ms : Qc) (fps_num fps_den : Z) :
  (fps_num, fps_den) ∈ fps_table →
  let tf := py_round (ms / Qc_of_Z 1000 * (Qc_of_Z fps_num / Qc_of_Z fps_den))%Qc in
  let pts := tf * 90000 * fps_den / fps_num in
  (ms - frame_ms fps_num fps_den ≤ pts_ms pts
   ∧ pts_ms pts ≤ ms + frame_ms fps_num fps_den)%Qc.
Proof.
  intros Hin tf pts. unfold fps_table in Hin.
  assert (Hpos : 0 < fps_num).
  { repeat (apply elem_of_cons in Hin as [[= -> ->]|Hin]; [lia|]).
    by apply elem_of_nil in Hin. }
  destruct (roundtrip_facts ms fps_num fps_den Hpos) as (Hround & Hlo & Hhi).
  fold tf in Hround, Hlo, Hhi. fold pts in Hlo, Hhi.
  unfold frame_ms, pts_ms.
  generalize dependent pts. generalize dependent tf. intros tf Hround pts Hlo Hhi.
  repeat (apply elem_of_cons in Hin as [[= -> ->]|Hin];
          [qc_to_q; q_consts; split; lra|]).
  by apply elem_of_nil in Hin.
Qed.

Lemma fps_table_base fps_num fps_den :
  (fps_num, fps_den) ∈ fps_table →
  0 < fps_num ∧ 0 < fps_den
  ∧ 0 < py_round (Qc_of_Z fps_num / Qc_of_Z fps_den)%Qc.
Proof.
  intros Hin. unfold fps_table in Hin.
  repeat (apply elem_of_cons in Hin as [[= -> ->]|Hin]; [by vm_compute|]).
  by apply elem_of_nil in Hin.
Qed.

(** C5: for every time [ms >= 0] and every frame rate of the table,
    [_ms_to_tc] returns a timecode, [_tc_to_pts] reads it back at the
    same nominal base into exactly the frame count that was printed, the
    time stamp is [(total_frames * 90000 * fps_den) // fps_num], and back
    in milliseconds ([pts / 90]) it is within one frame duration
    ([1000 * fps_den / fps_num] ms) of [ms]. *)
Theorem timecode_roundtrip (ms : Qc) (fps_num fps_den : Z) :
  (0 ≤ ms)%Qc →
  (fps_num, fps_den) ∈ fps_table →
  ∃ tf tc pts,
    total_frames ms fps_num fps_den = Ok tf
    ∧ _ms_to_tc ms fps_num fps_den = Ok tc
    ∧ _tc_to_pts tc fps_num fps_den = Ok pts
    ∧ pts = (tf * 90000 * fps_den) / fps_num
    ∧ (ms - frame_ms fps_num fps_den ≤ pts_ms pts)%Qc
    ∧ (pts_ms pts ≤ ms + frame_ms fps_num fps_den)%Qc.
Proof.
  intros _ Hin.
  destruct (fps_table_base fps_num fps_den Hin) as (Hnum & Hden & Hbase).
  set (base := py_round (Qc_of_Z fps_num / Qc_of_Z fps_den)%Qc) in *.
  set (tf := py_round (ms / Qc_of_Z 1000 * (Qc_of_Z fps_num / Qc_of_Z fps_den))%Qc).
  assert (Htf : total_frames ms fps_num fps_den = Ok tf)
    by (apply total_frames_ok; lia).
  assert (Hb : fps_base fps_num fps_den = Ok base)
    by (apply fps_base_ok; lia).
  destruct (frame_digits tf base Hbase) as (Hsum & _).
  eexists tf, _, _. split_and!.
  - exact Htf.
  - apply (ms_to_tc_ok ms fps_num fps_den tf base Htf Hb). lia.
  - apply (tc_to_pts_ok _ _ _ _ fps_num fps_den base Hb). lia.
  - by rewrite <-Hsum.
  - rewrite <-Hsum. apply (roundtrip_bound ms fps_num fps_den Hin).
  - rewrite <-Hsum. apply (roundtrip_bound ms fps_num fps_den Hin).
Qed.

Lemma timecode_roundtrip_witness :
  (0 ≤ Qc_of_Z 1001)%Qc
  ∧ (24000, 1001) ∈ fps_table
  ∧ ∃ tf tc pts,
      total_frames (Qc_of_Z 1001) 24000 1001 = Ok tf
      ∧ _ms_to_tc (Qc_of_Z 1001) 24000 1001 = Ok tc
      ∧ _tc_to_pts tc 24000 1001 = Ok pts
      ∧ pts = (tf * 90000 * 1001) / 24000
      ∧ (Qc_of_Z 1001 - frame_ms 24000 1001 ≤ pts_ms pts)%Qc
      ∧ (pts_ms pts ≤ Qc_of_Z 1001 + frame_ms 24000 1001)%Qc.
Proof.
  assert (Hms : (0 ≤ Qc_of_Z 1001)%Qc) by (by vm_compute).
  assert (Hin : (24000, 1001) ∈ fps_table) by (unfold fps_table; left).
  split; [exact Hms|]. split; [exact Hin|].
  exact (timecode_roundtrip (Qc_of_Z 1001) 24000 1001 Hms Hin).
Defined.

Example timecode_roundtrip_sample :
  _ms_to_tc (Qc_of_Z 1001) 24000 1001 = Ok "00:00:01:00"%string
  ∧ _tc_to_pts "00:00:01:00" 24000 1001 = Ok 90090.
Proof. split; by vm_compute. Qed.

(** *** Timecodes that do not parse *)

Lemma parse_tc_None tc :
  (∀ hh mm ss ff,
     py_int <$> split_on ":" (list_ascii_of_string tc)
     ≠ [Ok hh; Ok mm; Ok ss; Ok ff]) →
  parse_tc tc = None.
Proof.
  intros Hbad. unfold parse_tc.
  destruct (py_int <$> split_on ":" (list_ascii_of_string tc))
    as [|[hh|] [|[mm|] [|[ss|] [|[ff|] [|]]]]]; try done.
  by destruct (Hbad hh mm ss ff).
Qed.




End TimecodeTheory.

(** ** Quantization *)

Module QuantizeTheory.
Import Img Quantize.

(** *** The colour map *)

Lemma color_map_snoc (palette : list rgba) (c : rgba) :
  color_map (palette ++ [c]) = <[c := length palette]> (color_map palette).
Proof.
  unfold color_map. rewrite imap_app, foldl_app. cbn.
  by rewrite Nat.add_0_r.
Qed.

Lemma color_map_lookup_Some (palette : list rgba) (c : rgba) (i : nat) :
  color_map palette !! c = Some i → palette !! i = Some c.
Proof.
  revert i. induction palette as [|x palette IH] using rev_ind; intros i.
  - unfold color_map. cbn. by rewrite lookup_empty.
  - rewrite color_map_snoc. destruct (decide (x = c)) as [->|Hne].
    + rewrite lookup_insert_eq. intros [= <-]. by apply list_lookup_middle.
    + rewrite lookup_insert_ne by done. intros Hi.
      by apply lookup_app_l_Some, IH.
Qed.

Lemma color_map_lookup_None (palette : list rgba) (c : rgba) :
  color_map palette !! c = None ↔ c ∉ palette.
Proof.
  induction palette as [|x palette IH] using rev_ind.
  - unfold color_map. cbn. rewrite lookup_empty. split; [|done].
    intros _ H. by apply elem_of_nil in H.
  - rewrite color_map_snoc, elem_of_app, list_elem_of_singleton.
    destruct (decide (x = c)) as [->|Hne].
    + rewrite lookup_insert_eq. split; [done|]. intros H. destruct H. by right.
    + rewrite lookup_insert_ne, IH by done. split; [|tauto].
      intros Hnot [?|?]; [done|]. by apply Hne.
Qed.

Lemma color_map_index (palette : list rgba) (p : rgba) :
  (default 0 (color_map palette !! p) < length palette)%nat
  ∨ (palette = [] ∧ default 0%nat (color_map palette !! p) = 0%nat).
Proof.
  destruct (color_map palette !! p) as [i|] eqn:Hi.
  - left. apply color_map_lookup_Some in Hi. by apply lookup_lt_Some in Hi.
  - destruct palette as [|x palette]; [by right|]. left. cbn. lia.
Qed.

(** *** The palette *)

Lemma palette_of_length colors : (length (palette_of colors) ≤ 256)%nat.
Proof. unfold palette_of. cbv zeta. rewrite length_take. lia. Qed.

Lemma palette_of_head colors : ∃ rest, palette_of colors = transparent :: rest.
Proof. unfold palette_of. cbv zeta. by eexists. Qed.

Lemma rgba_to_yuv_transparent : rgba_to_yuv transparent = (16, 128, 128, 0).
Proof. by vm_compute. Qed.

(** *** Enumerating the colours *)

Lemma add_color_colors c l :
  (add_color c l).*2 = if decide (c ∈ l.*2) then l.*2 else l.*2 ++ [c].
Proof.
  induction l as [|[n c'] l IH]; [done|]. cbn [add_color].
  destruct (decide (c = c')) as [->|Hne].
  - rewrite decide_True by (rewrite fmap_cons; left). done.
  - rewrite !fmap_cons, IH. cbn [snd].
    destruct (decide (c ∈ l.*2)) as [Hin|Hnin].
    + by rewrite decide_True by (by right).
    + rewrite decide_False; [done|]. by intros [?|?]%elem_of_cons.
Qed.

Lemma count_colors_acc pixels : ∀ acc,
  NoDup acc.*2 →
  NoDup (foldl (λ acc c, add_color c acc) acc pixels).*2
  ∧ ∀ c, c ∈ (foldl (λ acc c, add_color c acc) acc pixels).*2
         ↔ c ∈ acc.*2 ∨ c ∈ pixels.
Proof.
  induction pixels as [|p pixels IH]; intros acc Hacc; cbn [foldl].
  - split; [done|]. intros c. split; [by left|].
    intros [?|H]; [done|by apply elem_of_nil in H].
  - destruct (IH (add_color p acc)) as [Hnd Hel].
    { rewrite add_color_colors. case_decide; [done|].
      apply NoDup_app. split_and!; [done| |apply NoDup_singleton].
      intros c Hc ->%list_elem_of_singleton. done. }
    split; [done|]. intros c. rewrite Hel, add_color_colors, elem_of_cons.
    case_decide as Hp.
    + split; [tauto|]. intros [?|[->|?]]; auto.
    + rewrite elem_of_app, list_elem_of_singleton. tauto.
Qed.

Lemma count_colors_spec pixels :
  NoDup (count_colors pixels).*2
  ∧ ∀ c, c ∈ (count_colors pixels).*2 ↔ c ∈ pixels.
Proof.
  destruct (count_colors_acc pixels []) as [Hnd Hel]; [constructor|].
  split; [done|]. intros c. rewrite Hel. split; [|by right].
  intros [H|?]; [by apply elem_of_nil in H|done].
Qed.

Lemma remove_first_Permutation x l : x ∈ l → l ≡ₚ x :: remove_first x l.
Proof.
  induction l as [|y l IH]; intros Hx; [by apply elem_of_nil in Hx|].
  cbn [remove_first]. destruct (decide (x = y)) as [->|Hne]; [done|].
  apply elem_of_cons in Hx as [?|Hx]; [done|].
  by rewrite Permutation_swap, <-IH.
Qed.

Section WithColorOrder.
Variable color_order : list (nat * rgba) → list (nat * rgba).

Lemma select_colors_length (pixels : list rgba) :
  length (select_colors color_order pixels).1 = length pixels.
Proof.
  unfold select_colors. cbv zeta.
  destruct (negb (truthy (getcolors color_order 256 pixels)));
    cbn [fst]; by rewrite ?length_fmap.
Qed.

Lemma indexed_pixels_length (pixels : list rgba) :
  length (indexed_pixels color_order pixels) = length pixels.
Proof.
  unfold indexed_pixels. pose proof (select_colors_length pixels) as Hlen.
  destruct (select_colors color_order pixels) as [img colors].
  by rewrite length_fmap.
Qed.

(** C8: for every RGBA bitmap, whatever the order in which the colours
    are enumerated, the palette has at most 256 entries, its entry 0 is
    the fully transparent colour ([(0, 0, 0, 0)], which converts to
    [(16, 128, 128, 0)]), there is one index per pixel, every index is
    below the palette length, and the index of a pixel is that of its
    colour in the palette, or 0 when its colour is not in the palette. *)
Theorem quantize_palette_invariants (pixels : list rgba) :
  let palette_yuv := (_quantize_image color_order pixels).1 in
  let indexed := (_quantize_image color_order pixels).2 in
  let palette := palette_rgba color_order pixels in
  let img := (select_colors color_order pixels).1 in
  (length palette_yuv ≤ 256)%nat
  ∧ length palette_yuv = length palette
  ∧ palette !! 0%nat = Some transparent
  ∧ palette_yuv !! 0%nat = Some (16, 128, 128, 0)
  ∧ length indexed = length pixels
  ∧ Forall (λ i, i < length palette_yuv)%nat indexed
  ∧ Forall2 (λ p i, palette !! i = Some p ∨ ((p ∉ palette) ∧ i = 0%nat))
            img indexed.
Proof.
  cbv zeta. unfold _quantize_image, palette_rgba, indexed_pixels. cbn [fst snd].
  destruct (select_colors color_order pixels) as [img colors] eqn:Hsel.
  cbn [fst snd].
  destruct (palette_of_head colors) as [rest Hpal].
  assert (Himg : length img = length pixels).
  { pose proof (select_colors_length pixels) as Hlen. by rewrite Hsel in Hlen. }
  pose proof (palette_of_length colors) as Hlen.
  remember (palette_of colors) as palette eqn:Hpalette.
  rewrite !length_fmap. split_and!.
  - done.
  - done.
  - by rewrite Hpal.
  - by rewrite Hpal, fmap_cons, rgba_to_yuv_transparent.
  - done.
  - apply Forall_fmap, Forall_forall. intros p _. cbn.
    destruct (color_map_index palette p) as [?|[Hnil _]]; [done|].
    by rewrite Hpal in Hnil.
  - apply Forall2_fmap_r, Forall_Forall2_diag, Forall_forall. intros p _. cbn.
    destruct (color_map palette !! p) as [i|] eqn:Hi; cbn.
    + left. by apply color_map_lookup_Some.
    + right. split; [|done]. by apply color_map_lookup_None.
Qed.

Hypothesis color_order_Permutation : ∀ l, color_order l ≡ₚ l.

Lemma distinct_colors_length pixels :
  length (color_order (count_colors pixels))
  = size (list_to_set pixels : gset rgba).
Proof.
  destruct (count_colors_spec pixels) as [Hnd Hel].
  rewrite color_order_Permutation, <-(length_fmap snd).
  rewrite <-(size_list_to_set (C:=gset rgba)) by done.
  f_equal. apply set_eq. intros c. by rewrite !elem_of_list_to_set.
Qed.

Lemma size_with_transparent pixels :
  (size (list_to_set pixels : gset rgba) ≤ S (size (visible_colors pixels)))%nat.
Proof.
  unfold visible_colors.
  pose proof (size_union_alt ({[transparent]} : gset rgba) (list_to_set pixels)) as Hu.
  rewrite size_singleton in Hu.
  pose proof (subseteq_size (list_to_set pixels : gset rgba)
                ({[transparent]} ∪ list_to_set pixels) ltac:(set_solver)).
  lia.
Qed.

(** With at most 255 colours besides the transparent one, strategy 1
    keeps the image and every colour of it. *)
Lemma select_colors_tier1 pixels :
  pixels ≠ [] →
  (size (visible_colors pixels) ≤ 255)%nat →
  select_colors color_order pixels
  = (pixels, color_order (count_colors pixels)).
Proof.
  intros Hne Hsize. unfold select_colors. cbv zeta.
  assert (Hget : getcolors color_order 256 pixels
                 = Some (color_order (count_colors pixels))).
  { unfold getcolors. cbv zeta. rewrite distinct_colors_length.
    pose proof (size_with_transparent pixels).
    by rewrite (proj2 (Z.leb_le _ _)) by lia. }
  rewrite Hget.
  destruct (color_order (count_colors pixels)) as [|x cs] eqn:Hcs; [|done].
  exfalso. destruct (count_colors_spec pixels) as [_ Hel].
  destruct pixels as [|p pixels]; [done|].
  assert (Hp : p ∈ (count_colors (p :: pixels)).*2) by (apply Hel; left).
  rewrite <-(color_order_Permutation (count_colors (p :: pixels))), Hcs in Hp.
  by apply elem_of_nil in Hp.
Qed.

Lemma palette_of_tier1 pixels :
  (size (visible_colors pixels) ≤ 255)%nat →
  ∀ p, p ∈ pixels → p ∈ palette_of (color_order (count_colors pixels)).
Proof.
  intros Hsize p Hp. unfold palette_of. cbv zeta.
  destruct (count_colors_spec pixels) as [Hnd Hel].
  set (raw := (color_order (count_colors pixels)).*2).
  assert (Hraw_nd : NoDup raw) by (unfold raw; by rewrite color_order_Permutation).
  assert (Hraw_el : ∀ c, c ∈ raw ↔ c ∈ pixels).
  { intros c. unfold raw. by rewrite color_order_Permutation. }
  set (raw' := if decide (transparent ∈ raw) then remove_first transparent raw
               else raw).
  assert (Hraw' : NoDup raw' ∧ ∀ c, c ∈ raw' ↔ c ∈ raw ∧ c ≠ transparent).
  { unfold raw'. case_decide as Ht.
    - pose proof (remove_first_Permutation transparent raw Ht) as Hperm.
      assert (Hmem : ∀ c, c ∈ raw
                ↔ c ∈ transparent :: remove_first transparent raw).
      { intros c. by rewrite <-Hperm. }
      rewrite Hperm in Hraw_nd. apply NoDup_cons in Hraw_nd as [Hnotin Hnd'].
      split; [done|]. intros c. rewrite Hmem, elem_of_cons. split.
      + intros Hc. split; [by right|]. by intros ->.
      + intros [[?|?] ?]; done.
    - split; [done|]. intros c. split; [|tauto].
      intros Hc. split; [done|]. by intros ->. }
  destruct Hraw' as [Hnd' Hel'].
  assert (Hlen : (length raw' ≤ 255)%nat).
  { rewrite <-(size_list_to_set (C:=gset rgba)) by done.
    etrans; [|exact Hsize]. apply subseteq_size. unfold visible_colors.
    intros c. rewrite elem_of_list_to_set, Hel', Hraw_el.
    rewrite elem_of_difference, elem_of_list_to_set, elem_of_singleton. done. }
  rewrite take_ge by (cbn; lia).
  destruct (decide (p = transparent)) as [->|Hpt]; [left|].
  right. apply Hel'. split; [by apply Hraw_el|done].
Qed.

(** C9, as the code has it: for every RGBA bitmap with at most 255
    distinct colours besides the fully transparent one (so at most 256
    with it), whatever the order in which the colours are enumerated,
    the bitmap is indexed as it is (not posterized) and the index of
    every pixel leads, through the RGBA palette, back to the colour of
    that pixel. *)
Theorem tier1_quantization_exact (pixels : list rgba) :
  (size (visible_colors pixels) ≤ 255)%nat →
  length (indexed_pixels color_order pixels) = length pixels
  ∧ ∀ k p, pixels !! k = Some p →
      ∃ i, indexed_pixels color_order pixels !! k = Some i
           ∧ palette_rgba color_order pixels !! i = Some p.
Proof.
  intros Hsize. destruct pixels as [|p0 pixels'].
  { split; [apply indexed_pixels_length|by intros k p Hk]. }
  set (pixels := p0 :: pixels') in *.
  assert (Hsel := select_colors_tier1 pixels ltac:(done) Hsize).
  unfold indexed_pixels, palette_rgba. rewrite Hsel. cbn [snd].
  split; [by rewrite length_fmap|].
  intros k p Hk.
  pose proof (palette_of_tier1 pixels Hsize p
                ltac:(by eapply list_elem_of_lookup_2)) as Hin.
  remember (palette_of (color_order (count_colors pixels))) as palette.
  rewrite list_lookup_fmap, Hk. cbn.
  destruct (color_map palette !! p) as [i|] eqn:Hi.
  - exists i. split; [done|]. by apply color_map_lookup_Some.
  - by apply color_map_lookup_None in Hi.
Qed.

(** Whatever the order of enumeration, a bitmap of 256 distinct opaque
    colours has a pixel whose colour is cut from the palette and whose
    index is 0. *)
Lemma ramp_256_loses_a_color :
  ∃ k p, ramp_256 !! k = Some p
         ∧ (p ∉ palette_rgba color_order ramp_256)
         ∧ indexed_pixels color_order ramp_256 !! k = Some 0%nat.
Proof.
  assert (Hnd : NoDup ramp_256).
  { unfold ramp_256. apply NoDup_fmap_2; [|apply NoDup_seq].
    intros i j [= Hij]. lia. }
  assert (Hopaque : ∀ p, p ∈ ramp_256 → p ≠ transparent).
  { unfold ramp_256. intros p (i & -> & _)%list_elem_of_fmap. done. }
  assert (Hlen : length ramp_256 = 256%nat) by done.
  assert (Hsel : select_colors color_order ramp_256
                 = (ramp_256, color_order (count_colors ramp_256))).
  { unfold select_colors. cbv zeta.
    assert (Hget : getcolors color_order 256 ramp_256
                   = Some (color_order (count_colors ramp_256))).
    { unfold getcolors. cbv zeta. rewrite distinct_colors_length.
      rewrite size_list_to_set, Hlen by done. done. }
    rewrite Hget.
    destruct (color_order (count_colors ramp_256)) as [|x cs] eqn:Hcs; [|done].
    pose proof (distinct_colors_length ramp_256) as Hd.
    rewrite Hcs, size_list_to_set, Hlen in Hd by done. done. }
  unfold palette_rgba, indexed_pixels. rewrite Hsel. cbn [snd].
  pose proof (palette_of_length (color_order (count_colors ramp_256))) as Hpl.
  destruct (palette_of_head (color_order (count_colors ramp_256)))
    as [rest Hpal].
  remember (palette_of (color_order (count_colors ramp_256))) as palette.
  destruct (decide (Forall (λ p, p ∈ palette) ramp_256)) as [Hall|Hnot].
  - exfalso. rewrite Forall_forall in Hall.
    assert (Hsub : ramp_256 ⊆+ rest).
    { apply NoDup_submseteq; [done|]. intros p Hp.
      specialize (Hall p Hp). rewrite Hpal in Hall.
      apply elem_of_cons in Hall as [->|?]; [|done]. by destruct (Hopaque _ Hp). }
    apply submseteq_length in Hsub. rewrite Hpal in Hpl. cbn in Hpl. lia.
  - apply not_Forall_Exists in Hnot; [|apply _].
    apply Exists_exists in Hnot as (p & Hp & Hnotin).
    apply list_elem_of_lookup in Hp as [k Hk].
    exists k, p. split_and!; [done|done|].
    rewrite list_lookup_fmap, Hk. cbn.
    by rewrite (proj2 (color_map_lookup_None palette p) Hnotin).
Qed.

End WithColorOrder.

Lemma tier1_quantization_exact_witness :
  (∀ l, first_occurrence_order l ≡ₚ l)
  ∧ (size (visible_colors four_pixels) ≤ 255)%nat
  ∧ length (indexed_pixels first_occurrence_order four_pixels) = length four_pixels
  ∧ ∀ k p,
      four_pixels !! k = Some p →
      ∃ i, indexed_pixels first_occurrence_order four_pixels !! k = Some i
           ∧ palette_rgba first_occurrence_order four_pixels !! i = Some p.
Proof.
  assert (Hperm : ∀ l, first_occurrence_order l ≡ₚ l) by reflexivity.
  assert (Hsize : (size (visible_colors four_pixels) ≤ 255)%nat)
    by (vm_compute; lia).
  split; [exact Hperm|]. split; [exact Hsize|].
  exact (tier1_quantization_exact first_occurrence_order Hperm four_pixels Hsize).
Defined.

(** C9 as stated fails on a bitmap of exactly 256 distinct opaque
    colours: the palette is cut to the transparent entry and 255 of the
    colours, and the pixels of the colour that is cut get index 0, the
    transparent entry. *)
Lemma tier1_256_colors_counterexample :
  size (list_to_set ramp_256 : gset rgba) = 256%nat
  ∧ (select_colors first_occurrence_order ramp_256).1 = ramp_256
  ∧ ramp_256 !! 255%nat = Some (255, 0, 0, 255)
  ∧ indexed_pixels first_occurrence_order ramp_256 !! 255%nat = Some 0%nat
  ∧ palette_rgba first_occurrence_order ramp_256 !! 0%nat = Some (0, 0, 0, 0)
  ∧ (255, 0, 0, 255) ∉ palette_rgba first_occurrence_order ramp_256.
Proof.
  split_and!; try (by vm_compute).
  apply (bool_decide_unpack _). by vm_compute.
Qed.

End QuantizeTheory.

(** ** Segments *)

Module SegmentsTheory.
Import Struct Segments RleTheory.

Lemma pack_field_inv f v bs :
  pack_field f v = Ok bs →
  match f with
  | B => 0 ≤ v ≤ 0xFF ∧ bs = [v]
  | H => 0 ≤ v ≤ 0xFFFF ∧ bs = be16 v
  | I => 0 ≤ v ≤ 0xFFFFFFFF ∧ bs = be32 v
  end.
Proof.
  destruct f; cbn [pack_field]; unfold pack_B.
  - destruct (_ && _) eqn:E; cbn; [|done]. intros [= <-]. split; [lia|done].
  - destruct (_ && _) eqn:E; [|done]. intros [= <-]. split; [lia|done].
  - destruct (_ && _) eqn:E; [|done]. intros [= <-]. split; [lia|done].
Qed.

Lemma pack_field_raise f v e : pack_field f v = Raise e → e = StructError.
Proof.
  destruct f; cbn [pack_field]; unfold pack_B;
    destruct (_ && _); cbn; congruence.
Qed.

Lemma pack_raise fmt : ∀ vs e, pack fmt vs = Raise e → e = StructError.
Proof.
  induction fmt as [|f fmt IH]; intros [|v vs] e; cbn [pack]; try congruence.
  destruct (pack_field f v) eqn:E1; cbn.
  - destruct (pack fmt vs) eqn:E2; cbn; [done|]. intros [= <-]. by eapply IH.
  - intros [= <-]. by eapply pack_field_raise.
Qed.

Lemma pack_B_ok v rest vs :
  0 ≤ v ≤ 0xFF → pack (B :: rest) (v :: vs) = (r ← pack rest vs; Ok (v :: r)).
Proof.
  intros. cbn [pack pack_field]. rewrite pack_B_byte by lia. done.
Qed.

Lemma pack_H_ok v rest vs :
  0 ≤ v ≤ 0xFFFF →
  pack (H :: rest) (v :: vs) = (r ← pack rest vs; Ok (be16 v ++ r)).
Proof.
  intros. cbn [pack pack_field].
  destruct (_ && _) eqn:E; [done|lia].
Qed.

Lemma pack_I_ok v rest vs :
  0 ≤ v ≤ 0xFFFFFFFF →
  pack (I :: rest) (v :: vs) = (r ← pack rest vs; Ok (be32 v ++ r)).
Proof.
  intros. cbn [pack pack_field].
  destruct (_ && _) eqn:E; [done|lia].
Qed.

Lemma pack_field_B_ok v : 0 ≤ v ≤ 0xFF → pack_field B v = Ok [v].
Proof. intros. cbn [pack_field]. by rewrite pack_B_byte by lia. Qed.

Lemma pack_field_H_ok v : 0 ≤ v ≤ 0xFFFF → pack_field H v = Ok (be16 v).
Proof. intros. cbn [pack_field]. destruct (_ && _) eqn:E; [done|lia]. Qed.

Lemma pack_field_I_ok v : 0 ≤ v ≤ 0xFFFFFFFF → pack_field I v = Ok (be32 v).
Proof. intros. cbn [pack_field]. destruct (_ && _) eqn:E; [done|lia]. Qed.

(** Evaluates the [pack] calls of the goal whose values fit. *)
Ltac pack_ok :=
  cbn [pack];
  rewrite ?pack_field_B_ok, ?pack_field_H_ok, ?pack_field_I_ok by lia;
  cbn [mbind result_bind Py.bind].

Lemma pack_cons_inv f fmt v vs bs :
  pack (f :: fmt) (v :: vs) = Ok bs →
  ∃ b r, pack_field f v = Ok b ∧ pack fmt vs = Ok r ∧ bs = b ++ r.
Proof.
  cbn [pack]. destruct (pack_field f v) as [b|]; cbn; [|done].
  destruct (pack fmt vs) as [r|]; cbn; [|done].
  intros [= <-]. eauto.
Qed.

Lemma from_bytes_big_app bs cs :
  from_bytes_big (bs ++ cs)
  = from_bytes_big bs * 256 ^ Z.of_nat (length cs) + from_bytes_big cs.
Proof.
  unfold from_bytes_big. revert bs.
  induction cs as [|c cs IH] using rev_ind; intros bs.
  - rewrite app_nil_r. cbn. lia.
  - rewrite app_assoc, foldl_app. cbn [foldl]. rewrite IH, foldl_app.
    cbn [foldl].
    rewrite length_app. cbn [length].
    replace (Z.of_nat (length cs + 1)) with (Z.of_nat (length cs) + 1) by lia.
    rewrite Z.pow_add_r by lia. change (256 ^ 1) with 256. ring.
Qed.

Lemma from_bytes_be16 v : 0 ≤ v → from_bytes_big (be16 v) = v.
Proof.
  intros. unfold from_bytes_big, be16. cbn [foldl].
  pose proof (Z.div_mod v 256 ltac:(lia)). lia.
Qed.

Lemma from_bytes_be32 v : 0 ≤ v → from_bytes_big (be32 v) = v.
Proof.
  intros. unfold from_bytes_big, be32. cbn [foldl].
  pose proof (Z.div_mod v 256 ltac:(lia)).
  pose proof (Z.div_mod (v / 256) 256 ltac:(lia)).
  pose proof (Z.div_mod (v / 256 / 256) 256 ltac:(lia)).
  rewrite !Z.div_div in * by lia.
  change (256 * 256) with 65536 in *. change (65536 * 256) with 16777216 in *.
  lia.
Qed.

Ltac byte_bound :=
  match goal with
  | |- context [?a mod 256] =>
      pose proof (Z.mod_pos_bound a 256 ltac:(lia)); lia
  | |- 0 ≤ ?a / ?b => apply Z.div_pos; lia
  | |- ?a / ?b ≤ 255 => apply Z.lt_succ_r, Z.div_lt_upper_bound; lia
  end.

Lemma be16_bytes v : 0 ≤ v ≤ 0xFFFF → is_bytes (be16 v).
Proof.
  intros. unfold be16, be32. repeat constructor; byte_bound.
Qed.

Lemma be32_bytes v : 0 ≤ v ≤ 0xFFFFFFFF → is_bytes (be32 v).
Proof.
  intros. unfold be16, be32. repeat constructor; byte_bound.
Qed.

(** The packet of [_create_packet], for fields that fit. *)
Lemma create_packet_ok pts dts ty payload :
  0 ≤ pts ≤ 0xFFFFFFFF → 0 ≤ dts ≤ 0xFFFFFFFF → 0 ≤ ty ≤ 0xFF →
  Z.of_nat (length payload) ≤ 0xFFFF →
  _create_packet pts dts ty payload
  = Ok ([80; 71] ++ be32 pts ++ be32 dts ++ [ty]
          ++ be16 (Z.of_nat (length payload)) ++ payload).
Proof.
  intros. unfold _create_packet.
  rewrite !pack_I_ok, pack_B_ok, pack_H_ok by lia. done.
Qed.

Lemma create_packet_inv pts dts ty payload pkt :
  _create_packet pts dts ty payload = Ok pkt →
  0 ≤ pts ≤ 0xFFFFFFFF ∧ 0 ≤ dts ≤ 0xFFFFFFFF ∧ 0 ≤ ty ≤ 0xFF
  ∧ Z.of_nat (length payload) ≤ 0xFFFF
  ∧ pkt = [80; 71] ++ be32 pts ++ be32 dts ++ [ty]
            ++ be16 (Z.of_nat (length payload)) ++ payload.
Proof.
  unfold _create_packet. cbn [pack pack_field]. unfold pack_B.
  destruct ((0 <=? pts) && _) eqn:E1; cbn; [|done].
  destruct ((0 <=? dts) && _) eqn:E2; cbn; [|done].
  destruct ((0 <=? ty) && _) eqn:E3; cbn; [|done].
  destruct ((0 <=? Z.of_nat _) && _) eqn:E4; cbn; [|done].
  intros [= <-]. split_and!; try lia. done.
Qed.

Lemma create_packet_raise pts dts ty payload e :
  _create_packet pts dts ty payload = Raise e → e = StructError.
Proof.
  unfold _create_packet. cbn [pack pack_field]. unfold pack_B.
  destruct ((0 <=? pts) && _); cbn; [|by intros [= <-]].
  destruct ((0 <=? dts) && _); cbn; [|by intros [= <-]].
  destruct ((0 <=? ty) && _); cbn; [|by intros [= <-]].
  destruct ((0 <=? Z.of_nat _) && _); cbn; [|by intros [= <-]]. done.
Qed.

(** *** Object definition segments *)

Lemma max_chunk_val : Z.of_nat max_chunk = 60000.
Proof. reflexivity. Qed.

Local Opaque max_chunk.

Lemma land_byte a : 0 ≤ Z.land a 0xFF ≤ 0xFF ∧ Z.land a 0xFF = a mod 256.
Proof.
  change 0xFF with (Z.ones 8). rewrite Z.land_ones by lia.
  change (2 ^ 8) with 256. pose proof (Z.mod_pos_bound a 256 ltac:(lia)).
  change (Z.ones 8) with 255. lia.
Qed.

Lemma land_word a :
  0 ≤ Z.land a 0xFFFF ≤ 0xFFFF ∧ Z.land a 0xFFFF = a mod 65536.
Proof.
  change 0xFFFF with (Z.ones 16). rewrite Z.land_ones by lia.
  change (2 ^ 16) with 65536. pose proof (Z.mod_pos_bound a 65536 ltac:(lia)).
  change (Z.ones 16) with 65535. lia.
Qed.

(** The three bytes of the object length hold it modulo 2^24. *)
Lemma object_length_bytes (len : Z) :
  0 ≤ len →
  from_bytes_big ([Z.land (Z.shiftr len 16) 0xFF] ++ be16 (Z.land len 0xFFFF))
  = len mod 16777216.
Proof.
  intros. destruct (land_byte (Z.shiftr len 16)) as [_ ->].
  destruct (land_word len) as [_ ->].
  pose proof (Z.mod_pos_bound len 65536 ltac:(lia)).
  rewrite from_bytes_big_app, from_bytes_be16 by lia.
  unfold from_bytes_big, be16. cbn [foldl length].
  rewrite Z.shiftr_div_pow2 by lia. change (2 ^ 16) with 65536.
  change (256 ^ Z.of_nat 2) with 65536.
  change 16777216 with (65536 * 256).
  rewrite (Z.rem_mul_r len 65536 256) by lia. lia.
Qed.

Section Fragments.

Variables (pts obj_id w h : Z) (rle_data : list Z).
Hypothesis pts_fits : 0 ≤ pts ≤ 0xFFFFFFFF.
Hypothesis obj_id_fits : 0 ≤ obj_id ≤ 0xFFFF.
Hypothesis w_fits : 0 ≤ w ≤ 0xFFFF.
Hypothesis h_fits : 0 ≤ h ≤ 0xFFFF.

Lemma ods_fragment_ok (offset : nat) :
  let n := length rle_data in
  let flag :=
    (if (offset =? 0)%nat then 0x80 else 0)
    + (if (n <=? offset + chunk_len n offset)%nat then 0x40 else 0) in
  let extra :=
    if (offset =? 0)%nat then
      [Z.land (Z.shiftr (Z.of_nat n + 4) 16) 0xFF]
        ++ be16 (Z.land (Z.of_nat n + 4) 0xFFFF) ++ be16 w ++ be16 h
    else [] in
  let body :=
    be16 obj_id ++ [0; flag] ++ extra
      ++ take (chunk_len n offset) (drop offset rle_data) in
  ods_fragment pts obj_id w h rle_data offset
  = Ok ([80; 71] ++ be32 pts ++ be32 pts ++ [0x15]
          ++ be16 (Z.of_nat (length body)) ++ body).
Proof.
  intros n flag extra body. unfold ods_fragment. fold n.
  pose proof max_chunk_val as Hmax.
  assert (Hchunk : (length (take (chunk_len n offset) (drop offset rle_data))
                    ≤ max_chunk)%nat).
  { rewrite length_take. unfold chunk_len. lia. }
  destruct (land_byte (Z.shiftr (Z.of_nat n + 4) 16)) as [Hb _].
  destruct (land_word (Z.of_nat n + 4)) as [Hw _].
  subst body extra flag.
  destruct (offset =? 0)%nat eqn:Eo;
    destruct (n <=? offset + chunk_len n offset)%nat eqn:El;
    try change (Z.lor (Z.lor 0 128) 64) with 192;
    try change (Z.lor 0 128) with 128; try change (Z.lor 0 64) with 64;
    try change (128 + 64) with 192; try change (128 + 0) with 128;
    try change (0 + 64) with 64; try change (0 + 0) with 0;
    pack_ok;
    match goal with
    | |- _create_packet _ _ _ ?X
         = Ok (_ ++ _ ++ _ ++ _ ++ be16 (Z.of_nat (length ?Y)) ++ _) =>
        replace X with Y
          by (rewrite <- ?app_assoc; cbn [app]; by rewrite ?app_nil_r)
    end;
    apply create_packet_ok; try lia;
    rewrite ?length_app; unfold be16; cbn [length]; lia.
Qed.

Lemma chunk_len_cases (n offset : nat) :
  (offset < n)%nat →
  (chunk_len n offset = max_chunk ∧ (offset + max_chunk ≤ n)%nat)
  ∨ (chunk_len n offset = (n - offset)%nat ∧ (n < offset + max_chunk)%nat).
Proof. unfold chunk_len. pose proof max_chunk_val. lia. Qed.

(** The loop returns, and its packet number [i] is the fragment that
    starts at [offset + i * max_chunk]. *)
Lemma ods_loop_spec (fuel : nat) : ∀ offset,
  (length rle_data - offset ≤ fuel)%nat →
  ∃ pkts,
    ods_loop fuel pts obj_id w h rle_data offset = Ok pkts
    ∧ Z.of_nat (length pkts)
      = (Z.of_nat (length rle_data - offset) + 59999) / 60000
    ∧ ∀ i pkt, pkts !! i = Some pkt →
        (offset + i * max_chunk < length rle_data)%nat
        ∧ ods_fragment pts obj_id w h rle_data (offset + i * max_chunk)
          = Ok pkt.
Proof.
  pose proof max_chunk_val as Hmax.
  induction fuel as [|fuel IH]; intros offset Hfuel; cbn [ods_loop];
    destruct (offset <? length rle_data)%nat eqn:E;
    try (apply Nat.ltb_lt in E; lia).
  - exists []. split; [done|]. split; [|by intros i pkt; rewrite lookup_nil].
    apply Nat.ltb_ge in E.
    replace (length rle_data - offset)%nat with 0%nat by lia. done.
  - apply Nat.ltb_lt in E.
    rewrite ods_fragment_ok. cbn [mbind result_bind Py.bind].
    destruct (IH (offset + chunk_len (length rle_data) offset)%nat)
      as (rest & -> & Hlen & Hrest).
    { destruct (chunk_len_cases (length rle_data) offset E); lia. }
    cbn [mbind result_bind Py.bind]. eexists. split; [done|]. split.
    + cbn [length]. rewrite Nat2Z.inj_succ, Hlen.
      destruct (chunk_len_cases (length rle_data) offset E)
        as [[-> ?]|[-> ?]].
      * replace (Z.of_nat (length rle_data - offset) + 59999)
          with (Z.of_nat (length rle_data - (offset + max_chunk)) + 59999
                + 1 * 60000) by lia.
        rewrite Z.div_add by lia. lia.
      * replace (length rle_data - (offset + (length rle_data - offset)))%nat
          with 0%nat by lia.
        change (Z.succ (_ / _)) with 1.
        apply Z.div_unique with (Z.of_nat (length rle_data - offset) - 1);
          lia.
    + intros [|i] pkt Hi.
      * injection Hi as <-. rewrite Nat.mul_0_l, Nat.add_0_r. split; [lia|].
        apply ods_fragment_ok.
      * cbn [lookup list_lookup] in Hi. apply Hrest in Hi as [Hlt Hfrag].
        destruct (chunk_len_cases (length rle_data) offset E)
          as [[Hc ?]|[Hc ?]]; rewrite Hc in *; [|lia].
        replace (offset + S i * max_chunk)%nat
          with (offset + max_chunk + i * max_chunk)%nat by lia.
        exact (conj Hlt Hfrag).
  - exists []. split; [done|]. split; [|by intros i pkt; rewrite lookup_nil].
    apply Nat.ltb_ge in E.
    replace (length rle_data - offset)%nat with 0%nat by lia. done.
Qed.

(** The data bytes of the packets of the loop, each without its
    headers, are the data from [offset] on. *)
Lemma ods_loop_concat (fuel : nat) : ∀ offset pkts,
  ods_loop fuel pts obj_id w h rle_data offset = Ok pkts →
  concat (imap (λ i pkt, drop (if (offset + i =? 0)%nat then 24 else 17) pkt)
               pkts)
  = drop offset rle_data.
Proof.
  induction fuel as [|fuel IH]; intros offset pkts; cbn [ods_loop];
    destruct (offset <? length rle_data)%nat eqn:E; try done.
  - intros [= <-]. apply Nat.ltb_ge in E. by rewrite drop_ge by lia.
  - apply Nat.ltb_lt in E. rewrite ods_fragment_ok.
    cbn [mbind result_bind Py.bind].
    destruct (ods_loop fuel _ _ _ _ _ _) as [rest|] eqn:Erest; [|done].
    cbn [mbind result_bind Py.bind]. intros [= <-].
    apply IH in Erest. cbn [imap concat]. rewrite Nat.add_0_r.
    assert (Hpos : (0 < chunk_len (length rle_data) offset)%nat).
    { pose proof max_chunk_val.
      destruct (chunk_len_cases (length rle_data) offset E); lia. }
    rewrite (imap_ext _ (λ i pkt,
               drop (if (offset + chunk_len (length rle_data) offset + i =? 0)%nat
                     then 24 else 17) pkt)).
    2:{ intros i pkt _. cbn.
        destruct (offset + S i =? 0)%nat eqn:E1;
          destruct (offset + chunk_len _ _ + i =? 0)%nat eqn:E2;
          try done; apply Nat.eqb_eq in E1 || apply Nat.eqb_eq in E2; lia. }
    rewrite Erest, <- drop_drop.
    etrans; [|apply (take_drop (chunk_len (length rle_data) offset))].
    f_equal. unfold be16, be32.
    destruct (offset =? 0)%nat; cbn [app drop]; reflexivity.
  - intros [= <-]. apply Nat.ltb_ge in E. by rewrite drop_ge by lia.
Qed.

End Fragments.

(** X1: for header fields that fit, [_create_ods_packets] returns for
    run-length data of any size: one segment per started 60000 bytes
    (none for empty data), each of type 0x15, between 18 and 60024 bytes
    long, with a length field that is the size of its payload. *)
Theorem ods_packets_fit (pts obj_id w h : Z) (rle_data : list Z) :
  0 ≤ pts ≤ 0xFFFFFFFF → 0 ≤ obj_id ≤ 0xFFFF →
  0 ≤ w ≤ 0xFFFF → 0 ≤ h ≤ 0xFFFF →
  ∃ pkts,
    _create_ods_packets pts obj_id w h rle_data = Ok pkts
    ∧ Z.of_nat (length pkts) = (Z.of_nat (length rle_data) + 59999) / 60000
    ∧ Forall (λ pkt,
                18 ≤ Z.of_nat (length pkt) ≤ 60024
                ∧ field_at 11 2 pkt = Z.of_nat (length pkt) - 13
                ∧ field_at 10 1 pkt = 0x15)
             pkts.
Proof.
  intros Hpts Hobj Hw Hh. unfold _create_ods_packets.
  destruct (ods_loop_spec pts obj_id w h rle_data Hpts Hobj Hw Hh
              (length rle_data) 0%nat ltac:(lia)) as (pkts & -> & Hlen & Hpk).
  exists pkts. split; [done|]. split.
  { by rewrite Hlen, Nat.sub_0_r. }
  apply Forall_lookup. intros i pkt Hi. apply Hpk in Hi as [Hlt Hfrag].
  rewrite Nat.add_0_l in Hlt, Hfrag.
  rewrite ods_fragment_ok in Hfrag by done. injection Hfrag as <-.
  pose proof max_chunk_val as Hmax.
  set (n := length rle_data) in *.
  set (off := (i * max_chunk)%nat) in *.
  assert (Hc : (1 ≤ length (take (chunk_len n off) (drop off rle_data))
                ≤ max_chunk)%nat).
  { rewrite length_take, length_drop. fold n.
    destruct (chunk_len_cases n off Hlt); lia. }
  set (chunk := take _ _) in *.
  unfold field_at, be16, be32.
  destruct (off =? 0)%nat; cbn [app drop take length];
    rewrite ?length_app; cbn [length];
    (split; [lia|]);
    (split; [|reflexivity]);
    match goal with
    | |- from_bytes_big [?a / 256; ?a mod 256] = _ =>
        change [a / 256; a mod 256] with (be16 a);
        rewrite from_bytes_be16 by lia; lia
    end.
Qed.

Lemma ods_packets_fit_witness :
  ∃ pkts,
    _create_ods_packets 90090 0 1920 1080 (replicate (Z.to_nat 130000) 7)
    = Ok pkts
    ∧ Z.of_nat (length pkts)
      = (Z.of_nat (length (replicate (Z.to_nat 130000) 7)) + 59999) / 60000
    ∧ Forall (λ pkt,
                18 ≤ Z.of_nat (length pkt) ≤ 60024
                ∧ field_at 11 2 pkt = Z.of_nat (length pkt) - 13
                ∧ field_at 10 1 pkt = 0x15)
             pkts.
Proof. apply (ods_packets_fit 90090 0 1920 1080); lia. Defined.

(** X2: the run-length data is cut, not changed: the segments of
    [_create_ods_packets], the first without its 24 bytes of headers and
    the others without their 17, concatenate to the data. *)
Theorem ods_packets_reassemble (pts obj_id w h : Z) (rle_data : list Z) :
  0 ≤ pts ≤ 0xFFFFFFFF → 0 ≤ obj_id ≤ 0xFFFF →
  0 ≤ w ≤ 0xFFFF → 0 ≤ h ≤ 0xFFFF →
  ∃ pkts,
    _create_ods_packets pts obj_id w h rle_data = Ok pkts
    ∧ concat (imap (λ i pkt, drop (if (i =? 0)%nat then 24 else 17) pkt) pkts)
      = rle_data.
Proof.
  intros Hpts Hobj Hw Hh. unfold _create_ods_packets.
  destruct (ods_loop_spec pts obj_id w h rle_data Hpts Hobj Hw Hh
              (length rle_data) 0%nat ltac:(lia)) as (pkts & E & _).
  exists pkts. split; [done|].
  by apply (ods_loop_concat pts obj_id w h rle_data Hpts Hobj Hw Hh) in E.
Qed.

Lemma ods_packets_reassemble_witness :
  ∃ pkts,
    _create_ods_packets 90090 0 1920 1080 (replicate (Z.to_nat 130000) 7)
    = Ok pkts
    ∧ concat (imap (λ i pkt, drop (if (i =? 0)%nat then 24 else 17) pkt) pkts)
      = replicate (Z.to_nat 130000) 7.
Proof. apply (ods_packets_reassemble 90090 0 1920 1080); lia. Defined.

(** X3: the sequence flag (byte 16 of a segment) has bit 0x80 in the
    first segment only and bit 0x40 in the last segment only, so a
    single segment carries 0xC0 and a middle one 0x00; every segment
    names the object and version 0. *)
Theorem ods_sequence_flags (pts obj_id w h : Z) (rle_data : list Z) :
  0 ≤ pts ≤ 0xFFFFFFFF → 0 ≤ obj_id ≤ 0xFFFF →
  0 ≤ w ≤ 0xFFFF → 0 ≤ h ≤ 0xFFFF →
  ∃ pkts,
    _create_ods_packets pts obj_id w h rle_data = Ok pkts
    ∧ ∀ i pkt, pkts !! i = Some pkt →
        field_at 16 1 pkt
        = (if (i =? 0)%nat then 0x80 else 0)
          + (if (S i =? length pkts)%nat then 0x40 else 0)
        ∧ field_at 13 2 pkt = obj_id
        ∧ field_at 15 1 pkt = 0.
Proof.
  intros Hpts Hobj Hw Hh. unfold _create_ods_packets.
  destruct (ods_loop_spec pts obj_id w h rle_data Hpts Hobj Hw Hh
              (length rle_data) 0%nat ltac:(lia)) as (pkts & -> & Hlen & Hpk).
  exists pkts. split; [done|]. intros i pkt Hi.
  pose proof (lookup_lt_Some _ _ _ Hi) as Hi_lt.
  apply Hpk in Hi as [Hlt Hfrag].
  rewrite Nat.add_0_l in Hlt, Hfrag. rewrite Nat.sub_0_r in Hlen.
  rewrite ods_fragment_ok in Hfrag by done. injection Hfrag as <-.
  pose proof max_chunk_val as Hmax.
  pose proof (Nat2Z.inj_mul i max_chunk) as Hmul. rewrite Hmax in Hmul.
  set (n := length rle_data) in *.
  pose proof (Z.div_mod (Z.of_nat n + 59999) 60000 ltac:(lia)) as Hdm.
  pose proof (Z.mod_pos_bound (Z.of_nat n + 59999) 60000 ltac:(lia)) as Hmb.
  rewrite <- Hlen in Hdm.
  assert (Hfirst : (i * max_chunk =? 0)%nat = (i =? 0)%nat).
  { destruct (i =? 0)%nat eqn:E0.
    - apply Nat.eqb_eq in E0. subst i. by rewrite Nat.mul_0_l.
    - apply Nat.eqb_neq in E0. apply Nat.eqb_neq. lia. }
  assert (Hlast : (n <=? i * max_chunk + chunk_len n (i * max_chunk))%nat
                  = (S i =? length pkts)%nat).
  { destruct (chunk_len_cases n (i * max_chunk)%nat Hlt) as [[-> ?]|[-> ?]].
    - destruct (S i =? length pkts)%nat eqn:E1.
      + apply Nat.eqb_eq in E1. apply Nat.leb_le. lia.
      + apply Nat.eqb_neq in E1. apply Nat.leb_gt. lia.
    - replace (S i =? length pkts)%nat with true.
      + apply Nat.leb_le. lia.
      + symmetry. apply Nat.eqb_eq. lia. }
  rewrite Hfirst, Hlast.
  unfold field_at, be16, be32. cbn [app drop take].
  split_and!.
  - unfold from_bytes_big. cbn [foldl]. rewrite take_0. cbn [foldl]. lia.
  - change [obj_id / 256; obj_id mod 256] with (be16 obj_id).
    by rewrite from_bytes_be16 by lia.
  - reflexivity.
Qed.

Lemma ods_sequence_flags_witness :
  ∃ pkts,
    _create_ods_packets 90090 0 1920 1080 (replicate (Z.to_nat 130000) 7)
    = Ok pkts
    ∧ ∀ i pkt, pkts !! i = Some pkt →
        field_at 16 1 pkt
        = (if (i =? 0)%nat then 0x80 else 0)
          + (if (S i =? length pkts)%nat then 0x40 else 0)
        ∧ field_at 13 2 pkt = 0
        ∧ field_at 15 1 pkt = 0.
Proof. apply (ods_sequence_flags 90090 0 1920 1080); lia. Defined.

(** X4: the first segment of a non-empty object carries, after the
    sequence flag, the object length in three bytes and the width and
    the height; the length that is written is the data length plus 4
    modulo 2^24 (it is stored with [& 0xFF] and [& 0xFFFF]), which is
    the length itself below 16 MiB. *)
Theorem ods_first_fragment_header (pts obj_id w h : Z) (rle_data : list Z) :
  0 ≤ pts ≤ 0xFFFFFFFF → 0 ≤ obj_id ≤ 0xFFFF →
  0 ≤ w ≤ 0xFFFF → 0 ≤ h ≤ 0xFFFF →
  rle_data ≠ [] →
  ∃ first rest,
    _create_ods_packets pts obj_id w h rle_data = Ok (first :: rest)
    ∧ field_at 17 3 first = (Z.of_nat (length rle_data) + 4) mod 16777216
    ∧ (Z.of_nat (length rle_data) + 4 < 16777216 →
       field_at 17 3 first = Z.of_nat (length rle_data) + 4)
    ∧ field_at 20 2 first = w
    ∧ field_at 22 2 first = h.
Proof.
  intros Hpts Hobj Hw Hh Hne. unfold _create_ods_packets.
  destruct (ods_loop_spec pts obj_id w h rle_data Hpts Hobj Hw Hh
              (length rle_data) 0%nat ltac:(lia)) as (pkts & -> & Hlen & Hpk).
  destruct pkts as [|first rest].
  { exfalso. destruct rle_data as [|b bs]; [done|].
    cbn [length] in Hlen. rewrite Nat.sub_0_r in Hlen.
    pose proof (Z.div_le_lower_bound
                  (Z.of_nat (S (length bs)) + 59999) 60000 1) as Hd.
    lia. }
  exists first, rest. split; [done|].
  destruct (Hpk 0%nat first eq_refl) as [_ Hfrag].
  rewrite ods_fragment_ok in Hfrag by done. injection Hfrag as <-.
  cbn [Nat.add Nat.mul Nat.eqb].
  set (len := Z.of_nat (length rle_data) + 4).
  pose proof (object_length_bytes len ltac:(lia)) as Hlenf.
  unfold be16 in Hlenf. cbn [app] in Hlenf.
  unfold field_at, be32, be16. cbn [app drop take].
  split_and!.
  - exact Hlenf.
  - intros Hsmall. rewrite Hlenf. apply Z.mod_small. lia.
  - change [w / 256; w mod 256] with (be16 w).
    by rewrite from_bytes_be16 by lia.
  - rewrite take_0. change [h / 256; h mod 256] with (be16 h).
    by rewrite from_bytes_be16 by lia.
Qed.

Lemma ods_first_fragment_header_witness :
  ∃ first rest,
    _create_ods_packets 90090 0 1920 1080 (replicate (Z.to_nat 130000) 7)
    = Ok (first :: rest)
    ∧ field_at 17 3 first
      = (Z.of_nat (length (replicate (Z.to_nat 130000) 7)) + 4) mod 16777216
    ∧ (Z.of_nat (length (replicate (Z.to_nat 130000) 7)) + 4 < 16777216 →
       field_at 17 3 first
       = Z.of_nat (length (replicate (Z.to_nat 130000) 7)) + 4)
    ∧ field_at 20 2 first = 1920
    ∧ field_at 22 2 first = 1080.
Proof.
  apply (ods_first_fragment_header 90090 0 1920 1080); try lia.
  by intros ?%(f_equal length).
Defined.

(** X5: for data of 1 to 60000 bytes [_create_ods_packets] is the
    single-segment [_create_ods]: the same segment, or the same error.
    Empty data is the exception: it gives no segment at all. *)
Theorem ods_packets_single (pts obj_id w h : Z) (rle_data : list Z) :
  rle_data ≠ [] → Z.of_nat (length rle_data) ≤ 60000 →
  _create_ods_packets pts obj_id w h rle_data
  = (pkt ← _create_ods pts obj_id w h rle_data; Ok [pkt])
  ∧ _create_ods_packets pts obj_id w h [] = Ok [].
Proof.
  intros Hne Hlen. split; [|done].
  unfold _create_ods_packets, _create_ods.
  destruct rle_data as [|b bs] eqn:Erle; [done|]. rewrite <- Erle in *.
  assert (Hn : length rle_data = S (length bs)) by by rewrite Erle.
  rewrite Hn at 1. cbn [ods_loop].
  pose proof max_chunk_val as Hmax.
  assert (Hc : chunk_len (length rle_data) 0 = length rle_data).
  { unfold chunk_len. lia. }
  replace (0 <? length rle_data)%nat with true
    by (symmetry; apply Nat.ltb_lt; lia).
  rewrite Hc, Nat.add_0_l.
  assert (Hrest : ods_loop (length bs) pts obj_id w h rle_data (length rle_data)
                  = Ok []).
  { destruct (length bs); cbn [ods_loop]; by rewrite Nat.ltb_irrefl. }
  rewrite Hrest. unfold ods_fragment. rewrite Hc, Nat.add_0_l.
  rewrite Nat.leb_refl. cbn [Nat.eqb]. rewrite drop_0, firstn_all.
  change (Z.lor (Z.lor 0 128) 64) with 192.
  destruct (pack [H; B; B] [obj_id; 0; 192]) as [d1|]; [|done].
  cbn [mbind result_bind Py.bind].
  destruct (pack [B] _) as [d2|]; [|done]. cbn [mbind result_bind Py.bind].
  destruct (pack [H] _) as [d3|]; [|done]. cbn [mbind result_bind Py.bind].
  destruct (pack [H; H] _) as [d4|]; [|done]. cbn [mbind result_bind Py.bind].
  rewrite <- !app_assoc.
  by destruct (_create_packet _ _ _ _).
Qed.

Lemma ods_packets_single_witness :
  [0; 2; 0; 0] ≠ [] ∧ Z.of_nat (length [0; 2; 0; 0]) ≤ 60000
  ∧ _create_ods_packets 90090 0 2 1 [0; 2; 0; 0]
    = (pkt ← _create_ods 90090 0 2 1 [0; 2; 0; 0]; Ok [pkt])
  ∧ _create_ods_packets 90090 0 2 1 [] = Ok [].
Proof.
  split; [done|]. split; [cbn; lia|].
  apply (ods_packets_single 90090 0 2 1 [0; 2; 0; 0]); [done|cbn; lia].
Defined.

(** *** The segment header *)

(** X6: what [_create_packet] writes can be read back: the magic
    [PG], the PTS and the DTS as 32-bit fields, the segment type, the
    payload length as a 16-bit field, then the payload unchanged. *)
Theorem create_packet_layout (pts dts ty : Z) (payload pkt : list Z) :
  _create_packet pts dts ty payload = Ok pkt →
  length pkt = (13 + length payload)%nat
  ∧ take 2 pkt = [80; 71]
  ∧ field_at 2 4 pkt = pts
  ∧ field_at 6 4 pkt = dts
  ∧ field_at 10 1 pkt = ty
  ∧ field_at 11 2 pkt = Z.of_nat (length payload)
  ∧ drop 13 pkt = payload
  ∧ (is_bytes payload → is_bytes pkt).
Proof.
  intros (Hpts & Hdts & Hty & Hlen & ->)%create_packet_inv.
  pose proof (from_bytes_be32 pts ltac:(lia)) as Hp.
  pose proof (from_bytes_be32 dts ltac:(lia)) as Hd.
  pose proof (from_bytes_be16 (Z.of_nat (length payload)) ltac:(lia)) as Hl.
  pose proof (be32_bytes pts Hpts) as Bp.
  pose proof (be32_bytes dts Hdts) as Bd.
  pose proof (be16_bytes (Z.of_nat (length payload)) ltac:(lia)) as Bl.
  assert (Hbytes : is_bytes payload →
            is_bytes ([80; 71] ++ be32 pts ++ be32 dts ++ [ty]
                        ++ be16 (Z.of_nat (length payload)) ++ payload)).
  { intros Hb. unfold is_bytes in *. rewrite !Forall_app.
    split_and!; try done; repeat constructor; lia. }
  split_and!; [| | | | | | |exact Hbytes];
    unfold field_at; unfold be32, be16 in *; cbn [app drop take length];
    rewrite ?take_0; done.
Qed.

Lemma create_packet_layout_witness :
  _create_packet 90090 90090 0x80 [] = Ok [80; 71; 0; 1; 95; 234; 0; 1; 95; 234; 128; 0; 0]
  ∧ field_at 2 4 [80; 71; 0; 1; 95; 234; 0; 1; 95; 234; 128; 0; 0] = 90090
  ∧ field_at 11 2 [80; 71; 0; 1; 95; 234; 0; 1; 95; 234; 128; 0; 0] = 0.
Proof.
  assert (E : _create_packet 90090 90090 0x80 []
              = Ok [80; 71; 0; 1; 95; 234; 0; 1; 95; 234; 128; 0; 0])
    by reflexivity.
  split; [exact E|].
  destruct (create_packet_layout _ _ _ _ _ E) as (_ & _ & H1 & _ & _ & H2 & _).
  split; [exact H1|exact H2].
Defined.

(** X7: [_create_packet] has one way to fail: it returns when the PTS
    and the DTS are in [0, 2^32), the segment type is a byte and the
    payload has at most 65535 bytes, and raises [struct.error]
    otherwise (a 90 kHz PTS reaches 2^32 after 47721 seconds). *)
Theorem create_packet_struct_error (pts dts ty : Z) (payload : list Z) :
  let fits :=
    0 ≤ pts < 2 ^ 32 ∧ 0 ≤ dts < 2 ^ 32 ∧ 0 ≤ ty ≤ 255
    ∧ Z.of_nat (length payload) ≤ 65535 in
  (fits ↔ ∃ pkt, _create_packet pts dts ty payload = Ok pkt)
  ∧ (¬ fits ↔ _create_packet pts dts ty payload = Raise StructError)
  ∧ 47721 * 90000 < 2 ^ 32 < 47722 * 90000.
Proof.
  intros fits. change (2 ^ 32) with 4294967296 in *.
  assert (Hok : fits → ∃ pkt, _create_packet pts dts ty payload = Ok pkt).
  { intros (? & ? & ? & ?). eexists. apply create_packet_ok; lia. }
  assert (Hinv : ∀ pkt, _create_packet pts dts ty payload = Ok pkt → fits).
  { intros pkt (? & ? & ? & ? & _)%create_packet_inv.
    unfold fits. lia. }
  split_and!; try lia.
  - split; [done|]. intros [pkt E]. by eapply Hinv.
  - split.
    + intros Hn. destruct (_create_packet _ _ _ _) as [pkt|e] eqn:E.
      * destruct Hn. by eapply Hinv.
      * by apply create_packet_raise in E as ->.
    + intros E Hf. destruct (Hok Hf) as [pkt E']. congruence.
Qed.

(** *** Composition segments *)

(** Reads the ranges and the bytes off a successful [pack]. *)
Ltac pack_inv H :=
  repeat (apply pack_cons_inv in H as (? & ? & ?%pack_field_inv & H & ->));
  cbn [pack] in H; injection H as <-;
  repeat match goal with
         | H' : _ ∧ ?x = _ |- _ => destruct H' as [? H']; subst x
         end.

Lemma frame_rate_code_1 (fps : Qc) :
  frame_rate_code fps = 1 ↔ (Qc_of_Z 23 < fps ∧ fps < Qc_of_Z 24)%Qc.
Proof.
  unfold frame_rate_code.
  repeat (destruct (decide _); try done).
Qed.

Lemma frame_rate_code_byte (fps : Qc) : 0 ≤ frame_rate_code fps ≤ 7.
Proof.
  unfold frame_rate_code. repeat (destruct (decide _); try lia).
Qed.

(** X8: a composition segment that shows an object is 32 bytes long
    and one that clears the screen 24; both carry the composition
    number at bytes 18-19, and the number of objects (1 and 0) in their
    last byte before the object entry.  The frame rate byte (byte 17)
    of the clearing segment is always 1, that of the showing segment is
    computed from the frame rate, so that the two segments of one
    subtitle agree only for a rate strictly between 23 and 24. *)
Theorem pcs_show_and_clear
        (w h : Z) (fps : Qc)
        (pts state comp_num pal_id obj_id win_id img_x img_y img_w img_h : Z)
        (palette_update : bool) (pts' comp_num' state' : Z)
        (show clear : list Z) :
  _create_pcs w h fps pts state comp_num pal_id obj_id win_id
              img_x img_y img_w img_h palette_update = Ok show →
  _create_pcs_clear w h fps pts' comp_num' state' = Ok clear →
  length show = 32%nat ∧ length clear = 24%nat
  ∧ field_at 10 1 show = 0x16 ∧ field_at 10 1 clear = 0x16
  ∧ field_at 18 2 show = comp_num ∧ field_at 18 2 clear = comp_num'
  ∧ field_at 23 1 show = 1 ∧ field_at 23 1 clear = 0
  ∧ field_at 17 1 show = frame_rate_code fps
  ∧ field_at 17 1 clear = 1
  ∧ (field_at 17 1 show = field_at 17 1 clear
     ↔ (Qc_of_Z 23 < fps ∧ fps < Qc_of_Z 24)%Qc).
Proof.
  unfold _create_pcs, _create_pcs_clear. intros Hs Hc.
  destruct (pack [H; H; B] [w; h; frame_rate_code fps]) as [d1|] eqn:E1;
    [|done].
  destruct (pack [H; B] [comp_num; state]) as [d2|] eqn:E2; [|done].
  destruct (pack [B; B; B] [_; pal_id; 1]) as [d3|] eqn:E3; [|done].
  destruct (pack [H; B; B] [obj_id; win_id; 0]) as [d4|] eqn:E4; [|done].
  destruct (pack [H; H] [img_x; img_y]) as [d5|] eqn:E5; [|done].
  destruct (pack [H; H; B] [w; h; 1]) as [c1|] eqn:F1; [|done].
  destruct (pack [H; B] [comp_num'; state']) as [c2|] eqn:F2; [|done].
  cbn [mbind result_bind Py.bind pack pack_field] in Hs, Hc.
  rewrite pack_B_byte in Hc by lia. cbn [mbind result_bind Py.bind] in Hc.
  apply create_packet_inv in Hs as (_ & _ & _ & _ & ->).
  apply create_packet_inv in Hc as (_ & _ & _ & _ & ->).
  pack_inv E1. pack_inv E2. pack_inv E3. pack_inv E4. pack_inv E5.
  pack_inv F1. pack_inv F2.
  rewrite <- frame_rate_code_1.
  assert (Hcn : from_bytes_big (be16 comp_num) = comp_num)
    by (apply from_bytes_be16; lia).
  assert (Hcn' : from_bytes_big (be16 comp_num') = comp_num')
    by (apply from_bytes_be16; lia).
  unfold field_at, be32, be16 in *. cbn [app drop take length].
  rewrite ?take_0.
  assert (Hone : ∀ v, from_bytes_big [v] = v).
  { intros v. unfold from_bytes_big. cbn [foldl]. lia. }
  rewrite !Hone. done.
Qed.

Lemma pcs_show_and_clear_witness :
  ∃ show clear,
    _create_pcs 1920 1080 (Qc_of_Z 25) 90000 0x80 1 0 0 0 100 900 64 32 false
    = Ok show
    ∧ _create_pcs_clear 1920 1080 (Qc_of_Z 25) 180000 2 0x80 = Ok clear
    ∧ field_at 17 1 show = 3
    ∧ field_at 17 1 clear = 1
    ∧ field_at 18 2 show = 1 ∧ field_at 18 2 clear = 2.
Proof.
  eexists _, _. split; [reflexivity|]. split; [reflexivity|].
  destruct (pcs_show_and_clear 1920 1080 (Qc_of_Z 25) 90000 0x80 1 0 0 0
              100 900 64 32 false 180000 2 0x80 _ _ eq_refl eq_refl)
    as (_ & _ & _ & _ & H1 & H2 & _ & _ & H3 & H4 & _).
  split_and!; [exact H3|exact H4|exact H1|exact H2].
Defined.

Lemma create_pcs_comp_num w h fps pts state comp_num pal_id obj_id win_id
      img_x img_y img_w img_h palette_update pkt :
  _create_pcs w h fps pts state comp_num pal_id obj_id win_id
              img_x img_y img_w img_h palette_update = Ok pkt →
  0 ≤ comp_num ≤ 0xFFFF.
Proof.
  unfold _create_pcs. intros Hp.
  destruct (pack [H; H; B] _) as [d1|]; [|done].
  destruct (pack [H; B] [comp_num; state]) as [d2|] eqn:E2; [|done].
  by apply pack_cons_inv in E2 as (? & ? & [? _]%pack_field_inv & _).
Qed.

Lemma create_pcs_clear_comp_num w h fps pts comp_num state pkt :
  _create_pcs_clear w h fps pts comp_num state = Ok pkt →
  0 ≤ comp_num ≤ 0xFFFF.
Proof.
  unfold _create_pcs_clear. intros Hp.
  destruct (pack [H; H; B] _) as [d1|]; [|done].
  destruct (pack [H; B] [comp_num; state]) as [d2|] eqn:E2; [|done].
  by apply pack_cons_inv in E2 as (? & ? & [? _]%pack_field_inv & _).
Qed.

Lemma create_pcs_ok w h fps pts state comp_num pal_id obj_id win_id
      img_x img_y img_w img_h palette_update :
  0 ≤ w ≤ 0xFFFF → 0 ≤ h ≤ 0xFFFF → 0 ≤ pts ≤ 0xFFFFFFFF →
  0 ≤ state ≤ 0xFF → 0 ≤ comp_num ≤ 0xFFFF → 0 ≤ pal_id ≤ 0xFF →
  0 ≤ obj_id ≤ 0xFFFF → 0 ≤ win_id ≤ 0xFF →
  0 ≤ img_x ≤ 0xFFFF → 0 ≤ img_y ≤ 0xFFFF →
  ∃ pkt, _create_pcs w h fps pts state comp_num pal_id obj_id win_id
                     img_x img_y img_w img_h palette_update = Ok pkt.
Proof.
  intros. unfold _create_pcs. pose proof (frame_rate_code_byte fps).
  assert (0 ≤ (if palette_update then 128 else 0) ≤ 255)
    by (destruct palette_update; lia).
  pack_ok. eexists. apply create_packet_ok; try lia.
  unfold be16. cbn [app length]. lia.
Qed.

Lemma create_pcs_clear_ok w h fps pts comp_num state :
  0 ≤ w ≤ 0xFFFF → 0 ≤ h ≤ 0xFFFF → 0 ≤ pts ≤ 0xFFFFFFFF →
  0 ≤ state ≤ 0xFF → 0 ≤ comp_num ≤ 0xFFFF →
  ∃ pkt, _create_pcs_clear w h fps pts comp_num state = Ok pkt.
Proof.
  intros. unfold _create_pcs_clear.
  pack_ok. eexists. apply create_packet_ok; try lia.
  unfold be16. cbn [app length]. lia.
Qed.

Lemma create_wds_ok pts win_id x y w h :
  0 ≤ pts ≤ 0xFFFFFFFF → 0 ≤ win_id ≤ 0xFF →
  0 ≤ x ≤ 0xFFFF → 0 ≤ y ≤ 0xFFFF → 0 ≤ w ≤ 0xFFFF → 0 ≤ h ≤ 0xFFFF →
  ∃ pkt, _create_wds pts win_id x y w h = Ok pkt.
Proof.
  intros. unfold _create_wds.
  pack_ok. eexists. apply create_packet_ok; try lia.
  unfold be16. cbn [app length]. lia.
Qed.

Lemma create_end_ok pts :
  0 ≤ pts ≤ 0xFFFFFFFF → ∃ pkt, _create_end pts = Ok pkt.
Proof.
  intros. unfold _create_end. eexists. apply create_packet_ok; cbn; lia.
Qed.

Lemma create_ods_packets_ok pts obj_id w h rle_data :
  0 ≤ pts ≤ 0xFFFFFFFF → 0 ≤ obj_id ≤ 0xFFFF →
  0 ≤ w ≤ 0xFFFF → 0 ≤ h ≤ 0xFFFF →
  ∃ pkts, _create_ods_packets pts obj_id w h rle_data = Ok pkts.
Proof.
  intros Hpts Hobj Hw Hh. unfold _create_ods_packets.
  destruct (ods_loop_spec pts obj_id w h rle_data Hpts Hobj Hw Hh
              (length rle_data) 0%nat ltac:(lia)) as (pkts & -> & _).
  by eexists.
Qed.

(** *** Palette segments *)

Lemma pds_entries_inv palette : ∀ i es,
  pds_entries i palette = Ok es →
  Forall four_bytes palette
  ∧ (palette ≠ [] → 0 ≤ i ∧ i + Z.of_nat (length palette) ≤ 256)
  ∧ length es = (5 * length palette)%nat
  ∧ ∀ k y cr cb a,
      palette !! k = Some (y, cr, cb, a) →
      take 5 (drop (5 * k) es) = [i + Z.of_nat k; y; cr; cb; a].
Proof.
  induction palette as [|[[[y cr] cb] a] rest IH]; intros i es;
    cbn [pds_entries].
  - intros [= <-]. by split_and!.
  - destruct (pack _ _) as [e|] eqn:Ee; [|done].
    cbn [mbind result_bind Py.bind].
    destruct (pds_entries (i + 1) rest) as [r|] eqn:Er; [|done].
    cbn [mbind result_bind Py.bind]. intros [= <-].
    apply IH in Er as (Hall & Hidx & Hlen & Hlook). pack_inv Ee.
    split_and!.
    + constructor; [|done]. unfold four_bytes. lia.
    + intros _. destruct rest as [|e' rest'].
      * cbn [length]. lia.
      * destruct Hidx as [? ?]; [done|]. cbn [length] in *. lia.
    + cbn [app length]. lia.
    + intros [|k] y' cr' cb' a' Hk.
      * injection Hk as <- <- <- <-. cbn [app Nat.mul Nat.add drop take].
        rewrite take_0. f_equal. lia.
      * cbn [lookup list_lookup] in Hk. apply Hlook in Hk.
        replace (5 * S k)%nat with (5 + 5 * k)%nat by lia.
        rewrite <- drop_drop. cbn [app drop].
        rewrite drop_0, Hk. f_equal. lia.
Qed.

Lemma pds_entries_ok palette : ∀ i,
  Forall four_bytes palette →
  0 ≤ i → i + Z.of_nat (length palette) ≤ 256 →
  ∃ es, pds_entries i palette = Ok es.
Proof.
  induction palette as [|[[[y cr] cb] a] rest IH]; intros i Hall Hi Hlen;
    cbn [pds_entries]; [by eexists|].
  apply Forall_cons in Hall as [(? & ? & ? & ?) Hall]. cbn [length] in Hlen.
  pack_ok.
  destruct (IH (i + 1) Hall ltac:(lia) ltac:(lia)) as [es ->].
  cbn [mbind result_bind Py.bind]. by eexists.
Qed.

Lemma create_pds_ok pts pal_id palette :
  0 ≤ pts ≤ 0xFFFFFFFF → 0 ≤ pal_id ≤ 0xFF →
  (length palette ≤ 256)%nat → Forall four_bytes palette →
  ∃ pkt, _create_pds pts pal_id palette = Ok pkt.
Proof.
  intros Hpts Hpal Hlen Hall. unfold _create_pds. pack_ok.
  destruct (pds_entries_ok palette 0 Hall ltac:(lia) ltac:(lia)) as [es E].
  rewrite E. cbn [mbind result_bind Py.bind].
  apply pds_entries_inv in E as (_ & _ & Hes & _).
  eexists. apply create_packet_ok; try lia.
  rewrite !length_app, Hes. cbn [length]. lia.
Qed.

(** X9: a palette segment that is written holds its entries where a
    player looks for them: entry [k] of the palette is the five bytes
    [k, y, cr, cb, a] at position [15 + 5 * k].  It can only be written
    for a palette of at most 256 entries whose values are bytes (the
    index is packed as one byte). *)
Theorem create_pds_layout (pts pal_id : Z) (palette : list (Z * Z * Z * Z))
        (pkt : list Z) :
  _create_pds pts pal_id palette = Ok pkt →
  (length palette ≤ 256)%nat
  ∧ Forall four_bytes palette
  ∧ length pkt = (15 + 5 * length palette)%nat
  ∧ field_at 10 1 pkt = 0x14
  ∧ field_at 13 1 pkt = pal_id
  ∧ ∀ k y cr cb a,
      palette !! k = Some (y, cr, cb, a) →
      take 5 (drop (15 + 5 * k) pkt) = [Z.of_nat k; y; cr; cb; a].
Proof.
  unfold _create_pds. intros Hp.
  destruct (pack [B; B] [pal_id; 0]) as [d|] eqn:Ed; [|done].
  destruct (pds_entries 0 palette) as [es|] eqn:Ees; [|done].
  cbn [mbind result_bind Py.bind] in Hp.
  apply create_packet_inv in Hp as (_ & _ & _ & _ & ->).
  pack_inv Ed.
  apply pds_entries_inv in Ees as (Hall & Hidx & Hlen & Hlook).
  split_and!.
  - destruct palette; [cbn; lia|]. destruct Hidx; [done|]. lia.
  - done.
  - unfold be32, be16. cbn [app length]. rewrite Hlen. lia.
  - reflexivity.
  - unfold field_at, be32, be16. cbn [app drop take]. rewrite ?take_0.
    unfold from_bytes_big. cbn [foldl]. lia.
  - intros k y cr cb a Hk. apply Hlook in Hk.
    replace (15 + 5 * k)%nat with (15 + (5 * k))%nat by lia.
    rewrite <- drop_drop. unfold be32, be16. cbn [app drop].
    rewrite ?drop_0, Hk. f_equal.
Qed.


Lemma create_pds_layout_witness :
  ∃ pkt,
    _create_pds 90000 0 [(16, 128, 128, 0); (235, 128, 128, 255)] = Ok pkt
    ∧ length pkt = 25%nat
    ∧ take 5 (drop 20 pkt) = [1; 235; 128; 128; 255].
Proof.
  eexists. split; [reflexivity|].
  destruct (create_pds_layout 90000 0
              [(16, 128, 128, 0); (235, 128, 128, 255)] _ eq_refl)
    as (_ & _ & Hlen & _ & _ & Hlook).
  split; [exact Hlen|]. exact (Hlook 1%nat 235 128 128 255 eq_refl).
Defined.

End SegmentsTheory.

(** ** The export loop *)

Module EncoderTheory.
Import Img Compositor PyNum Timecode Quantize Rle Struct Segments Encoder.
Import RleTheory CompositorTheory QuantizeTheory SegmentsTheory TimecodeTheory.

(** *** The palette of the quantizer is a palette that can be written *)

Lemma py_trunc_clamp (lo hi : Z) (x : Qc) :
  lo ≤ hi → lo ≤ Z.max lo (Z.min hi (py_trunc x)) ≤ hi.
Proof. lia. Qed.

Lemma rgba_to_yuv_bytes (p : rgba) :
  0 ≤ alpha p ≤ 255 →
  ∃ y cr cb,
    rgba_to_yuv p = (y, cr, cb, alpha p)
    ∧ 16 ≤ y ≤ 235 ∧ 16 ≤ cr ≤ 240 ∧ 16 ≤ cb ≤ 240.
Proof.
  destruct p as [[[r g] b] a]. cbn [alpha]. intros Ha.
  unfold rgba_to_yuv. eexists _, _, _. split; [reflexivity|].
  split_and!; lia.
Qed.

Lemma land_F0_byte (v : Z) : 0 ≤ v ≤ 255 → 0 ≤ Z.land v 0xF0 ≤ 255.
Proof.
  intros Hv.
  pose (P := λ z, (0 <=? Z.land z 0xF0) && (Z.land z 0xF0 <=? 255)).
  assert (H : P v = true).
  { apply (Z_range_check P 0 255); [by vm_compute|lia]. }
  unfold P in H. lia.
Qed.

Lemma posterize_bytes (p : rgba) : four_bytes p → four_bytes (posterize p).
Proof.
  destruct p as [[[r g] b] a]. unfold four_bytes, posterize.
  intros (? & ? & ? & ?). split_and!; by apply land_F0_byte.
Qed.

Lemma insert_by_count_elem x y l :
  x ∈ insert_by_count y l ↔ x = y ∨ x ∈ l.
Proof.
  induction l as [|z l IH]; cbn [insert_by_count].
  - rewrite list_elem_of_singleton, elem_of_nil. tauto.
  - destruct (decide _).
    + rewrite !elem_of_cons. tauto.
    + rewrite !elem_of_cons, IH. tauto.
Qed.

Lemma sort_by_count_elem x l : x ∈ sort_by_count l ↔ x ∈ l.
Proof.
  induction l as [|z l IH]; cbn [sort_by_count foldr]; [done|].
  rewrite insert_by_count_elem, elem_of_cons. unfold sort_by_count in IH.
  by rewrite IH.
Qed.

Lemma remove_first_elem x y l : x ∈ remove_first y l → x ∈ l.
Proof.
  induction l as [|z l IH]; cbn [remove_first]; [done|].
  destruct (decide _).
  - intros. by apply elem_of_cons; right.
  - rewrite !elem_of_cons. tauto.
Qed.

Lemma take_elem {A} (x : A) n l : x ∈ take n l → x ∈ l.
Proof.
  intros (i & Hi & _)%elem_of_take. apply list_elem_of_lookup. eauto.
Qed.

Lemma palette_of_elem c colors :
  c ∈ palette_of colors → c = transparent ∨ c ∈ colors.*2.
Proof.
  unfold palette_of. intros Hc%take_elem.
  apply elem_of_cons in Hc as [->|Hc]; [by left|]. right.
  destruct (decide _); [by eapply remove_first_elem|done].
Qed.

Section WithColorOrder.

Variable color_order : list (nat * rgba) → list (nat * rgba).
Hypothesis color_order_Permutation : ∀ l, color_order l ≡ₚ l.

Lemma select_colors_elem (pixels : list rgba) x :
  x ∈ (select_colors color_order pixels).2 →
  x.2 ∈ (select_colors color_order pixels).1.
Proof.
  assert (Hin : ∀ px y, y ∈ color_order (count_colors px) → y.2 ∈ px).
  { intros px y Hy. rewrite color_order_Permutation in Hy.
    apply (count_colors_spec px). by apply list_elem_of_fmap_2. }
  unfold select_colors, getcolors.
  set (c1 := color_order (count_colors pixels)).
  assert (H1 : ∀ y, y ∈ c1 → y.2 ∈ pixels) by (intros; by apply Hin).
  clearbody c1.
  assert (Hposter :
    x ∈ (if negb (truthy (if Z.of_nat (length (color_order (count_colors
                                (posterize <$> pixels)))) <=? 256
                          then Some (color_order (count_colors
                                       (posterize <$> pixels)))
                          else None))
         then
           if truthy (if Z.of_nat (length (color_order (count_colors
                             (posterize <$> pixels)))) <=? 16777216
                      then Some (color_order (count_colors
                                   (posterize <$> pixels)))
                      else None)
           then take 255 (sort_by_count (default []
                  (if Z.of_nat (length (color_order (count_colors
                         (posterize <$> pixels)))) <=? 16777216
                   then Some (color_order (count_colors
                                (posterize <$> pixels)))
                   else None)))
           else []
         else default []
                (if Z.of_nat (length (color_order (count_colors
                       (posterize <$> pixels)))) <=? 256
                 then Some (color_order (count_colors (posterize <$> pixels)))
                 else None)) →
    x.2 ∈ posterize <$> pixels).
  { set (c2 := color_order (count_colors (posterize <$> pixels))).
    assert (H2 : ∀ y, y ∈ c2 → y.2 ∈ posterize <$> pixels)
      by (intros; by apply Hin).
    clearbody c2.
    destruct (Z.of_nat (length c2) <=? 256); cbn [truthy negb].
    - destruct c2 as [|a2 c2]; cbn [negb fst snd default]; [|by apply H2].
      destruct (_ <=? _); cbn [truthy]; by rewrite elem_of_nil.
    - destruct (Z.of_nat (length c2) <=? 16777216);
        cbn [truthy negb fst snd default]; [|by rewrite elem_of_nil].
      destruct c2 as [|a2 c2]; cbn [negb fst snd default];
        [by rewrite elem_of_nil|].
      intros Hx%take_elem. apply (proj1 (sort_by_count_elem _ _)) in Hx.
      by apply H2. }
  destruct (Z.of_nat (length c1) <=? 256); cbn [truthy negb].
  - destruct c1 as [|a1 c1]; cbn [negb fst snd default]; [|by apply H1].
    exact Hposter.
  - exact Hposter.
Qed.

Lemma palette_rgba_bytes (pixels : list rgba) :
  Forall four_bytes pixels →
  Forall four_bytes (palette_rgba color_order pixels).
Proof.
  intros Hpx. apply Forall_forall. intros c Hc.
  apply palette_of_elem in Hc as [->|Hc].
  { unfold four_bytes, transparent. lia. }
  apply list_elem_of_fmap in Hc as (x & -> & Hx).
  apply select_colors_elem in Hx.
  assert (Himg : Forall four_bytes (select_colors color_order pixels).1).
  { unfold select_colors.
    destruct (negb (truthy (getcolors color_order 256 pixels))); cbn [fst].
    - apply Forall_fmap. eapply Forall_impl; eauto using posterize_bytes.
    - done. }
  by eapply Forall_forall in Himg.
Qed.

Lemma palette_yuv_bytes (pixels : list rgba) :
  Forall four_bytes pixels →
  Forall four_bytes (_quantize_image color_order pixels).1.
Proof.
  intros Hpx%palette_rgba_bytes. cbn [_quantize_image fst].
  apply Forall_fmap. eapply Forall_impl; [exact Hpx|].
  intros [[[r g] b] a] (_ & _ & _ & Ha).
  change (four_bytes (rgba_to_yuv (r, g, b, a))).
  destruct (rgba_to_yuv_bytes (r, g, b, a) Ha) as (y & cr & cb & -> & ?).
  unfold four_bytes. cbn [alpha]. lia.
Qed.

(** X10: the palette that [_quantize_image] returns for an 8-bit RGBA
    image can always be written: [_create_pds] raises nothing on it,
    the segment has at most 15 + 5 * 256 bytes, and its first entry is
    the transparent colour. *)
Theorem quantized_palette_is_written (pixels : list rgba) (pts : Z) :
  Forall four_bytes pixels → 0 ≤ pts < 2 ^ 32 →
  ∃ pkt,
    _create_pds pts 0 (_quantize_image color_order pixels).1 = Ok pkt
    ∧ (length pkt ≤ 1295)%nat
    ∧ take 5 (drop 15 pkt) = [0; 16; 128; 128; 0].
Proof.
  intros Hpx Hpts. change (2 ^ 32) with 4294967296 in Hpts.
  pose proof (palette_yuv_bytes pixels Hpx) as Hyuv.
  assert (Hlen : (length (_quantize_image color_order pixels).1 ≤ 256)%nat).
  { cbn [_quantize_image fst]. rewrite length_fmap. apply palette_of_length. }
  unfold _create_pds. pack_ok.
  destruct (pds_entries_ok _ 0 Hyuv ltac:(lia) ltac:(lia)) as [es E].
  rewrite E. cbn [mbind result_bind Py.bind].
  apply pds_entries_inv in E as (_ & _ & Hes & Hlook).
  rewrite create_packet_ok
    by (rewrite ?length_app, ?Hes; cbn [length]; lia).
  eexists. split; [done|]. split.
  - unfold be32, be16. cbn [app length]. rewrite Hes. lia.
  - unfold be32, be16. cbn [app drop]. rewrite drop_0.
    apply (Hlook 0%nat). cbn [_quantize_image fst]. unfold palette_rgba.
    destruct (palette_of_head (select_colors color_order pixels).2)
      as [rest ->].
    cbn [fmap list_fmap lookup list_lookup].
    by rewrite rgba_to_yuv_transparent.
Qed.

End WithColorOrder.

Lemma quantized_palette_is_written_witness :
  (∀ l, first_occurrence_order l ≡ₚ l)
  ∧ Forall four_bytes four_pixels
  ∧ 0 ≤ 90000 < 2 ^ 32
  ∧ ∃ pkt,
      _create_pds 90000 0 (_quantize_image first_occurrence_order four_pixels).1
      = Ok pkt
      ∧ (length pkt ≤ 1295)%nat
      ∧ take 5 (drop 15 pkt) = [0; 16; 128; 128; 0].
Proof.
  assert (Hperm : ∀ l, first_occurrence_order l ≡ₚ l) by done.
  assert (Hpx : Forall four_bytes four_pixels).
  { unfold four_pixels, four_bytes, transparent. repeat constructor; lia. }
  assert (Hpts : 0 ≤ 90000 < 2 ^ 32) by (change (2 ^ 32) with 4294967296; lia).
  split; [exact Hperm|]. split; [exact Hpx|]. split; [exact Hpts|].
  exact (quantized_palette_is_written first_occurrence_order Hperm
           four_pixels 90000 Hpx Hpts).
Defined.

(** *** Padding to even dimensions *)

Lemma new_image_well_formed w h c : well_formed (new_image w h c).
Proof. unfold well_formed, new_image. cbn. by rewrite length_replicate. Qed.

Lemma pixel_index (w x y : nat) :
  (x < w)%nat → ((y * w + x) mod w = x ∧ (y * w + x) / w = y)%nat.
Proof.
  intros Hx. split.
  - rewrite Nat.add_comm, Nat.Div0.mod_add. by apply Nat.mod_small.
  - rewrite Nat.add_comm, Nat.div_add by lia.
    rewrite Nat.div_small by done. lia.
Qed.

Lemma get_pixel_paste (dst src : image) (x y : nat) :
  well_formed dst → well_formed src →
  (x < im_width dst)%nat → (y < im_height dst)%nat →
  get_pixel (paste dst src) x y
  = if (x <? im_width src)%nat && (y <? im_height src)%nat
    then get_pixel src x y else get_pixel dst x y.
Proof.
  intros Hd Hs Hx Hy.
  destruct (get_pixel_ok dst x y Hd Hx Hy) as (p & Ep & Lp).
  unfold get_pixel at 1. cbn [paste im_width im_height im_data].
  replace (x <? im_width dst)%nat with true by (symmetry; by apply Nat.ltb_lt).
  replace (y <? im_height dst)%nat with true by (symmetry; by apply Nat.ltb_lt).
  cbn [andb]. rewrite list_lookup_imap, Lp. cbn [fmap option_fmap option_map].
  destruct (pixel_index (im_width dst) x y Hx) as [-> ->].
  destruct ((x <? im_width src)%nat && (y <? im_height src)%nat) eqn:E;
    [|by rewrite Ep].
  apply andb_prop in E as [Ex%Nat.ltb_lt Ey%Nat.ltb_lt].
  destruct (get_pixel_ok src x y Hs Ex Ey) as (q & -> & ->). done.
Qed.

Lemma pad_even_size (img : image) :
  well_formed img →
  well_formed (pad_even img)
  ∧ (im_width (pad_even img) ≤ im_width img + 1)%nat
  ∧ (im_height (pad_even img) ≤ im_height img + 1)%nat.
Proof.
  intros Hwf. unfold pad_even.
  pose proof (Nat.mod_upper_bound (im_width img) 2 ltac:(lia)).
  pose proof (Nat.mod_upper_bound (im_height img) 2 ltac:(lia)).
  destruct (_ || _).
  - unfold well_formed, paste, new_image. cbn [im_data im_width im_height].
    rewrite length_imap, length_replicate. lia.
  - split; [done|lia].
Qed.

(** X11: the padding of [export] makes both dimensions even by adding
    at most one column and one row, keeps every pixel of the image
    where it was, and fills what it adds with the transparent colour. *)
Theorem pad_even_preserves (img : image) :
  well_formed img →
  well_formed (pad_even img)
  ∧ Nat.even (im_width (pad_even img)) = true
  ∧ Nat.even (im_height (pad_even img)) = true
  ∧ (im_width img ≤ im_width (pad_even img) ≤ im_width img + 1)%nat
  ∧ (im_height img ≤ im_height (pad_even img) ≤ im_height img + 1)%nat
  ∧ ∀ x y,
      (x < im_width (pad_even img))%nat →
      (y < im_height (pad_even img))%nat →
      get_pixel (pad_even img) x y
      = if (x <? im_width img)%nat && (y <? im_height img)%nat
        then get_pixel img x y else Ok transparent.
Proof.
  intros Hwf. unfold pad_even.
  pose proof (Nat.mod_upper_bound (im_width img) 2 ltac:(lia)) as Hw2.
  pose proof (Nat.mod_upper_bound (im_height img) 2 ltac:(lia)) as Hh2.
  assert (Heven : ∀ n, (n mod 2 = 0 → Nat.even n = true)%nat).
  { intros n Hn. apply Nat.even_spec. exists (n / 2)%nat.
    pose proof (Nat.div_mod_eq n 2). lia. }
  assert (Heven' : ∀ n, Nat.even (n + n mod 2) = true).
  { intros n. apply Heven.
    pose proof (Nat.mod_upper_bound n 2 ltac:(lia)).
    rewrite Nat.Div0.add_mod_idemp_r.
    replace (n + n)%nat with (n * 2)%nat by lia.
    by rewrite Nat.Div0.mod_mul. }
  destruct (negb (im_width img mod 2 =? 0)%nat
            || negb (im_height img mod 2 =? 0)%nat) eqn:E.
  - split_and!; try (cbn [paste new_image im_width]; lia);
      try (cbn [paste new_image im_height]; lia);
      try (cbn [paste new_image im_width im_height]; apply Heven').
    + unfold well_formed, paste, new_image.
      cbn [im_data im_width im_height].
      by rewrite length_imap, length_replicate.
    + intros x y Hx Hy.
      unfold paste in Hx, Hy. cbn [im_width im_height] in Hx, Hy.
      rewrite get_pixel_paste;
        [|apply new_image_well_formed|done|done|done].
      destruct (_ && _); [done|].
      destruct (get_pixel_ok _ x y
                  (new_image_well_formed _ _ transparent) Hx Hy)
        as (p & -> & Hp).
      cbn [new_image im_data] in Hp.
      by apply lookup_replicate in Hp as [-> _].
  - apply orb_false_elim in E as [Ew%negb_false_iff%Nat.eqb_eq
                                  Eh%negb_false_iff%Nat.eqb_eq].
    split_and!; try lia; try by apply Heven.
    + done.
    + intros x y Hx%Nat.ltb_lt Hy%Nat.ltb_lt. by rewrite Hx, Hy.
Qed.


Lemma pad_even_preserves_witness :
  well_formed odd_canvas
  ∧ im_width (pad_even odd_canvas) = 4%nat
  ∧ im_height (pad_even odd_canvas) = 2%nat
  ∧ get_pixel (pad_even odd_canvas) 2 0 = get_pixel odd_canvas 2 0
  ∧ get_pixel (pad_even odd_canvas) 3 0 = Ok transparent.
Proof.
  assert (Hwf : well_formed odd_canvas) by reflexivity.
  destruct (pad_even_preserves odd_canvas Hwf) as (_ & _ & _ & _ & _ & Hpx).
  split; [exact Hwf|]. split; [reflexivity|]. split; [reflexivity|].
  split.
  - exact (Hpx 2%nat 0%nat ltac:(cbn; lia) ltac:(cbn; lia)).
  - exact (Hpx 3%nat 0%nat ltac:(cbn; lia) ltac:(cbn; lia)).
Defined.

(** *** The frame rate of the export *)

Lemma py_abs_lt (x c : Qc) : (py_abs x < c ↔ - c < x ∧ x < c)%Qc.
Proof.
  unfold py_abs. destruct (decide _) as [H|H%Qcnot_le_lt];
    (split; [intros ?; split|intros [? ?]]); qc_to_q; lra.
Qed.

Lemma py_abs_le (x c : Qc) : (py_abs x ≤ c ↔ - c ≤ x ∧ x ≤ c)%Qc.
Proof.
  unfold py_abs. destruct (decide _) as [H|H%Qcnot_le_lt];
    (split; [intros ?; split|intros [? ?]]); qc_to_q; lra.
Qed.

(** Moves the comparisons of [select_rate] to [Q]. *)
Ltac rate_facts :=
  unfold milli in *;
  repeat match goal with
    | H : (py_abs _ < _)%Qc |- _ => apply py_abs_lt in H
    | H : ¬ (py_abs _ < _)%Qc |- _ => rewrite py_abs_lt in H
    | H : (py_abs _ ≤ _)%Qc |- _ => apply py_abs_le in H
    | H : ?x = 0%Qc |- _ => subst x
    end;
  qc_to_q; q_consts.

Lemma select_rate_cases (fps : Qc) :
  (select_rate fps ∈ fps_table
   ∧ ¬ (0 < fps ∧ fps < Q2Qc (1 # 1000))%Qc)
  ∨ ((0 < fps)%Qc
     ∧ select_rate fps = (py_trunc (fps * Qc_of_Z 1000), 1000)).
Proof.
  unfold select_rate, fps_table.
  destruct (bool_decide_reflect (fps = 0%Qc)) as [H0|H0]; cbn [orb].
  { left. split; [set_solver|]. rate_facts. lra. }
  destruct (bool_decide_reflect (fps ≤ 0)%Qc) as [H1|H1%Qcnot_le_lt].
  { left. split; [set_solver|]. rate_facts. lra. }
  repeat (destruct (decide _) as [?|?];
          [left; split; [set_solver|rate_facts; lra]|]).
  right. split; [done|reflexivity].
Qed.

(** X12: [export] recognises the eight frame rates of its table from
    their three-decimal rendering: a rate within 0.0005 of a table rate
    is given the exact fraction of that rate. *)
Theorem select_rate_table (fps : Qc) (fps_num fps_den : Z) :
  (fps_num, fps_den) ∈ fps_table →
  (py_abs (fps - Qc_of_Z fps_num / Qc_of_Z fps_den) ≤ Q2Qc (1 # 2000))%Qc →
  select_rate fps = (fps_num, fps_den).
Proof.
  unfold fps_table. intros Hin Habs.
  repeat (apply elem_of_cons in Hin as [[= -> ->]|Hin]);
    [| | | | | | | |by apply elem_of_nil in Hin];
    unfold select_rate;
    (destruct (bool_decide_reflect (fps = 0%Qc)) as [H0|H0]; cbn [orb];
     [exfalso; rate_facts; lra|]);
    (destruct (bool_decide_reflect (fps ≤ 0)%Qc) as [H1|H1%Qcnot_le_lt];
     [exfalso; rate_facts; lra|]);
    repeat (destruct (decide _) as [?|?];
            [first [reflexivity|exfalso; rate_facts; lra]|]);
    exfalso; rate_facts; lra.
Qed.

Lemma select_rate_table_witness :
  (24000, 1001) ∈ fps_table
  ∧ (py_abs (milli 23976 - Qc_of_Z 24000 / Qc_of_Z 1001)
     ≤ Q2Qc (1 # 2000))%Qc
  ∧ select_rate (milli 23976) = (24000, 1001).
Proof.
  assert (Hin : (24000, 1001) ∈ fps_table) by (unfold fps_table; set_solver).
  assert (Habs : (py_abs (milli 23976 - Qc_of_Z 24000 / Qc_of_Z 1001)
                  ≤ Q2Qc (1 # 2000))%Qc) by (by vm_compute).
  split; [exact Hin|]. split; [exact Habs|].
  exact (select_rate_table (milli 23976) 24000 1001 Hin Habs).
Defined.

Lemma py_trunc_nonneg (x : Qc) :
  (0 ≤ x)%Qc →
  0 ≤ py_trunc x ∧ (py_trunc x = 0 ↔ (x < 1)%Qc).
Proof.
  intros Hx. unfold py_trunc. destruct (decide _) as [_|?]; [|done].
  pose proof (Qfloor_le x) as Hle. pose proof (Qlt_floor x) as Hlt.
  assert (H0 : 0 ≤ Qfloor x).
  { change 0 with (Qfloor 0). apply Qfloor_resp_le. by qc_to_q. }
  split; [done|]. split.
  - intros E. rewrite E in Hlt. qc_to_q. exact Hlt.
  - intros H1. assert (Qfloor x < 1); [|lia].
    rewrite Zlt_Qlt. qc_to_q. change (inject_Z 1) with 1%Q. lra.
Qed.

Lemma tc_to_pts_returns tc fps_num fps_den :
  fps_num ≠ 0 → fps_den ≠ 0 →
  ∃ pts, _tc_to_pts tc fps_num fps_den = Ok pts.
Proof.
  intros Hn Hd. unfold _tc_to_pts.
  destruct (parse_tc tc) as [[[[hh mm] ss] ff]|]; [|by eexists].
  rewrite fps_base_ok by done. cbn [mbind result_bind Py.bind].
  rewrite floor_div_ok by done. by eexists.
Qed.

(** X13: the frame rate that [export] selects never has a zero
    denominator, and has a zero numerator exactly for a rate of the
    file strictly between 0 and 0.001.  With any other rate
    [_tc_to_pts] returns for every timecode string; with such a rate it
    raises [ZeroDivisionError] on every timecode it can parse. *)
Theorem select_rate_division_safe (fps : Qc) (tc : string) :
  0 < (select_rate fps).2
  ∧ 0 ≤ (select_rate fps).1
  ∧ ((select_rate fps).1 = 0 ↔ (0 < fps ∧ fps < Q2Qc (1 # 1000))%Qc)
  ∧ ((select_rate fps).1 ≠ 0 →
     ∃ pts, _tc_to_pts tc (select_rate fps).1 (select_rate fps).2 = Ok pts)
  ∧ ((select_rate fps).1 = 0 → parse_tc tc ≠ None →
     _tc_to_pts tc (select_rate fps).1 (select_rate fps).2
     = Raise ZeroDivisionError).
Proof.
  assert (Hzero : ∀ d, d ≠ 0 → parse_tc tc ≠ None →
            _tc_to_pts tc 0 d = Raise ZeroDivisionError).
  { intros d Hd Hp. unfold _tc_to_pts.
    destruct (parse_tc tc) as [[[[hh mm] ss] ff]|]; [|done].
    rewrite fps_base_ok by done. done. }
  destruct (select_rate_cases fps) as [[Hin Hno]|[Hpos E]].
  - destruct (select_rate fps) as [n d] eqn:E. cbn [fst snd].
    destruct (fps_table_base n d Hin) as (Hn & Hd & _).
    split_and!; try lia.
    + split; [lia|done].
    + intros _. apply tc_to_pts_returns; lia.
  - rewrite E. cbn [fst snd].
    assert (Hx : (0 ≤ fps * Qc_of_Z 1000)%Qc) by (qc_to_q; q_consts; lra).
    destruct (py_trunc_nonneg _ Hx) as [H0 Hiff].
    split_and!; try lia.
    + rewrite Hiff. split.
      * intros H. split; [done|]. qc_to_q. q_consts. lra.
      * intros [_ H]. qc_to_q. q_consts. lra.
    + intros Hn. by apply tc_to_pts_returns.
    + intros -> Hp. by apply Hzero.
Qed.

End EncoderTheory.

(** ** The loop over the events *)

Module ExportTheory.
Import Img Compositor PyNum Timecode Quantize Rle Struct Segments Encoder.
Import RleTheory CompositorTheory QuantizeTheory SegmentsTheory TimecodeTheory.
Import EncoderTheory.


Lemma pad_even_bytes (img : image) :
  Forall four_bytes (im_data img) → Forall four_bytes (im_data (pad_even img)).
Proof.
  intros Himg. unfold pad_even. destruct (_ || _); [|done].
  unfold paste, new_image. cbn [im_data im_width im_height].
  apply Forall_lookup. intros k p. rewrite list_lookup_imap.
  destruct (replicate _ _ !! k) as [q|] eqn:Eq; [|done].
  apply lookup_replicate in Eq as [-> _]. cbn. intros [= <-].
  assert (Ht : four_bytes transparent) by (unfold four_bytes, transparent; lia).
  destruct (_ && _); [|done].
  destruct (im_data img !! _) as [q|] eqn:Eq; [|done].
  cbn. eapply Forall_lookup in Himg; eauto.
Qed.

Lemma rle_compress_ok (pixels : list Z) (width height : nat) :
  length pixels = (width * height)%nat →
  Forall (λ v, 0 ≤ v ≤ 255) pixels →
  ∃ bs, _rle_compress pixels width height = Ok bs.
Proof.
  intros Hlen Hpx. unfold _rle_compress.
  destruct (rle_rows_decode height pixels width 0 ltac:(lia) Hpx)
    as (bodies & -> & _).
  by eexists.
Qed.

Section WithColorOrder.

Variable color_order : list (nat * rgba) → list (nat * rgba).
Hypothesis color_order_Permutation : ∀ l, color_order l ≡ₚ l.
Variable images : gmap string image.
Variable vf : video_format.

Lemma indexed_pixels_bytes (pixels : list rgba) :
  Forall (λ v, 0 ≤ v ≤ 255) (Z.of_nat <$> indexed_pixels color_order pixels).
Proof.
  unfold indexed_pixels.
  destruct (select_colors color_order pixels) as [img colors].
  rewrite <- list_fmap_compose. apply Forall_fmap, Forall_forall.
  intros p _.
  change (0 ≤ Z.of_nat (default 0%nat (color_map (palette_of colors) !! p))
          ≤ 255).
  pose proof (palette_of_length colors).
  destruct (color_map_index (palette_of colors) p) as [?|[_ ->]]; lia.
Qed.

Lemma export_event_index fps_num fps_den idx ev bytes idx' :
  export_event color_order images vf fps_num fps_den idx ev
  = Ok (bytes, idx') →
  match images !! ev_filename ev with
  | None => bytes = [] ∧ idx' = idx
  | Some _ => idx' = idx + 2 ∧ 0 ≤ idx + 1 ∧ idx + 2 ≤ 65535
  end.
Proof.
  unfold export_event.
  destruct (_tc_to_pts (ev_in_tc ev) _ _) as [start_pts|]; [|done].
  destruct (_tc_to_pts (ev_out_tc ev) _ _) as [end_pts|]; [|done].
  cbn [mbind result_bind Py.bind].
  destruct (images !! ev_filename ev) as [img|]; [|by intros [= <- <-]].
  unfold _quantize_image.
  destruct (_rle_compress _ _ _) as [rle_data|]; [|done].
  cbn [mbind result_bind Py.bind].
  destruct (_create_pcs _ _ _ _ _ _ _ _ _ _ _ _ _ _) as [pcs|] eqn:Epcs;
    [|done].
  apply create_pcs_comp_num in Epcs.
  destruct (_create_wds start_pts _ _ _ _ _) as [wds|]; [|done].
  destruct (_create_pds _ _ _) as [pds|]; [|done].
  destruct (_create_ods_packets _ _ _ _ _) as [ods|]; [|done].
  destruct (_create_end start_pts) as [end_show|]; [|done].
  cbn [mbind result_bind Py.bind].
  destruct (_create_pcs_clear _ _ _ _ _ _) as [pcs_clear|] eqn:Eclr; [|done].
  apply create_pcs_clear_comp_num in Eclr.
  destruct (_create_wds end_pts _ _ _ _ _) as [wds_clear|]; [|done].
  destruct (_create_end end_pts) as [end_clear|]; [|done].
  cbn [mbind result_bind Py.bind]. intros [= _ <-]. lia.
Qed.

Lemma export_events_index fps_num fps_den events : ∀ idx bytes idx',
  export_events color_order images vf fps_num fps_den idx events
  = Ok (bytes, idx') →
  idx' = idx + 2 * Z.of_nat (length (shown images events))
  ∧ (shown images events ≠ [] → 0 ≤ idx + 1 ∧ idx' ≤ 65535).
Proof.
  induction events as [|ev events IH]; intros idx bytes idx';
    cbn [export_events].
  { intros [= _ <-]. cbn. split; [lia|done]. }
  destruct (export_event _ _ _ _ _ _ _) as [[b1 i1]|] eqn:E1; [|done].
  cbn [mbind result_bind Py.bind].
  destruct (export_events _ _ _ _ _ _ _) as [[b2 i2]|] eqn:E2; [|done].
  cbn [mbind result_bind Py.bind]. intros [= _ <-].
  apply export_event_index in E1. apply IH in E2 as [-> Hrest].
  unfold shown in *. rewrite filter_cons.
  destruct (images !! ev_filename ev) as [img|] eqn:Eimg.
  - rewrite decide_True by (by eexists). cbn [length].
    destruct E1 as (-> & ? & ?). split; [lia|]. intros _.
    destruct (filter _ events) as [|e es]; [cbn [length]; lia|].
    destruct Hrest; [done|]. lia.
  - rewrite decide_False by (by intros [? ?]).
    destruct E1 as [_ ->]. done.
Qed.

(** X14: every event whose image exists uses two composition numbers
    (one to show it, one to clear it) and a missing image uses none;
    the numbers are 16-bit fields, so an export that returns has
    written at most 32767 subtitles: the next one makes [_create_pcs]
    or [_create_pcs_clear] raise [struct.error]. *)
Theorem export_composition_numbers (events : list event)
        (bytes : list Z) (sequence_index : Z) :
  export color_order images vf events = Ok (bytes, sequence_index) →
  sequence_index = 2 * Z.of_nat (length (shown images events))
  ∧ Z.of_nat (length (shown images events)) ≤ 32767.
Proof.
  unfold export. destruct (select_rate (vf_fps vf)) as [fps_num fps_den].
  intros [-> Hle]%export_events_index. split; [lia|].
  destruct (shown images events) as [|e es] eqn:E; [cbn; lia|].
  destruct Hle; [done|]. lia.
Qed.

Lemma export_event_ok fps_num fps_den idx ev :
  0 ≤ vf_w vf ≤ 65535 → 0 ≤ vf_h vf ≤ 65535 →
  writable images fps_num fps_den ev →
  0 ≤ idx → idx + 2 ≤ 65535 →
  ∃ bytes,
    export_event color_order images vf fps_num fps_den idx ev
    = Ok (bytes,
          if images !! ev_filename ev is Some _ then idx + 2 else idx).
Proof.
  intros Hvw Hvh ((s & e & Es & Ee & Hs & He) & Hx & Hy & Himg) Hidx Hidx'.
  change (2 ^ 32) with 4294967296 in *.
  unfold export_event. rewrite Es, Ee. cbn [mbind result_bind Py.bind].
  destruct (images !! ev_filename ev) as [img|]; [|by eexists].
  destruct (Himg img eq_refl) as (Hwf & Hpx & Hw & Hh).
  destruct (pad_even_size img Hwf) as (Hwfp & Hpw & Hph).
  apply pad_even_bytes in Hpx.
  set (p := pad_even img) in *.
  unfold _quantize_image.
  destruct (rle_compress_ok
              (Z.of_nat <$> indexed_pixels color_order (im_data p))
              (im_width p) (im_height p)) as [rle_data ->].
  { by rewrite length_fmap, indexed_pixels_length. }
  { apply indexed_pixels_bytes. }
  cbn [mbind result_bind Py.bind].
  destruct (create_pcs_ok (vf_w vf) (vf_h vf) (vf_fps vf) s 128 (idx + 1)
              0 0 0 (ev_x ev) (ev_y ev) (Z.of_nat (im_width p))
              (Z.of_nat (im_height p)) false) as [pcs ->]; try lia.
  destruct (create_wds_ok s 0 (ev_x ev) (ev_y ev) (Z.of_nat (im_width p))
              (Z.of_nat (im_height p))) as [wds ->]; try lia.
  destruct (create_pds_ok s 0 (rgba_to_yuv <$> palette_rgba color_order
                                 (im_data p))) as [pds ->]; try lia.
  { rewrite length_fmap. apply palette_of_length. }
  { exact (palette_yuv_bytes color_order color_order_Permutation _ Hpx). }
  destruct (create_ods_packets_ok s 0 (Z.of_nat (im_width p))
              (Z.of_nat (im_height p)) rle_data) as [ods ->]; try lia.
  destruct (create_end_ok s) as [end_show ->]; try lia.
  cbn [mbind result_bind Py.bind].
  destruct (create_pcs_clear_ok (vf_w vf) (vf_h vf) (vf_fps vf) e
              (idx + 1 + 1) 128) as [pcs_clear ->]; try lia.
  destruct (create_wds_ok e 0 (ev_x ev) (ev_y ev) (Z.of_nat (im_width p))
              (Z.of_nat (im_height p))) as [wds_clear ->]; try lia.
  destruct (create_end_ok e) as [end_clear ->]; try lia.
  cbn [mbind result_bind Py.bind]. eexists. do 2 f_equal. lia.
Qed.

Lemma export_events_ok fps_num fps_den events : ∀ idx,
  0 ≤ vf_w vf ≤ 65535 → 0 ≤ vf_h vf ≤ 65535 →
  Forall (writable images fps_num fps_den) events →
  0 ≤ idx → idx + 2 * Z.of_nat (length (shown images events)) ≤ 65535 →
  ∃ bytes,
    export_events color_order images vf fps_num fps_den idx events
    = Ok (bytes, idx + 2 * Z.of_nat (length (shown images events))).
Proof.
  induction events as [|ev events IH]; intros idx Hvw Hvh Hall Hidx Hmax;
    cbn [export_events].
  { eexists. do 2 f_equal. cbn. lia. }
  apply Forall_cons in Hall as [Hev Hall].
  unfold shown in *. rewrite filter_cons in *.
  destruct (images !! ev_filename ev) as [img|] eqn:Eimg.
  - rewrite decide_True in * by (by eexists). cbn [length] in *.
    destruct (export_event_ok fps_num fps_den idx ev Hvw Hvh Hev Hidx
                ltac:(lia)) as [b1 ->].
    rewrite Eimg. cbn [mbind result_bind Py.bind].
    destruct (IH (idx + 2) Hvw Hvh Hall ltac:(lia) ltac:(lia)) as [b2 ->].
    cbn [mbind result_bind Py.bind]. eexists. do 2 f_equal. lia.
  - rewrite decide_False in * by (by intros [? ?]).
    assert (Hnone : ∃ b1, export_event color_order images vf fps_num fps_den
                            idx ev = Ok (b1, idx)).
    { destruct Hev as ((s & e & Es & Ee & _) & _).
      unfold export_event. rewrite Es, Ee, Eimg. by eexists. }
    destruct Hnone as [b1 ->]. cbn [mbind result_bind Py.bind].
    destruct (IH idx Hvw Hvh Hall Hidx Hmax) as [b2 ->].
    cbn [mbind result_bind Py.bind]. by eexists.
Qed.

(** X15: [export] returns, with two composition numbers used per
    subtitle shown, whenever the video size fits 16 bits, every event
    is writable (time stamps of 32 bits, position of 16 bits, an 8-bit
    RGBA image of at most 65534 pixels a side) and at most 32767 events
    have an image: quantizer, run-length compressor and the segment
    writers raise nothing on each other's output, whatever the colours
    and the size of the pictures. *)
Theorem export_returns (events : list event) :
  0 ≤ vf_w vf ≤ 65535 → 0 ≤ vf_h vf ≤ 65535 →
  Forall (writable images (select_rate (vf_fps vf)).1
                   (select_rate (vf_fps vf)).2) events →
  Z.of_nat (length (shown images events)) ≤ 32767 →
  ∃ bytes,
    export color_order images vf events
    = Ok (bytes, 2 * Z.of_nat (length (shown images events))).
Proof.
  intros Hvw Hvh Hall Hn. unfold export.
  destruct (select_rate (vf_fps vf)) as [fps_num fps_den]. cbn [fst snd] in *.
  destruct (export_events_ok fps_num fps_den events 0 Hvw Hvh Hall
              ltac:(lia) ltac:(lia)) as [bytes E].
  exists bytes. by rewrite E.
Qed.

End WithColorOrder.

Lemma export_composition_numbers_witness :
  ∃ bytes,
    export first_occurrence_order sample_images sample_format sample_events
    = Ok (bytes, 2)
    ∧ 2 = 2 * Z.of_nat (length (shown sample_images sample_events))
    ∧ Z.of_nat (length (shown sample_images sample_events)) ≤ 32767.
Proof.
  assert (E : ∃ bytes,
            export first_occurrence_order sample_images sample_format
                   sample_events = Ok (bytes, 2))
    by (eexists; vm_compute; reflexivity).
  destruct E as [bytes E]. exists bytes. split; [exact E|].
  exact (export_composition_numbers first_occurrence_order sample_images
           sample_format sample_events bytes 2 E).
Defined.

Lemma export_returns_witness :
  (∀ l, first_occurrence_order l ≡ₚ l)
  ∧ 0 ≤ vf_w sample_format ≤ 65535 ∧ 0 ≤ vf_h sample_format ≤ 65535
  ∧ Forall (writable sample_images
                     (select_rate (vf_fps sample_format)).1
                     (select_rate (vf_fps sample_format)).2) sample_events
  ∧ Z.of_nat (length (shown sample_images sample_events)) ≤ 32767
  ∧ ∃ bytes,
      export first_occurrence_order sample_images sample_format sample_events
      = Ok (bytes, 2 * Z.of_nat (length (shown sample_images sample_events))).
Proof.
  assert (Hperm : ∀ l, first_occurrence_order l ≡ₚ l) by done.
  assert (Hw : 0 ≤ vf_w sample_format ≤ 65535) by (cbn; lia).
  assert (Hh : 0 ≤ vf_h sample_format ≤ 65535) by (cbn; lia).
  assert (Hn : Z.of_nat (length (shown sample_images sample_events)) ≤ 32767)
    by (by vm_compute).
  assert (Hall : Forall (writable sample_images
                           (select_rate (vf_fps sample_format)).1
                           (select_rate (vf_fps sample_format)).2)
                        sample_events).
  { change (select_rate (vf_fps sample_format)) with (24000, 1001).
    cbn [fst snd]. unfold sample_events, writable.
    constructor; [|constructor; [|constructor]].
    - split; [exists 90090, 225225; by vm_compute|].
      cbn [ev_x ev_y ev_filename]. split; [lia|]. split; [lia|].
      intros img Himg. vm_compute in Himg. injection Himg as <-.
      split; [reflexivity|]. split; [|cbn; lia].
      unfold four_bytes, transparent. cbn [im_data].
      repeat constructor; lia.
    - split; [exists 270270, 360360; by vm_compute|].
      cbn [ev_x ev_y ev_filename]. split; [lia|]. split; [lia|].
      intros img Himg. vm_compute in Himg. discriminate Himg. }
  split; [exact Hperm|]. split; [exact Hw|]. split; [exact Hh|].
  split; [exact Hall|]. split; [exact Hn|].
  exact (export_returns first_occurrence_order Hperm sample_images
           sample_format sample_events Hw Hh Hall Hn).
Defined.

End ExportTheory.

(** ** Frame rate conforming and the events of the BDN file *)

Module ComposerTheory.
Import Img Compositor PyNum PyStr Timecode Slicer Composer.
Import RleTheory SlicerTheory CompositorTheory PyStrTheory TimecodeTheory.

(** *** Rounding keeps the order of time *)

Lemma py_round_mono (x y : Qc) : (x ≤ y)%Qc → py_round x ≤ py_round y.
Proof.
  intros Hxy. destruct (Z_le_gt_dec (py_round x) (py_round y)) as [|Hgt];
    [done|exfalso].
  pose proof (py_round_spec x) as [Hx _].
  pose proof (py_round_spec y) as [_ Hy].
  assert (Hz : (inject_Z (py_round y) + 1 <= inject_Z (py_round x))%Q).
  { change 1%Q with (inject_Z 1). rewrite <- inject_Z_plus.
    rewrite <- Zle_Qle. lia. }
  assert (Heq : x = y).
  { apply Qc_is_canon. qc_to_q. lra. }
  subst y. lia.
Qed.

Lemma ms_to_tc_frames ms fps_num fps_den :
  _ms_to_tc ms fps_num fps_den
  = (tf ← total_frames ms fps_num fps_den;
     base ← fps_base fps_num fps_den;
     tc_of_frames base tf).
Proof. reflexivity. Qed.

Lemma tc_of_frames_pts base tf fps_num fps_den :
  0 < base → fps_base fps_num fps_den = Ok base → fps_num ≠ 0 →
  ∃ tc, tc_of_frames base tf = Ok tc
        ∧ _tc_to_pts tc fps_num fps_den = Ok (tf * 90000 * fps_den / fps_num).
Proof.
  intros Hbase Eb Hn. unfold tc_of_frames.
  repeat (rewrite ?floor_div_ok, ?py_mod_ok by lia;
          cbn [mbind result_bind Py.bind]).
  eexists. split; [reflexivity|].
  rewrite (tc_to_pts_ok _ _ _ _ _ _ base) by done.
  destruct (frame_digits tf base Hbase) as (<- & _). done.
Qed.

Lemma Qc_div_pos (a b : Qc) : (0 < a → 0 < b → 0 < a / b)%Qc.
Proof.
  intros Ha Hb. qc_to_q.
  apply Qmult_lt_0_compat; [done|]. by apply Qinv_lt_0_compat.
Qed.

Lemma rate_nonneg (fps_num fps_den : Z) :
  0 < fps_num → 0 < fps_den → (0 < Qc_of_Z fps_num / Qc_of_Z fps_den)%Qc.
Proof.
  intros Hn Hd. qc_to_q.
  apply Qmult_lt_0_compat.
  - change 0%Q with (inject_Z 0). rewrite <- Zlt_Qlt. lia.
  - apply Qinv_lt_0_compat. change 0%Q with (inject_Z 0).
    rewrite <- Zlt_Qlt. lia.
Qed.

Lemma total_frames_mono (ms1 ms2 : Qc) (fps_num fps_den : Z) :
  0 < fps_num → 0 < fps_den → (ms1 ≤ ms2)%Qc →
  py_round (ms1 / Qc_of_Z 1000 * (Qc_of_Z fps_num / Qc_of_Z fps_den))%Qc
  ≤ py_round (ms2 / Qc_of_Z 1000 * (Qc_of_Z fps_num / Qc_of_Z fps_den))%Qc.
Proof.
  intros Hn Hd Hms. apply py_round_mono.
  apply Qcmult_le_compat_r; [|by apply Qclt_le_weak, rate_nonneg].
  apply Qcmult_le_compat_r; [done|]. by vm_compute.
Qed.

Lemma ms_to_pts (ms : Qc) (fps_num fps_den : Z) :
  0 < fps_num → 0 < fps_den →
  0 < py_round (Qc_of_Z fps_num / Qc_of_Z fps_den)%Qc →
  ∃ tc,
    _ms_to_tc ms fps_num fps_den = Ok tc
    ∧ _tc_to_pts tc fps_num fps_den
      = Ok (py_round (ms / Qc_of_Z 1000
                      * (Qc_of_Z fps_num / Qc_of_Z fps_den))%Qc
            * 90000 * fps_den / fps_num).
Proof.
  intros Hn Hd Hbase. rewrite ms_to_tc_frames.
  rewrite total_frames_ok, fps_base_ok by lia.
  cbn [mbind result_bind Py.bind].
  apply tc_of_frames_pts; [done| |lia]. apply fps_base_ok. lia.
Qed.

(** X16: timecodes keep the order of time.  For a frame rate with
    positive numerator and denominator that rounds to a positive base,
    an earlier instant never gets a later time stamp: the [_tc_to_pts]
    of the [_ms_to_tc] of [ms1] is at most that of [ms2] when
    [ms1 <= ms2].  The two can be equal: an interval shorter than a
    frame may get the same in and out time. *)
Theorem timestamps_monotone (ms1 ms2 : Qc) (fps_num fps_den : Z) :
  0 < fps_num → 0 < fps_den →
  0 < py_round (Qc_of_Z fps_num / Qc_of_Z fps_den)%Qc →
  (ms1 ≤ ms2)%Qc →
  ∃ tc1 tc2 pts1 pts2,
    _ms_to_tc ms1 fps_num fps_den = Ok tc1
    ∧ _ms_to_tc ms2 fps_num fps_den = Ok tc2
    ∧ _tc_to_pts tc1 fps_num fps_den = Ok pts1
    ∧ _tc_to_pts tc2 fps_num fps_den = Ok pts2
    ∧ pts1 ≤ pts2.
Proof.
  intros Hn Hd Hbase Hms.
  destruct (ms_to_pts ms1 fps_num fps_den Hn Hd Hbase) as (tc1 & E1 & P1).
  destruct (ms_to_pts ms2 fps_num fps_den Hn Hd Hbase) as (tc2 & E2 & P2).
  eexists tc1, tc2, _, _. split_and!; try done.
  apply Z.div_le_mono; [lia|].
  pose proof (total_frames_mono ms1 ms2 fps_num fps_den Hn Hd Hms).
  nia.
Qed.

Lemma timestamps_monotone_witness :
  0 < 24 ∧ 0 < 1 ∧ 0 < py_round (Qc_of_Z 24 / Qc_of_Z 1)%Qc
  ∧ (Qc_of_Z 1000 ≤ Qc_of_Z 1010)%Qc
  ∧ ∃ tc1 tc2 pts1 pts2,
      _ms_to_tc (Qc_of_Z 1000) 24 1 = Ok tc1
      ∧ _ms_to_tc (Qc_of_Z 1010) 24 1 = Ok tc2
      ∧ _tc_to_pts tc1 24 1 = Ok pts1
      ∧ _tc_to_pts tc2 24 1 = Ok pts2
      ∧ pts1 ≤ pts2.
Proof.
  assert (H1 : 0 < 24) by lia. assert (H2 : 0 < 1) by lia.
  assert (H3 : 0 < py_round (Qc_of_Z 24 / Qc_of_Z 1)%Qc) by (by vm_compute).
  assert (H4 : (Qc_of_Z 1000 ≤ Qc_of_Z 1010)%Qc) by (by vm_compute).
  split; [exact H1|]. split; [exact H2|]. split; [exact H3|].
  split; [exact H4|].
  exact (timestamps_monotone (Qc_of_Z 1000) (Qc_of_Z 1010) 24 1 H1 H2 H3 H4).
Defined.

(** *** Conforming *)

Lemma Qc_of_Z_nonzero (z : Z) : z ≠ 0 → Qc_of_Z z ≠ 0%Qc.
Proof.
  intros Hz E. apply Hz. apply (f_equal this) in E. cbn in E.
  by injection E.
Qed.

Lemma rate_nonzero (n d : Z) :
  n ≠ 0 → d ≠ 0 → (Qc_of_Z n / Qc_of_Z d)%Qc ≠ 0%Qc.
Proof.
  intros Hn Hd E. apply (Qc_of_Z_nonzero n Hn).
  apply (f_equal (λ q, q * Qc_of_Z d)%Qc) in E.
  rewrite Qcmult_0_l in E. rewrite <- E. field.
  by apply Qc_of_Z_nonzero.
Qed.

Lemma init_inv fps_num fps_den tn td r :
  init fps_num fps_den tn td = Ok r →
  fps_den ≠ 0
  ∧ src_fps_num r = fps_num ∧ src_fps_den r = fps_den
  ∧ src_fps_float r = (Qc_of_Z fps_num / Qc_of_Z fps_den)%Qc
  ∧ tgt_fps_den r ≠ 0
  ∧ tgt_fps_float r = (Qc_of_Z (tgt_fps_num r) / Qc_of_Z (tgt_fps_den r))%Qc
  ∧ (if truthy_int tn && truthy_int td
     then tn = Some (tgt_fps_num r) ∧ td = Some (tgt_fps_den r)
          ∧ tgt_fps_num r ≠ 0
     else tgt_fps_num r = fps_num ∧ tgt_fps_den r = fps_den).
Proof.
  unfold init, true_div.
  destruct (fps_den =? 0) eqn:Ed; [done|]. apply Z.eqb_neq in Ed.
  cbn [mbind result_bind Py.bind].
  destruct (truthy_int tn && truthy_int td) eqn:Et.
  - apply andb_prop in Et as [Etn Etd].
    destruct tn as [n|], td as [d|]; try done. cbn [truthy_int default] in *.
    apply negb_true_iff, Z.eqb_neq in Etn. apply negb_true_iff in Etd.
    unfold Datatypes.id. rewrite Etd. apply Z.eqb_neq in Etd.
    cbn [mbind result_bind Py.bind]. intros [= <-]. by cbn.
  - destruct (fps_den =? 0) eqn:Ed'; [by apply Z.eqb_eq in Ed'|].
    cbn [mbind result_bind Py.bind]. intros [= <-]. by cbn.
Qed.



(** X18: a missing target rate is the source rate.  When either target
    argument is [None] or 0, [__init__] falls back to the rate of the
    project, so a zero target denominator cannot make it divide by
    zero, and [compose] stamps the slices with [_ms_to_tc] of their
    unscaled times at the project rate. *)
Theorem target_rate_fallback (fps_num fps_den : Z) (tn td : option Z)
        (t_start t_end : Qc) :
  truthy_int tn && truthy_int td = false →
  fps_num ≠ 0 → fps_den ≠ 0 →
  ∃ r,
    init fps_num fps_den tn td = Ok r
    ∧ tgt_fps_num r = fps_num ∧ tgt_fps_den r = fps_den
    ∧ event_timecodes r t_start t_end
      = (in_tc ← _ms_to_tc t_start fps_num fps_den;
         out_tc ← _ms_to_tc t_end fps_num fps_den;
         Ok (in_tc, out_tc)).
Proof.
  intros Ht Hn Hd. unfold init. rewrite Ht, !true_div_ok by done.
  cbn [mbind result_bind Py.bind]. eexists. split; [reflexivity|].
  cbn [tgt_fps_num tgt_fps_den]. split; [done|]. split; [done|].
  unfold event_timecodes, float_div.
  cbn [src_fps_float tgt_fps_float tgt_fps_num tgt_fps_den].
  pose proof (rate_nonzero fps_num fps_den Hn Hd) as Hg.
  rewrite decide_False by done. cbn [mbind result_bind Py.bind].
  assert (Hone : ∀ t : Qc,
    (t * (Qc_of_Z fps_num / Qc_of_Z fps_den
          / (Qc_of_Z fps_num / Qc_of_Z fps_den)))%Qc = t).
  { intros t. field. split; by apply Qc_of_Z_nonzero. }
  by rewrite !Hone.
Qed.

Lemma target_rate_fallback_witness :
  truthy_int (Some 25) && truthy_int (Some 0) = false
  ∧ 24000 ≠ 0 ∧ 1001 ≠ 0
  ∧ ∃ r,
      init 24000 1001 (Some 25) (Some 0) = Ok r
      ∧ tgt_fps_num r = 24000 ∧ tgt_fps_den r = 1001
      ∧ event_timecodes r (Qc_of_Z 1001) (Qc_of_Z 2002)
        = (in_tc ← _ms_to_tc (Qc_of_Z 1001) 24000 1001;
           out_tc ← _ms_to_tc (Qc_of_Z 2002) 24000 1001;
           Ok (in_tc, out_tc)).
Proof.
  assert (H1 : truthy_int (Some 25) && truthy_int (Some 0) = false)
    by reflexivity.
  assert (H2 : 24000 ≠ 0) by lia. assert (H3 : 1001 ≠ 0) by lia.
  split; [exact H1|]. split; [exact H2|]. split; [exact H3|].
  exact (target_rate_fallback 24000 1001 (Some 25) (Some 0)
           (Qc_of_Z 1001) (Qc_of_Z 2002) H1 H2 H3).
Defined.

(** *** The file names of the slices *)

Lemma py_int_fmt_0d (width : nat) (n : Z) :
  0 ≤ n → py_int (fmt_0d width n) = Ok n.
Proof.
  intros Hn. unfold fmt_0d.
  destruct (n <? 0) eqn:E; [apply Z.ltb_lt in E; lia|].
  destruct (dec_digits_spec n Hn) as (ds & -> & Hds & Hne & Hval).
  set (z := (width - _)%nat).
  replace (replicate z "0"%char ++ (digit_char <$> ds))
    with (digit_char <$> (replicate z 0 ++ ds))
    by (by rewrite fmap_app, fmap_replicate).
  rewrite py_int_digits.
  - f_equal. rewrite fold_left_app.
    assert (Hz : fold_left (λ a d, a * 10 + d) (replicate z 0) 0 = 0).
    { clear. induction z as [|z IH]; [done|]. cbn [replicate fold_left].
      exact IH. }
    by rewrite Hz.
  - apply Forall_app. split; [|done].
    apply Forall_replicate. unfold is_digit. lia.
  - destruct ds; [done|]. by destruct z.
Qed.

Lemma slice_filename_inj (a b : Z) :
  0 ≤ a → 0 ≤ b → slice_filename a = slice_filename b → a = b.
Proof.
  intros Ha Hb E. unfold slice_filename in E.
  apply (f_equal list_ascii_of_string) in E.
  rewrite !list_ascii_of_string_of_list_ascii in E.
  apply app_inv_head, app_inv_tail in E.
  apply (f_equal py_int) in E. rewrite !py_int_fmt_0d in E by done.
  by injection E.
Qed.

Lemma omap_length_le {A B} (f : A → option B) (l : list A) :
  (length (omap f l) ≤ length l)%nat.
Proof.
  induction l as [|x l IH]; cbn [omap list_omap length]; [done|].
  destruct (f x); cbn [length]; lia.
Qed.

Lemma sorted_points_length (off : Qc) (cues : list cue) :
  (length (sorted_points off cues) ≤ 2 * length cues)%nat.
Proof.
  unfold sorted_points. rewrite merge_sort_Permutation.
  change (length (elements ?X)) with (size X). unfold boundary_points.
  assert (Hacc : ∀ (acc : gset Qc),
    (size (foldl (λ points c,
             let s := (start_ms c + off)%Qc in
             let e := (end_ms c + off)%Qc in
             {[ e ]} ∪ ({[ s ]} ∪ points)) acc cues)
     ≤ size acc + 2 * length cues)%nat).
  { induction cues as [|c cues' IH]; intros acc; cbn [foldl length]; [lia|].
    etrans; [apply IH|].
    rewrite size_union_alt, size_singleton.
    assert (Hs1 : (size (({[(start_ms c + off)%Qc]} ∪ acc)
                         ∖ {[(end_ms c + off)%Qc]})
                   ≤ size ({[(start_ms c + off)%Qc]} ∪ acc))%nat)
      by (apply subseteq_size, subseteq_difference_l; done).
    assert (Hs2 : (size ({[(start_ms c + off)%Qc]} ∪ acc) ≤ 1 + size acc)%nat).
    { rewrite size_union_alt, size_singleton.
      assert (Hs3 : (size (acc ∖ {[(start_ms c + off)%Qc]}) ≤ size acc)%nat)
        by (apply subseteq_size, subseteq_difference_l; done).
      lia. }
    lia. }
  etrans; [apply (Hacc ∅)|]. rewrite size_empty. lia.
Qed.

Section Compose.

Variable canvas_of : list cue → image.
Variable r : rates.

Lemma compose_event_inv seq_num s e :
  compose_event canvas_of r seq_num s = Ok (Some e) →
  bdn_Filename e = slice_filename seq_num
  ∧ event_timecodes r (t_start s) (t_end s) = Ok (bdn_InTC e, bdn_OutTC e).
Proof.
  unfold compose_event.
  destruct (_create_composite_image _) as [[[[[x y] w] h] saved]|]; [|done].
  cbn [mbind result_bind Py.bind].
  destruct (_ || _); [done|].
  destruct (event_timecodes _ _ _) as [[in_tc out_tc]|]; [|done].
  cbn [mbind result_bind Py.bind]. by intros [= <-].
Qed.

(** The events of the loop come from a sub-list of the slices, in
    order, and their numbers grow. *)
Lemma compose_events_inv slices : ∀ seq_num events,
  compose_events canvas_of r seq_num slices = Ok events →
  ∃ kept ks,
    kept `sublist_of` slices
    ∧ Forall2 (λ s e, event_timecodes r (t_start s) (t_end s)
                      = Ok (bdn_InTC e, bdn_OutTC e)) kept events
    ∧ bdn_Filename <$> events = slice_filename <$> ks
    ∧ StronglySorted Z.lt ks
    ∧ Forall (λ k, seq_num < k) ks.
Proof.
  induction slices as [|s slices IH]; intros seq_num events;
    cbn [compose_events].
  { intros [= <-]. exists [], []. split_and!; by constructor. }
  destruct (compose_event _ _ _ _) as [ev|] eqn:Eev; [|done].
  cbn [mbind result_bind Py.bind].
  destruct (compose_events _ _ _ _) as [evs|] eqn:Eevs; [|done].
  cbn [mbind result_bind Py.bind]. intros [= <-].
  apply IH in Eevs as (kept & ks & Hsub & Hall & Hnames & Hsorted & Hks).
  destruct ev as [e|].
  - apply compose_event_inv in Eev as [Hname Htc].
    exists (s :: kept), (seq_num + 1 :: ks). split_and!.
    + by constructor.
    + by constructor.
    + cbn [fmap list_fmap]. by rewrite Hname, <- Hnames.
    + constructor; [done|]. eapply Forall_impl; [exact Hks|].
      cbn. intros. lia.
    + constructor; [lia|]. eapply Forall_impl; [exact Hks|].
      cbn. intros. lia.
  - exists kept, ks. split_and!; try done.
    + by constructor.
    + eapply Forall_impl; [exact Hks|]. cbn. intros. lia.
Qed.

(** X19: no slice image overwrites another.  The events that [compose]
    hands to the XML writer carry pairwise different file names
    ([slice_%05d.png] of a counter that only grows, also beyond five
    digits), and there are at most as many events as slices, hence
    fewer than twice the number of cues. *)
Theorem compose_filenames_distinct (timing_offset_ms : Qc) (cues : list cue)
        (events : list bdn_event) :
  compose canvas_of r timing_offset_ms cues = Ok events →
  NoDup (bdn_Filename <$> events)
  ∧ (length events ≤ length (compose_slices timing_offset_ms cues))%nat
  ∧ (length events ≤ 2 * length cues - 1)%nat.
Proof.
  unfold compose. intros (kept & ks & Hsub & Hall & Hnames & Hsorted & Hks)
    %compose_events_inv.
  assert (Hlen : (length events
                  ≤ length (compose_slices timing_offset_ms cues))%nat).
  { rewrite <- (Forall2_length _ _ _ Hall). by apply sublist_length. }
  split_and!; [|done|].
  - rewrite Hnames. apply NoDup_fmap_2_strong.
    + intros a b Ha Hb. rewrite Forall_forall in Hks.
      apply slice_filename_inj; [specialize (Hks a Ha)|specialize (Hks b Hb)];
        lia.
    + clear -Hsorted. induction Hsorted as [|k ks _ IH Hk]; constructor;
        [|done].
      intros Hin. rewrite Forall_forall in Hk. specialize (Hk k Hin). lia.
  - etrans; [exact Hlen|]. unfold compose_slices.
    etrans; [apply omap_length_le|]. rewrite length_seq.
    pose proof (sorted_points_length timing_offset_ms cues).
    lia.
Qed.

Lemma StronglySorted_sublist {A} (R : relation A) (l k : list A) :
  l `sublist_of` k → StronglySorted R k → StronglySorted R l.
Proof.
  induction 1 as [|x l k Hsub IH|x l k Hsub IH]; intros Hk; [done| |].
  - apply StronglySorted_inv in Hk as [Hk Hx]. constructor; [by apply IH|].
    apply Forall_forall. intros y Hy. rewrite Forall_forall in Hx.
    apply Hx. by eapply elem_of_sublist.
  - apply StronglySorted_inv in Hk as [Hk _]. by apply IH.
Qed.

Lemma event_timecodes_inv a b in_tc out_tc :
  event_timecodes r a b = Ok (in_tc, out_tc) →
  ∃ ratio,
    float_div (src_fps_float r) (tgt_fps_float r) = Ok ratio
    ∧ _ms_to_tc (a * ratio)%Qc (tgt_fps_num r) (tgt_fps_den r) = Ok in_tc
    ∧ _ms_to_tc (b * ratio)%Qc (tgt_fps_num r) (tgt_fps_den r) = Ok out_tc.
Proof.
  unfold event_timecodes.
  destruct (float_div _ _) as [ratio|]; [|done].
  cbn [mbind result_bind Py.bind].
  destruct (_ms_to_tc (a * ratio)%Qc _ _) as [x|] eqn:E1; [|done].
  destruct (_ms_to_tc (b * ratio)%Qc _ _) as [y|] eqn:E2; [|done].
  cbn [mbind result_bind Py.bind]. intros [= <- <-]. by exists ratio.
Qed.

(** X20: the events of the BDN file are in chronological order and do
    not overlap.  For positive source and target rates whose target
    base is positive, the time stamps that [_tc_to_pts] reads at the
    target rate from the timecodes satisfy, for every event,
    in <= out, and for every earlier event, its out time is at most
    the in time of the later one. *)
Theorem compose_events_chronological
        (fps_num fps_den : Z) (tn td : option Z)
        (timing_offset_ms : Qc) (cues : list cue) (events : list bdn_event) :
  init fps_num fps_den tn td = Ok r →
  0 < fps_num → 0 < fps_den →
  0 < tgt_fps_num r → 0 < tgt_fps_den r →
  0 < py_round (tgt_fps_float r) →
  compose canvas_of r timing_offset_ms cues = Ok events →
  ∀ i j e1 e2,
    (i < j)%nat → events !! i = Some e1 → events !! j = Some e2 →
    ∃ in1 out1 in2 out2,
      _tc_to_pts (bdn_InTC e1) (tgt_fps_num r) (tgt_fps_den r) = Ok in1
      ∧ _tc_to_pts (bdn_OutTC e1) (tgt_fps_num r) (tgt_fps_den r) = Ok out1
      ∧ _tc_to_pts (bdn_InTC e2) (tgt_fps_num r) (tgt_fps_den r) = Ok in2
      ∧ _tc_to_pts (bdn_OutTC e2) (tgt_fps_num r) (tgt_fps_den r) = Ok out2
      ∧ in1 ≤ out1 ∧ out1 ≤ in2 ∧ in2 ≤ out2.
Proof.
  intros (_ & _ & _ & Hsrc & _ & Htgt & _)%init_inv Hn Hd Htn Htd Hbase.
  unfold compose.
  intros (kept & ks & Hsub & Hall & _)%compose_events_inv i j e1 e2 Hij H1 H2.
  destruct (Forall2_lookup_r _ _ _ _ _ Hall H1) as (s1 & Hs1 & Htc1).
  destruct (Forall2_lookup_r _ _ _ _ _ Hall H2) as (s2 & Hs2 & Htc2).
  pose proof (StronglySorted_sublist _ _ _ Hsub
                (compose_slices_ordered timing_offset_ms cues)) as Hsorted.
  pose proof (StronglySorted_lookup _ _ Hsorted i j s1 s2 Hij Hs1 Hs2) as H12.
  cbn beta in H12.
  assert (Hin : ∀ k s, kept !! k = Some s → (t_start s < t_end s)%Qc).
  { intros k s Hk.
    destruct (slice_inside_cue timing_offset_ms cues s) as [Hlt _]; [|done].
    eapply elem_of_sublist; [|exact Hsub].
    apply list_elem_of_lookup. eauto. }
  pose proof (Hin i s1 Hs1) as Hlt1. pose proof (Hin j s2 Hs2) as Hlt2.
  apply event_timecodes_inv in Htc1 as (ratio & Er & Ein1 & Eout1).
  apply event_timecodes_inv in Htc2 as (ratio' & Er' & Ein2 & Eout2).
  assert (ratio' = ratio) by congruence. subst ratio'.
  assert (Hratio : (0 ≤ ratio)%Qc).
  { unfold float_div in Er. destruct (decide _); [done|].
    injection Er as <-. rewrite Hsrc, Htgt.
    apply Qclt_le_weak.
    pose proof (rate_nonneg fps_num fps_den Hn Hd) as Hs.
    pose proof (rate_nonneg _ _ Htn Htd) as Ht.
    by apply Qc_div_pos. }
  assert (Hpts : ∀ ms tc,
    _ms_to_tc ms (tgt_fps_num r) (tgt_fps_den r) = Ok tc →
    _tc_to_pts tc (tgt_fps_num r) (tgt_fps_den r)
    = Ok (py_round (ms / Qc_of_Z 1000
                    * (Qc_of_Z (tgt_fps_num r) / Qc_of_Z (tgt_fps_den r)))%Qc
          * 90000 * tgt_fps_den r / tgt_fps_num r)).
  { intros ms tc E. rewrite Htgt in Hbase.
    destruct (ms_to_pts ms _ _ Htn Htd Hbase) as (tc' & E' & P).
    congruence. }
  assert (Hmono : ∀ a b, (a ≤ b)%Qc →
    py_round (a * ratio / Qc_of_Z 1000
              * (Qc_of_Z (tgt_fps_num r) / Qc_of_Z (tgt_fps_den r)))%Qc
      * 90000 * tgt_fps_den r / tgt_fps_num r
    ≤ py_round (b * ratio / Qc_of_Z 1000
                * (Qc_of_Z (tgt_fps_num r) / Qc_of_Z (tgt_fps_den r)))%Qc
        * 90000 * tgt_fps_den r / tgt_fps_num r).
  { intros a b Hab. apply Z.div_le_mono; [lia|].
    pose proof (total_frames_mono (a * ratio) (b * ratio) _ _ Htn Htd
                  (Qcmult_le_compat_r _ _ _ Hab Hratio)).
    nia. }
  eexists _, _, _, _.
  rewrite (Hpts _ _ Ein1), (Hpts _ _ Eout1), (Hpts _ _ Ein2), (Hpts _ _ Eout2).
  split_and!; try reflexivity; apply Hmono; try done;
    by apply Qclt_le_weak.
Qed.

End Compose.

Lemma compose_filenames_distinct_witness :
  ∃ events,
    compose sample_canvas_of sample_rates 0%Qc [cueA; cueB] = Ok events
    ∧ NoDup (bdn_Filename <$> events)
    ∧ (length events ≤ length (compose_slices 0%Qc [cueA; cueB]))%nat
    ∧ (length events ≤ 2 * length [cueA; cueB] - 1)%nat.
Proof.
  assert (E : ∃ events,
            compose sample_canvas_of sample_rates 0%Qc [cueA; cueB]
            = Ok events) by (eexists; vm_compute; reflexivity).
  destruct E as [events E]. exists events. split; [exact E|].
  exact (compose_filenames_distinct sample_canvas_of sample_rates 0%Qc
           [cueA; cueB] events E).
Defined.

Lemma compose_events_chronological_witness :
  init 24000 1001 (Some 24) (Some 1) = Ok sample_rates
  ∧ 0 < 24000 ∧ 0 < 1001
  ∧ 0 < tgt_fps_num sample_rates ∧ 0 < tgt_fps_den sample_rates
  ∧ 0 < py_round (tgt_fps_float sample_rates)
  ∧ ∃ events,
      compose sample_canvas_of sample_rates 0%Qc [cueA; cueB] = Ok events
      ∧ ∀ i j e1 e2,
          (i < j)%nat → events !! i = Some e1 → events !! j = Some e2 →
          ∃ in1 out1 in2 out2,
            _tc_to_pts (bdn_InTC e1) 24 1 = Ok in1
            ∧ _tc_to_pts (bdn_OutTC e1) 24 1 = Ok out1
            ∧ _tc_to_pts (bdn_InTC e2) 24 1 = Ok in2
            ∧ _tc_to_pts (bdn_OutTC e2) 24 1 = Ok out2
            ∧ in1 ≤ out1 ∧ out1 ≤ in2 ∧ in2 ≤ out2.
Proof.
  assert (E0 : init 24000 1001 (Some 24) (Some 1) = Ok sample_rates)
    by reflexivity.
  assert (H1 : 0 < 24000) by lia. assert (H2 : 0 < 1001) by lia.
  assert (H3 : 0 < tgt_fps_num sample_rates) by (cbn; lia).
  assert (H4 : 0 < tgt_fps_den sample_rates) by (cbn; lia).
  assert (H5 : 0 < py_round (tgt_fps_float sample_rates)) by (by vm_compute).
  assert (E : ∃ events,
            compose sample_canvas_of sample_rates 0%Qc [cueA; cueB]
            = Ok events) by (eexists; vm_compute; reflexivity).
  destruct E as [events E].
  split; [exact E0|]. split; [exact H1|]. split; [exact H2|].
  split; [exact H3|]. split; [exact H4|]. split; [exact H5|].
  exists events. split; [exact E|].
  exact (compose_events_chronological sample_canvas_of sample_rates
           24000 1001 (Some 24) (Some 1) 0%Qc [cueA; cueB] events
           E0 H1 H2 H3 H4 H5 E).
Defined.

End ComposerTheory.

(** ** What the crop keeps *)

Module CropTheory.
Import Img Compositor.
Import RleTheory CompositorTheory EncoderTheory.

Lemma foldr_min_elem (d x : nat) (l : list nat) :
  x ∈ l → (foldr Nat.min d l ≤ x)%nat.
Proof.
  induction l as [|y l IH]; [by intros ?%elem_of_nil|].
  intros [->|Hx]%elem_of_cons; cbn [foldr]; [lia|].
  specialize (IH Hx). lia.
Qed.

Lemma getbbox_contains im lft upper rgt lower k p :
  getbbox im = Some (lft, upper, rgt, lower) →
  im_data im !! k = Some p → alpha p ≠ 0 →
  lft ≤ Z.of_nat (k mod im_width im) < rgt
  ∧ upper ≤ Z.of_nat (k / im_width im) < lower.
Proof.
  unfold getbbox. intros Hbox Hk Hp.
  assert (Hin : k ∈ visible_positions im)
    by (apply elem_of_visible_positions; eauto).
  destruct (visible_positions im) as [|k0 ks]; [done|].
  cbv zeta in Hbox. set (w := im_width im) in *.
  set (xs := (λ k, k mod w)%nat <$> (k0 :: ks)) in *.
  set (ys := (λ k, k / w)%nat <$> (k0 :: ks)) in *.
  apply (inj Some) in Hbox.
  pose proof (f_equal (λ t : Z * Z * Z * Z, t.1.1.1) Hbox) as Hl.
  pose proof (f_equal (λ t : Z * Z * Z * Z, t.1.1.2) Hbox) as Hu.
  pose proof (f_equal (λ t : Z * Z * Z * Z, t.1.2) Hbox) as Hr.
  pose proof (f_equal (λ t : Z * Z * Z * Z, t.2) Hbox) as Hb.
  cbn [fst snd] in Hl, Hu, Hr, Hb. clear Hbox.
  assert (Hx : (k mod w)%nat ∈ xs)
    by (by apply (list_elem_of_fmap_2 (λ k, k mod w)%nat)).
  assert (Hy : (k / w)%nat ∈ ys)
    by (by apply (list_elem_of_fmap_2 (λ k, k / w)%nat)).
  pose proof (foldr_min_elem (k0 mod w) _ _ Hx).
  pose proof (foldr_min_elem (k0 / w) _ _ Hy).
  pose proof (max_list_elem_of_le _ _ Hx).
  pose proof (max_list_elem_of_le _ _ Hy).
  lia.
Qed.

Lemma getbbox_None im k p :
  getbbox im = None → im_data im !! k = Some p → alpha p = 0.
Proof.
  unfold getbbox. intros Hbox Hk.
  destruct (decide (alpha p = 0)) as [|Hp]; [done|exfalso].
  assert (Hin : k ∈ visible_positions im)
    by (apply elem_of_visible_positions; eauto).
  destruct (visible_positions im); [by apply elem_of_nil in Hin|done].
Qed.

Lemma bind_if_singleton {A B} (c : A → bool) (a b : A → B) (l : list A) :
  l ≫= (λ x, if c x then [a x] else [b x])
  = (λ x, if c x then a x else b x) <$> l.
Proof.
  induction l as [|x l IH]; [done|]. cbn. rewrite <- IH. by destruct (c x).
Qed.

Lemma lookup_bind_block {A B} (f : A → list B) (n : nat) (l : list A) :
  (∀ x, length (f x) = n) →
  ∀ j i, (i < n)%nat → (l ≫= f) !! (j * n + i)%nat = l !! j ≫= λ x, f x !! i.
Proof.
  intros Hf. induction l as [|x l IH]; intros j i Hi.
  - by rewrite !lookup_nil.
  - cbn [mbind list_bind]. destruct j as [|j].
    + cbn [Nat.mul Nat.add lookup list_lookup mbind option_bind].
      rewrite lookup_app_l by (rewrite Hf; lia). done.
    + rewrite lookup_app_r by (rewrite Hf; lia).
      rewrite Hf. replace (S j * n + i - n)%nat with (j * n + i)%nat by lia.
      cbn [lookup list_lookup]. by apply IH.
Qed.

Lemma get_pixel_crop canvas lft upper rgt lower i j :
  well_formed canvas →
  0 ≤ lft → 0 ≤ upper →
  rgt ≤ Z.of_nat (im_width canvas) → lower ≤ Z.of_nat (im_height canvas) →
  Z.of_nat i < rgt - lft → Z.of_nat j < lower - upper →
  get_pixel (crop canvas (lft, upper, rgt, lower)) i j
  = get_pixel canvas (Z.to_nat lft + i) (Z.to_nat upper + j).
Proof.
  intros Hwf Hl Hu Hr Hb Hi Hj.
  destruct (get_pixel_ok canvas (Z.to_nat lft + i) (Z.to_nat upper + j) Hwf
              ltac:(lia) ltac:(lia)) as (p & -> & Hp).
  unfold get_pixel, crop. cbn [im_width im_height im_data].
  replace (i <? Z.to_nat (rgt - lft))%nat with true
    by (symmetry; apply Nat.ltb_lt; lia).
  replace (j <? Z.to_nat (lower - upper))%nat with true
    by (symmetry; apply Nat.ltb_lt; lia).
  cbn [andb].
  cbv zeta.
  rewrite (lookup_bind_block _ (Z.to_nat (rgt - lft)));
    [|intros y; rewrite bind_if_singleton, length_fmap, length_seq; lia|lia].
  rewrite lookup_seq_lt by lia. cbn [mbind option_bind].
  rewrite bind_if_singleton, list_lookup_fmap, lookup_seq_lt by lia.
  cbn [fmap option_fmap option_map Nat.add].
  rewrite (proj2 (Z.leb_le 0 (lft + Z.of_nat i))) by lia.
  rewrite (proj2 (Z.leb_le 0 (upper + Z.of_nat j))) by lia.
  rewrite (proj2 (Z.ltb_lt (lft + Z.of_nat i) _)) by lia.
  rewrite (proj2 (Z.ltb_lt (upper + Z.of_nat j) _)) by lia.
  cbn [andb].
  replace (Z.to_nat (upper + Z.of_nat j)) with (Z.to_nat upper + j)%nat by lia.
  replace (Z.to_nat (lft + Z.of_nat i)) with (Z.to_nat lft + i)%nat by lia.
  by rewrite Hp.
Qed.

Lemma get_pixel_inv im x y p :
  get_pixel im x y = Ok p →
  (x < im_width im)%nat ∧ (y < im_height im)%nat
  ∧ im_data im !! (y * im_width im + x)%nat = Some p.
Proof.
  unfold get_pixel.
  destruct (x <? im_width im)%nat eqn:Ex; [|done].
  destruct (y <? im_height im)%nat eqn:Ey; [|done]. cbn [andb].
  destruct (im_data im !! _) as [q|] eqn:Eq; [|done]. intros [= <-].
  apply Nat.ltb_lt in Ex, Ey. done.
Qed.

Lemma guard_corner_pixels im x y im' :
  guard_corner (0, 0, 0, 0) x y im = Ok im' →
  im_width im' = im_width im ∧ im_height im' = im_height im
  ∧ Forall2 (λ p q, q = p ∨ (alpha p = 0 ∧ q = transparent))
            (im_data im) (im_data im').
Proof.
  unfold guard_corner.
  destruct (get_pixel im x y) as [p|] eqn:Ep; [|done].
  cbn [mbind result_bind Py.bind].
  apply get_pixel_inv in Ep as (Hx & Hy & Hp).
  destruct (Z.eqb_spec (alpha p) 0) as [Ha|Ha].
  - unfold set_pixel.
    rewrite (proj2 (Nat.ltb_lt _ _) Hx), (proj2 (Nat.ltb_lt _ _) Hy).
    cbn [andb]. intros [= <-]. cbn [im_width im_height im_data].
    split; [done|]. split; [done|].
    rewrite <- (list_insert_id (im_data im) _ p Hp) at 1.
    apply Forall2_insert; [|by right].
    apply Forall_Forall2_diag, Forall_forall. intros; by left.
  - intros [= <-]. split; [done|]. split; [done|].
    apply Forall_Forall2_diag, Forall_forall. intros; by left.
Qed.

Lemma guard_corners_pixels cropped saved :
  guard_corners cropped = Ok saved →
  im_width saved = im_width cropped ∧ im_height saved = im_height cropped
  ∧ Forall2 (λ p q, q = p ∨ (alpha p = 0 ∧ q = transparent))
            (im_data cropped) (im_data saved).
Proof.
  unfold guard_corners. cbv zeta.
  destruct (guard_corner _ 0 0 cropped) as [im1|] eqn:E1; [|done].
  cbn [mbind result_bind Py.bind].
  destruct (guard_corner _ _ 0 im1) as [im2|] eqn:E2; [|done].
  cbn [mbind result_bind Py.bind].
  destruct (guard_corner _ 0 _ im2) as [im3|] eqn:E3; [|done].
  cbn [mbind result_bind Py.bind]. intros E4.
  apply guard_corner_pixels in E1 as (W1 & H1 & F1).
  apply guard_corner_pixels in E2 as (W2 & H2 & F2).
  apply guard_corner_pixels in E3 as (W3 & H3 & F3).
  apply guard_corner_pixels in E4 as (W4 & H4 & F4).
  split; [congruence|]. split; [congruence|].
  assert (Htrans : ∀ p q q' : rgba,
            q = p ∨ (alpha p = 0 ∧ q = transparent) →
            q' = q ∨ (alpha q = 0 ∧ q' = transparent) →
            q' = p ∨ (alpha p = 0 ∧ q' = transparent)).
  { intros p q q' [->|[Hp ->]] [->|[Hq ->]]; auto. }
  eapply Forall2_trans; [exact Htrans| |exact F4].
  eapply Forall2_trans; [exact Htrans| |exact F3].
  eapply Forall2_trans; [exact Htrans|exact F1|exact F2].
Qed.

(** X21: the crop keeps the picture.  When the canvas has no visible
    pixel, [_create_composite_image] saves nothing and returns
    [(0, 0, 0, 0)]; otherwise every pixel of the canvas whose alpha is
    not zero lies inside the returned box and is found unchanged in
    the saved image, at its position relative to the box. *)
Theorem composite_keeps_content (canvas : image) :
  well_formed canvas →
  (∀ box, _create_composite_image canvas = Ok (box, None) →
     box = (0, 0, 0, 0) ∧ Forall (λ p, alpha p = 0) (im_data canvas))
  ∧ (∀ x y w h saved,
       _create_composite_image canvas = Ok ((x, y, w, h), Some saved) →
       0 ≤ x ∧ 0 ≤ y
       ∧ ∀ cx cy p,
           get_pixel canvas cx cy = Ok p → alpha p ≠ 0 →
           x ≤ Z.of_nat cx < x + w ∧ y ≤ Z.of_nat cy < y + h
           ∧ get_pixel saved (cx - Z.to_nat x) (cy - Z.to_nat y) = Ok p).
Proof.
  intros Hwf. unfold _create_composite_image. cbv zeta. split.
  - intros box. destruct (getbbox canvas) as [bbox|] eqn:Hbox.
    + destruct (align_box _ _ bbox) as [[[l' u'] r'] b'].
      by destruct (guard_corners _).
    + intros [= <-]. split; [done|]. apply Forall_forall.
      intros p (k & Hk)%list_elem_of_lookup. by eapply getbbox_None.
  - intros x y w h saved.
    destruct (getbbox canvas) as [[[[lft upper] rgt] lower]|] eqn:Hbox;
      [|done].
    pose proof (getbbox_bounds canvas _ Hwf Hbox) as (Hx & Hr & Hy & Hb).
    destruct (align_box_spec _ _ lft upper rgt lower Hx Hr Hy Hb)
      as (l' & u' & r' & b' & -> & Hl' & Hr' & Hu' & Hb' & _).
    destruct (guard_corners _) as [saved'|] eqn:Eg; [|done].
    cbn [mbind result_bind Py.bind]. intros [= <- <- <- <- <-].
    apply guard_corners_pixels in Eg as (Hsw & Hsh & Hpx).
    cbn [crop im_width im_height] in Hsw, Hsh.
    split; [lia|]. split; [lia|].
    intros cx cy p Hp Ha.
    pose proof Hp as (Hcx & Hcy & Hk)%get_pixel_inv.
    destruct (getbbox_contains canvas _ _ _ _ _ p Hbox Hk Ha) as [Hin_x Hin_y].
    destruct (pixel_index (im_width canvas) cx cy Hcx) as [Em Ed].
    rewrite Em in Hin_x. rewrite Ed in Hin_y.
    split; [lia|]. split; [lia|].
    pose proof (get_pixel_crop canvas l' u' r' b'
                  (cx - Z.to_nat l') (cy - Z.to_nat u') Hwf
                  ltac:(lia) ltac:(lia) ltac:(lia) ltac:(lia)
                  ltac:(lia) ltac:(lia)) as Hcrop.
    replace (Z.to_nat l' + (cx - Z.to_nat l'))%nat with cx in Hcrop by lia.
    replace (Z.to_nat u' + (cy - Z.to_nat u'))%nat with cy in Hcrop by lia.
    rewrite Hp in Hcrop.
    apply get_pixel_inv in Hcrop as (Hi & Hj & Hlook).
    cbn [crop im_width im_height] in Hi, Hj, Hlook.
    destruct (Forall2_lookup_l _ _ _ _ _ Hpx Hlook) as (q & Hq & Hrel).
    unfold get_pixel. rewrite Hsw, Hsh.
    rewrite (proj2 (Nat.ltb_lt _ _) Hi), (proj2 (Nat.ltb_lt _ _) Hj).
    cbn [andb]. rewrite Hq.
    destruct Hrel as [->|[Hzero _]]; [done|]. by destruct Ha.
Qed.

Lemma composite_keeps_content_witness :
  well_formed one_pixel_canvas
  ∧ ∃ saved,
      _create_composite_image one_pixel_canvas
      = Ok ((0, 0, 2, 2), Some saved)
      ∧ get_pixel one_pixel_canvas 1 0 = Ok opaque_black
      ∧ get_pixel saved 1 0 = Ok opaque_black.
Proof.
  assert (Hwf : well_formed one_pixel_canvas) by reflexivity.
  assert (E : ∃ saved, _create_composite_image one_pixel_canvas
                       = Ok ((0, 0, 2, 2), Some saved))
    by (eexists; vm_compute; reflexivity).
  destruct E as [saved E].
  assert (Hp : get_pixel one_pixel_canvas 1 0 = Ok opaque_black)
    by reflexivity.
  split; [exact Hwf|]. exists saved. split; [exact E|]. split; [exact Hp|].
  destruct (composite_keeps_content one_pixel_canvas Hwf) as [_ Hsome].
  destruct (Hsome 0 0 2 2 saved E) as (_ & _ & Hpx).
  exact (proj2 (proj2 (Hpx 1%nat 0%nat opaque_black Hp ltac:(done)))).
Defined.

End CropTheory.

(** ** The BDN file between composer and encoder *)

Module BdnTheory.
Import Img Compositor PyStr Slicer Composer Bdn.
Import RleTheory SlicerTheory CompositorTheory PyStrTheory ComposerTheory.

Lemma py_int_py_str (n : Z) : py_int (py_str n) = Ok n.
Proof.
  unfold py_str. destruct (n <? 0) eqn:E.
  - apply Z.ltb_lt in E.
    destruct (dec_digits_spec (- n) ltac:(lia)) as (ds & Eds & Hds & Hne & Hval).
    rewrite Eds. unfold py_int.
    assert (Hchars : Forall (λ c, is_space c = false)
                            ("-"%char :: (digit_char <$> ds))).
    { constructor; [done|]. apply Forall_fmap.
      eapply Forall_impl; [exact Hds|]. intros d Hd.
      by destruct (digit_char_facts d Hd) as (_ & ? & _). }
    rewrite strip_no_space by done. cbn [Ascii.eqb].
    change (Ascii.eqb "-" "+") with false. cbn [Ascii.eqb].
    pose proof (digits_value_digits ds 0 false [] Hds Hne) as Hv.
    rewrite app_nil_r in Hv.
    change ((if Ascii.eqb "-" "-" then _ else _)
            = Ok n) with
      (match Z.opp <$> digits_value 0 false (digit_char <$> ds) with
       | Some v => Ok v | None => Raise ValueError end = Ok n).
    rewrite Hv. cbn. f_equal. lia.
  - apply Z.ltb_ge in E.
    destruct (dec_digits_spec n E) as (ds & -> & Hds & Hne & Hval).
    by rewrite py_int_digits, Hval.
Qed.

(** X22: the resolution of the composer does not reach the encoder.
    [_write_bdn_xml] records the target resolution in the attribute
    [Resolution] of the [Format] element and writes no attribute
    [VideoFormat]; [_parse_bdn] derives the video size from the
    attribute [VideoFormat] alone.  So from the [Format] element of a
    file of the composer the encoder takes 1920x1080, whatever the
    target resolution and the frame rate string are, and in general
    the size it takes is one of the four of its table. *)
Theorem parsed_size_ignores_resolution (std_w std_h : Z) (fps_str : string) :
  video_size (format_attributes std_w std_h fps_str) = (1920, 1080)
  ∧ ∀ fmt, video_size fmt ∈ [(1280, 720); (720, 480); (720, 576); (1920, 1080)].
Proof.
  split.
  - unfold video_size, format_attributes. cbv zeta.
    rewrite !lookup_insert_ne, lookup_singleton_ne by done. reflexivity.
  - intros fmt. unfold video_size. cbv zeta.
    repeat (destruct (contains _ _); [set_solver|]). set_solver.
Qed.

Section Compose.
Variable canvas_of : list cue → image.
Variable r : rates.

Lemma compose_event_box seq_num s e :
  compose_event canvas_of r seq_num s = Ok (Some e) →
  0 ≤ bdn_X e ∧ 0 ≤ bdn_Y e.
Proof.
  unfold compose_event, _create_composite_image. cbv zeta.
  destruct (getbbox _) as [[[[lft upper] rgt] lower]|].
  - unfold align_box. cbv zeta.
    destruct (guard_corners _) as [saved|]; [|done].
    cbn [mbind result_bind Py.bind].
    destruct (_ || _); [done|].
    destruct (event_timecodes _ _ _) as [[in_tc out_tc]|]; [|done].
    cbn [mbind result_bind Py.bind]. intros [= <-].
    cbn [bdn_X bdn_Y]. lia.
  - cbn [mbind result_bind Py.bind]. done.
Qed.

Lemma compose_events_box slices : ∀ seq_num events,
  compose_events canvas_of r seq_num slices = Ok events →
  Forall (λ e, 0 ≤ bdn_X e ∧ 0 ≤ bdn_Y e) events.
Proof.
  induction slices as [|s slices IH]; intros seq_num events;
    cbn [compose_events].
  { intros [= <-]. constructor. }
  destruct (compose_event _ _ _ _) as [ev|] eqn:Eev; [|done].
  cbn [mbind result_bind Py.bind].
  destruct (compose_events _ _ _ _) as [evs|] eqn:Eevs; [|done].
  cbn [mbind result_bind Py.bind]. intros [= <-].
  apply IH in Eevs. destruct ev as [e|]; [|done].
  constructor; [|done]. by eapply compose_event_box.
Qed.

(** X23: the coordinates of an event survive the BDN file.  The text
    that [_write_bdn_xml] puts in the attributes [X] and [Y] is read by
    [int()] in [_parse_bdn] as the coordinate clamped at 0; and for
    every event of [compose] the clamp changes nothing (the box of the
    composite starts inside the canvas), so the encoder reads the
    coordinates of the composer. *)
Theorem coordinates_survive_bdn (timing_offset_ms : Qc) (cues : list cue)
        (events : list bdn_event) :
  compose canvas_of r timing_offset_ms cues = Ok events →
  (∀ v, py_int (coordinate_text v) = Ok (Z.max 0 v))
  ∧ Forall (λ e, py_int (coordinate_text (bdn_X e)) = Ok (bdn_X e)
                 ∧ py_int (coordinate_text (bdn_Y e)) = Ok (bdn_Y e))
           events.
Proof.
  intros E.
  assert (Hread : ∀ v, py_int (coordinate_text v) = Ok (Z.max 0 v)).
  { intros v. unfold coordinate_text. cbv zeta.
    by rewrite py_int_py_str, Z.add_0_r. }
  split; [exact Hread|].
  eapply Forall_impl; [exact (compose_events_box _ _ _ E)|].
  intros e [Hx Hy]. cbn beta. rewrite !Hread. split; f_equal; lia.
Qed.

End Compose.

Lemma coordinates_survive_bdn_witness :
  ∃ events,
    compose sample_canvas_of sample_rates 0%Qc [cueA; cueB] = Ok events
    ∧ (∀ v, py_int (coordinate_text v) = Ok (Z.max 0 v))
    ∧ Forall (λ e, py_int (coordinate_text (bdn_X e)) = Ok (bdn_X e)
                   ∧ py_int (coordinate_text (bdn_Y e)) = Ok (bdn_Y e))
             events.
Proof.
  assert (E : ∃ events,
            compose sample_canvas_of sample_rates 0%Qc [cueA; cueB]
            = Ok events) by (eexists; vm_compute; reflexivity).
  destruct E as [events E]. exists events. split; [exact E|].
  exact (coordinates_survive_bdn sample_canvas_of sample_rates 0%Qc
           [cueA; cueB] events E).
Defined.

End BdnTheory.

(** ** The order of the layers of a slice *)

Module LayerTheory.
Import Slicer Composer Batcher.
Import SlicerTheory.
Local Open Scope Qc_scope.

Lemma filter_insert_by_id k c l :
  filter (λ c', id c' = k) (insert_by_id c l)
  = filter (λ c', id c' = k) (c :: l).
Proof.
  induction l as [|c' l IH]; [done|]. cbn [insert_by_id].
  case_decide as Hle; [done|].
  apply Qcnot_le_lt in Hle.
  rewrite filter_cons, IH, !filter_cons.
  destruct (decide (id c' = k)) as [Hc'|]; [|done].
  destruct (decide (id c = k)) as [Hc|]; [|done].
  exfalso. rewrite Hc', Hc in Hle. by apply Qclt_not_eq in Hle.
Qed.

Lemma filter_sort_by_id k l :
  filter (λ c, id c = k) (sort_by_id l) = filter (λ c, id c = k) l.
Proof.
  induction l as [|c l IH]; [done|]. cbn [sort_by_id foldr].
  rewrite filter_insert_by_id, !filter_cons. fold (sort_by_id l).
  by rewrite IH.
Qed.

Lemma Sorted_Forall_impl {A} (R R' : relation A) (P : A → Prop) l :
  (∀ a b, P a → P b → R a b → R' a b) →
  Forall P l → Sorted R l → Sorted R' l.
Proof.
  intros HR Hl Hs. induction Hs as [|a l Hs IH Hhd]; [constructor|].
  apply Forall_cons in Hl as [Ha Hl]. constructor; [by apply IH|].
  destruct Hhd as [|b l' Hab]; constructor.
  apply Forall_cons in Hl as [Hb _]. by apply HR.
Qed.

Lemma manifest_cues_ids process_cues :
  Forall (λ c, id c = start_ms c) (manifest_cues process_cues).
Proof.
  apply Forall_forall. intros c (i & pc & -> & _)%elem_of_lookup_imap. done.
Qed.

(** X24: the layers of a slice.  The active cues of a slice are the
    cues of the list that are shown at its mid point, sorted by id with
    a stable sort: cues of one id keep the order they have in the list.
    The batcher gives every manifest entry its start time as id, so
    with its manifest the layers are drawn in the order of their start
    times, the cue that started first at the bottom. *)
Theorem layers_in_start_order (timing_offset_ms : Qc) (cues : list cue)
        (s : TimeSlice) :
  s ∈ compose_slices timing_offset_ms cues →
  (∀ k, filter (λ c, id c = k) (active_cues s)
        = filter (λ c, id c = k)
                 (filter (is_active timing_offset_ms (mid s)) cues))
  ∧ (∀ process_cues,
       cues = manifest_cues process_cues →
       Sorted (λ a b, start_ms a ≤ start_ms b) (active_cues s)).
Proof.
  intros [i Hs]%elem_of_compose_slices.
  apply slice_at_Some in Hs as (a & b & _ & _ & _ & <- & <- & _ & Hact).
  fold (mid s) in Hact. rewrite Hact. split.
  - intros k. apply filter_sort_by_id.
  - intros process_cues ->.
    eapply (Sorted_Forall_impl _ _ (λ c, id c = start_ms c));
      [| |apply sort_by_id_Sorted].
    + intros c1 c2 <- <-. done.
    + apply Forall_forall. intros c.
      rewrite sort_by_id_Permutation, list_elem_of_filter. intros [_ Hc].
      by apply (proj1 (Forall_forall _ _) (manifest_cues_ids process_cues)).
Qed.

Lemma layers_in_start_order_witness :
  ∃ s,
    s ∈ compose_slices 0
          (manifest_cues [(Qc_of_Z 500, Qc_of_Z 1500); (0, Qc_of_Z 1000)])
    ∧ length (active_cues s) = 2%nat
    ∧ Sorted (λ a b, start_ms a ≤ start_ms b) (active_cues s).
Proof.
  set (pcs := [(Qc_of_Z 500, Qc_of_Z 1500); (0, Qc_of_Z 1000)]).
  assert (E : ∃ s, compose_slices 0 (manifest_cues pcs) !! 1%nat = Some s
                   ∧ length (active_cues s) = 2%nat)
    by (eexists; split; vm_compute; reflexivity).
  destruct E as (s & Hs & Hlen). exists s.
  assert (Hin : s ∈ compose_slices 0 (manifest_cues pcs))
    by (apply list_elem_of_lookup; eauto).
  split; [exact Hin|]. split; [exact Hlen|].
  exact (proj2 (layers_in_start_order 0 (manifest_cues pcs) s Hin)
           pcs eq_refl).
Defined.

End LayerTheory.
